(** * Configuration resolution of dlt: a shallow embedding of
      [dlt/common/configuration/resolve.py]

    The development follows the Python module function by function.  Python
    values are a small inductive universe, configuration instances live in a
    heap and are referred to by location (they are mutated in place and may
    be shared), exceptions are values of an error type, and every function
    that queries a provider threads a log of the queries it made. *)

From Stdlib Require Import Ascii DecimalString DecimalPos DecimalZ.
From stdpp Require Import gmap strings list fin_maps.

Set Warnings "-register-all".

Open Scope string_scope.
Open Scope Z_scope.
Open Scope list_scope.

(** ** Python values, runtime types and type hints *)

Definition loc := positive.
Definition ClassId := string.

(** [type(value)] for the values of the model. *)
Inductive PyType :=
| TNoneType
| TBool
| TInt
| TStr
| TBytes
| TTuple
| TList
| TDict
| TClass (c : ClassId).

(** A value.  [VConfig c r] is a reference to the configuration instance
    stored at location [r] of the heap, whose class is [c] (the class of a
    Python object never changes, so the reference carries it). *)
Inductive PyVal :=
| VNone
| VBool (b : bool)
| VInt (z : Z)
| VStr (s : string)
| VBytes (s : string)
| VTuple (items : list PyVal)
| VList (items : list PyVal)
| VDict (items : list (string * PyVal))
| VConfig (c : ClassId) (r : loc).

(** Type hints as the resolver sees them. *)
Inductive Hint :=
| HAny                                   (* typing.Any, AnyType *)
| HType (t : PyType)                     (* a class used as a hint *)
| HSecret                                (* TSecretValue, a NewType over str *)
| HOptional (h : Hint)                   (* Optional[h] *)
| HGeneric (origin : PyType) (args : list Hint)   (* List[str], Dict[str, Any], ... *)
| HUnion (alts : list Hint).             (* Union[...] without None *)

Global Instance PyType_eq_dec : EqDecision PyType.
Proof. solve_decision. Defined.

Definition type_of (v : PyVal) : PyType :=
  match v with
  | VNone => TNoneType
  | VBool _ => TBool
  | VInt _ => TInt
  | VStr _ => TStr
  | VBytes _ => TBytes
  | VTuple _ => TTuple
  | VList _ => TList
  | VDict _ => TDict
  | VConfig c _ => TClass c
  end.

(** [value is None] and [value is not None]. *)
Definition is_none (v : PyVal) : bool :=
  match v with VNone => true | _ => false end.

(** Truth value of an optional string ([if pipeline_name:],
    [if config_namespace:]): [None] and the empty string are false. *)
Definition truthy_str (s : option string) : bool :=
  match s with
  | None => false
  | Some s => negb (String.eqb s "")
  end.

(** [s.startswith("_")] *)
Definition startswith_underscore (s : string) : bool := String.prefix "_" s.

(** ** Namespace composition *)

(** [_apply_embedded_namespaces_to_config_namespace]: [embedded_namespaces[-1]]
    is the last element of the tuple and [embedded_namespaces[:-1]] the tuple
    without it. *)
Definition _apply_embedded_namespaces_to_config_namespace
    (config_namespace : option string) (embedded_namespaces : list string)
    : option string * list string :=
  let '(config_namespace, embedded_namespaces) :=
    match last embedded_namespaces with
    | Some innermost =>
        (if negb (startswith_underscore innermost)
         then Some innermost else config_namespace,
         removelast embedded_namespaces)
    | None => (config_namespace, embedded_namespaces)
    end in
  (config_namespace,
   filter (λ ns, negb (startswith_underscore ns) = true) embedded_namespaces).

(** ** Lookup traces and exceptions *)

(** [LookupTrace(provider, namespaces, key, value)] *)
Record LookupTrace := mkLookupTrace {
  trace_provider : string;
  trace_namespaces : list string;
  trace_key : string;
  trace_value : PyVal;
}.

(** The exceptions the module raises or handles.  [OtherError] stands for any
    other exception raised by code outside the module. *)
Inductive Exc :=
| ConfigurationWrongTypeException (t : PyType)
| ConfigFieldMissingException (spec_name : string)
    (unresolved : list (string * list LookupTrace))
| ConfigValueCannotBeCoercedException (key : string) (value : PyVal) (hint : Hint)
| ValueNotSecretException (provider_name : string) (key : string)
| InvalidNativeValue (spec : ClassId) (native_value_type : PyType)
    (embedded_namespaces : list string) (inner : Exc)
| ValueError (value : PyVal)
| TypeError
| NotImplementedError
| OtherError (msg : string).

(** A computation that returns or raises. *)
Definition Result (A : Type) : Type := Exc + A.

(** ** The schema subsystem and the Python runtime

    [py_type_to_sc_type] and [coerce_type] belong to the schema subsystem,
    [ast.literal_eval], [json.loads] and [str] to the Python runtime; none of
    them is part of the module.  The resolver is parametric in them. *)

(** Modelled from the spec: the coercion classes of section 4.3 (textual,
    integer, float, boolean, timestamp, binary, complex-structured), the
    [TDataType] literals of the schema subsystem. *)
Inductive TDataType :=
| dt_text | dt_bigint | dt_double | dt_bool | dt_timestamp | dt_binary | dt_complex.

Global Instance TDataType_eq_dec : EqDecision TDataType.
Proof. solve_decision. Defined.

Class Runtime := {
  (** class of a declared or runtime type; raises on a type it does not know *)
  py_type_to_sc_type : Hint → Result TDataType;
  (** [coerce_type(to_type, from_type, value)] *)
  coerce_type : TDataType → TDataType → PyVal → Result PyVal;
  (** [ast.literal_eval(value)] *)
  ast_literal_eval : PyVal → Result PyVal;
  (** [json.loads(value)] *)
  json_loads : PyVal → Result PyVal;
  (** [str(value)] *)
  py_str : PyVal → string;
  (** [a is b] for two objects that reached the resolver independently (a
      value returned by a provider and the explicit value); the identity of
      immutable objects is up to the interpreter *)
  py_is : PyVal → PyVal → bool;
}.

(** ** Providers and the container *)

(** The provider contract: [name], [supports_secrets], [supports_namespaces]
    and [get_value(key, hint, *namespaces) -> (value, key_name)]. *)
Record ConfigProvider := mkProvider {
  name : string;
  supports_secrets : bool;
  supports_namespaces : bool;
  get_value : string → Hint → list string → PyVal * string;
}.

(** One call of [get_value], with what it returned.  The log of calls is not
    a variable of the program: it records the provider queries a run makes. *)
Record Call := mkCall {
  call_provider : ConfigProvider;
  call_key : string;
  call_hint : Hint;
  call_namespaces : list string;
  call_value : PyVal;
  call_ns_key : string;
}.

(** What the resolver reads from the [Container]: [providers] and
    [context_provider] of the [ConfigProvidersContext], [pipeline_name] and
    [namespaces] of the [ConfigNamespacesContext]. *)
Record Container := mkContainer {
  providers : list ConfigProvider;
  context_provider : ConfigProvider;
  ctx_pipeline_name : option string;
  ctx_namespaces : list string;
}.

(** ** Configuration instances and classes *)

(** Modelled from the spec: [BaseConfiguration] is not part of the module.
    An instance is a mutable record of field values with the lifecycle
    attributes [__is_resolved__] and [__exception__] and the namespace
    [__namespace__] (section 3, ConfigurationObject). *)
Record ConfigObj := mkObj {
  obj_attrs : gmap string PyVal;
  obj_namespace : option string;
  obj_is_resolved : bool;
  obj_exception : option Exc;
}.

(** A method of a configuration class called on an instance: it may change
    the instance and it may raise. *)
Definition Method := ConfigObj → ConfigObj * option Exc.

(** Modelled from the spec: a configuration class, as far as the resolver
    uses it: its [__name__], whether it derives from
    [ContainerInjectableContext] or [CredentialsConfiguration], the result of
    [get_resolvable_fields()] in iteration order, the state of a fresh
    instance [cls()], [parse_native_representation], the method resolution
    order [type.mro(cls)] and the hooks found in the class's own [__dict__]. *)
Record ClassDesc := mkClass {
  cls_name : string;
  cls_is_context : bool;
  cls_is_credentials : bool;
  cls_fields : list (string * Hint);
  cls_new : ConfigObj;
  cls_parse_native : PyVal → ConfigObj → ConfigObj * option Exc;
  cls_mro : list ClassId;
  cls_on_resolved : option Method;
  cls_on_partial : option Method;
}.

Definition ClassTable := ClassId → ClassDesc.

(** ** Configuration instances as mappings

    Modelled from the spec: [BaseConfiguration] is not among the sources.  A
    configuration object is a record with a fixed set of named fields
    (section 3) that is also used as a mapping from field names to values
    (section 4.5): it is a [collections.abc.Mapping] over its declared
    fields.  Its length is the number of these fields, so an instance of a
    class without fields is false as a condition, and [get(key)] is the
    attribute of that name for a declared field and [None] for another
    key. *)

(** [len(config)] for an instance of class [c]. *)
Definition config_len (classes : ClassTable) (c : ClassId) : nat :=
  length (cls_fields (classes c)).

(** Truth value of [if value:]. *)
Definition truthy (classes : ClassTable) (v : PyVal) : bool :=
  match v with
  | VNone => false
  | VBool b => b
  | VInt z => negb (z =? 0)
  | VStr s | VBytes s => negb (String.eqb s "")
  | VTuple l | VList l => negb (Nat.eqb (length l) 0)
  | VDict l => negb (Nat.eqb (length l) 0)
  | VConfig c _ => negb (Nat.eqb (config_len classes c) 0)
  end.

(** [a or b]. *)
Definition py_or (classes : ClassTable) (a b : PyVal) : PyVal :=
  if truthy classes a then a else b.

(** ** State, outcomes and the resolver monad *)

Record State := mkState {
  st_heap : gmap loc ConfigObj;
  st_calls : list Call;
}.

(** A call returns, raises, or does not finish within the recursion depth
    given to the model. *)
Inductive Outcome (A : Type) :=
| Ret (a : A)
| Raise (e : Exc)
| OutOfFuel.
Arguments Ret {A} a.
Arguments Raise {A} e.
Arguments OutOfFuel {A}.

Definition M (A : Type) := State → Outcome A * State.

Definition ret {A} (a : A) : M A := λ st, (Ret a, st).
Definition raise {A} (e : Exc) : M A := λ st, (Raise e, st).
Definition bind {A B} (m : M A) (k : A → M B) : M B :=
  λ st, match m st with
        | (Ret a, st') => k a st'
        | (Raise e, st') => (Raise e, st')
        | (OutOfFuel, st') => (OutOfFuel, st')
        end.

(** [try: m except Exception as e: handler e] *)
Definition try_except {A} (m : M A) (handler : Exc → M A) : M A :=
  λ st, match m st with
        | (Raise e, st') => handler e st'
        | r => r
        end.

Definition lift_result {A} (r : Result A) : M A :=
  match r with
  | inl e => raise e
  | inr a => ret a
  end.

Declare Scope resolver_scope.
Delimit Scope resolver_scope with resolver.
Notation "x <- m ;; k" := (bind m (λ x, k))
  (at level 20, m at level 99, k at level 200, only parsing) : resolver_scope.
Notation "' p <- m ;; k" := (bind m (λ x, match x with p => k end))
  (at level 20, p pattern, m at level 99, k at level 200, only parsing) : resolver_scope.
Notation "'run' m ;; k" := (bind m (λ _, k))
  (at level 20, m at level 99, k at level 200, only parsing) : resolver_scope.
Open Scope resolver_scope.

(** ** Helpers of [dlt.common.typing] and [typing] on hints *)

(** Modelled from the spec: [is_optional_type], true of [Optional[...]]. *)
Definition is_optional_type (h : Hint) : bool :=
  match h with HOptional _ => true | _ => false end.

(** Modelled from the spec: [extract_inner_type] (the module's comment:
    extract hint from Optional / Literal / NewType hints); [TSecretValue] is
    a NewType over [str]. *)
Fixpoint extract_inner_type (h : Hint) : Hint :=
  match h with
  | HOptional h' => extract_inner_type h'
  | HSecret => HType TStr
  | _ => h
  end.

(** [hint != Any] fails and [hint is tuple] holds on these hints. *)
Definition hint_is_any (h : Hint) : bool :=
  match h with HAny => true | _ => false end.

Definition hint_is_tuple (h : Hint) : bool :=
  match h with HType TTuple => true | _ => false end.

Definition is_class_hint (h : Hint) : bool :=
  match h with HType (TClass _) => true | _ => false end.

(** Modelled from the spec: [get_config_if_union] (the module's comment: get
    base configuration from union type), the first configuration class among
    the alternatives of a union, else [None]. *)
Definition get_config_if_union (h : Hint) : option Hint :=
  match h with
  | HUnion alts => head (filter (λ a, is_class_hint a = true) alts)
  | HOptional h' => if is_class_hint h' then Some h' else None
  | _ => None
  end.

(** [typing.get_origin]: the unsubscripted class of a generic ([List[str]]
    gives [list]), [typing.Union] (written [HUnion []]) for a union, [None]
    otherwise. *)
Definition get_origin (h : Hint) : option Hint :=
  match h with
  | HGeneric origin _ => Some (HType origin)
  | HUnion (_ :: _) | HOptional _ => Some (HUnion [])
  | _ => None
  end.

Section Resolver.

Context {rt : Runtime}.

(** The classes of the program that derive from [BaseConfiguration]; every
    [TClass c] is one of them. *)
Context (classes : ClassTable).

(** The container in force during the resolution. *)
Context (C : Container).

(** [issubclass(t1, t2)] on runtime types. *)
Definition issubclass (t1 t2 : PyType) : bool :=
  match t1, t2 with
  | TBool, TInt => true
  | TClass c1, TClass c2 => bool_decide (c2 ∈ cls_mro (classes c1))
  | _, _ => bool_decide (t1 = t2)
  end.

(** [isinstance(value, hint)]; raises [TypeError] when [hint] is not a class. *)
Definition isinstance (value : PyVal) (hint : Hint) : Result bool :=
  match hint with
  | HType t => inr (issubclass (type_of value) t)
  | _ => inl TypeError
  end.

(** [inspect.isclass(h) and issubclass(h, ContainerInjectableContext)] *)
Definition is_context_hint (h : Hint) : bool :=
  match h with
  | HType (TClass c) => cls_is_context (classes c)
  | _ => false
  end.

(** [inspect.isclass(h) and issubclass(h, BaseConfiguration)] *)
Definition is_config_hint (h : Hint) : bool := is_class_hint h.

(** [_is_secret_hint] *)
Definition _is_secret_hint (hint : Hint) : bool :=
  match hint with
  | HSecret => true
  | HType (TClass c) => cls_is_credentials (classes c)
  | _ => false
  end.

(** ** Type coercion *)

(** The two handlers of [deserialize_value]: a
    [ConfigValueCannotBeCoercedException] passes, any other exception is
    replaced by one built from the current binding of [value]. *)
Definition coercion_handler (key : string) (value : PyVal) (hint : Hint)
    (exc : Exc) : Exc :=
  match exc with
  | ConfigValueCannotBeCoercedException _ _ _ => exc
  | _ => ConfigValueCannotBeCoercedException key value hint
  end.

(** [deserialize_value] *)
Definition deserialize_value (key : string) (value : PyVal) (hint : Hint)
    : Result PyVal :=
  if hint_is_any hint then inr value
  else
    match py_type_to_sc_type hint with
    | inl exc => inl (coercion_handler key value hint exc)
    | inr hint_dt =>
      match py_type_to_sc_type (HType (type_of value)) with
      | inl exc => inl (coercion_handler key value hint exc)
      | inr value_dt =>
        if bool_decide (value_dt = dt_text) && bool_decide (hint_dt = dt_complex)
        then
          (* eval only if value is string and hint is "complex" *)
          match (if hint_is_tuple hint
                 then ast_literal_eval value else json_loads value) with
          | inl exc => inl (coercion_handler key value hint exc)
          | inr value =>
            (* exact types must match *)
            match isinstance value hint with
            | inl exc => inl (coercion_handler key value hint exc)
            | inr false => inl (coercion_handler key value hint (ValueError value))
            | inr true => inr value
            end
          end
        else
          (* for types that are not complex, reuse schema coercion rules *)
          if bool_decide (value_dt ≠ hint_dt)
          then match coerce_type hint_dt value_dt value with
               | inl exc => inl (coercion_handler key value hint exc)
               | inr value => inr value
               end
          else inr value
      end
    end.

(** [serialize_value] *)
Definition serialize_value (value : PyVal) : Result PyVal :=
  if is_none value then inl (ValueError value)
  else if issubclass (type_of value) TTuple then
    (* return literal for tuples *)
    inr (VStr (py_str value))
  else
    (* coerce type to text which will use json for mapping and sequences *)
    match py_type_to_sc_type (HType (type_of value)) with
    | inl exc => inl exc
    | inr value_dt => coerce_type dt_text value_dt value
    end.

(** ** The lookup engine: [_resolve_single_value] and its closure
       [look_namespaces] *)

(** The variables the closure [look_namespaces] updates: the list [traces]
    of [_resolve_single_value], and the log of provider calls. *)
Record LState := mkLState {
  ls_traces : list LookupTrace;
  ls_calls : list Call;
}.

(** How one run of the [while True] loop ends: [return value], an exception,
    or [break]. *)
Inductive WhileExit :=
| WReturn (value : PyVal)
| WRaise (exc : Exc)
| WBreak.

Section LookNamespaces.

(** The variables of [_resolve_single_value] that the closure captures. *)
Context (key : string) (hint : Hint).
Context (config_namespace : option string).
Context (explicit_namespaces embedded_namespaces : list string).

(** [cant_hold_it] *)
Definition cant_hold_it (provider : ConfigProvider) : bool :=
  negb (supports_secrets provider) && _is_secret_hint hint.

(** Whether the loop builds [full_ns] as a copy of [ns]
    ([(pipeline_name or config_namespace) and provider.supports_namespaces]);
    otherwise [full_ns] is the list [ns] itself. *)
Definition copies_ns (provider : ConfigProvider) (pipeline_name : option string)
    : bool :=
  (truthy_str pipeline_name || truthy_str config_namespace)
  && supports_namespaces provider.

(** [full_ns] *)
Definition full_namespaces (provider : ConfigProvider)
    (pipeline_name : option string) (ns : list string) : list string :=
  if copies_ns provider pipeline_name then
    (* pipeline, when provided, is the most outer and always present *)
    (if truthy_str pipeline_name then option_list pipeline_name else [])
    (* config namespace, is always present and innermost *)
    ++ ns ++ (if truthy_str config_namespace then option_list config_namespace else [])
  else ns.

(** The traces this run of the loop appended, as they read once the loop is
    left with the list [ns] in its final state: where [full_ns] is [ns]
    itself, every trace of the run holds that one list object, which the
    later [ns.pop()] calls have shortened. *)
Definition seal_traces (provider : ConfigProvider) (pipeline_name : option string)
    (ns : list string) (appended : list LookupTrace) : list LookupTrace :=
  if copies_ns provider pipeline_name then appended
  else map (λ t, mkLookupTrace (trace_provider t) ns (trace_key t) (trace_value t))
           appended.

(** The [while True] loop for one provider.  [len_ns] is [len(ns)], so the
    test [len(ns) == 0] is the match on it and [ns.pop()] removes the last
    element.  [appended] are the traces appended since the loop began. *)
Fixpoint look_namespaces_while (provider : ConfigProvider)
    (pipeline_name : option string) (len_ns : nat) (ns : list string)
    (appended : list LookupTrace) (ls : LState) : WhileExit * LState :=
  let full_ns := full_namespaces provider pipeline_name ns in
  let '(value, ns_key) := get_value provider key hint full_ns in
  let calls := ls_calls ls ++ [mkCall provider key hint full_ns value ns_key] in
  let leave appended :=
    mkLState (ls_traces ls ++ seal_traces provider pipeline_name ns appended) calls in
  (* if secret is obtained from non secret provider, we must fail *)
  if negb (is_none value) && cant_hold_it provider then
    (WRaise (ValueNotSecretException (name provider) ns_key), leave appended)
  else
    (* create trace, ignore providers that cant_hold_it *)
    let appended :=
      if negb (cant_hold_it provider)
      then appended ++ [mkLookupTrace (name provider) full_ns ns_key value]
      else appended in
    if negb (is_none value) then
      (* value found, ignore other providers *)
      (WReturn value, leave appended)
    else
      match len_ns with
      | O => (* check next provider *) (WBreak, leave appended)
      | S len_ns' =>
          (* pop optional namespaces for less precise lookup *)
          look_namespaces_while provider pipeline_name len_ns' (removelast ns)
            appended (mkLState (ls_traces ls) calls)
      end.

(** The [for provider in providers] loop of [look_namespaces]; the function
    returns [None] when the loop ends. *)
Fixpoint look_namespaces_for (pipeline_name : option string)
    (ps : list ConfigProvider) (ls : LState) : Result PyVal * LState :=
  match ps with
  | [] => (inr VNone, ls)
  | provider :: ps' =>
      let search ns :=
        match look_namespaces_while provider pipeline_name (length ns) ns [] ls with
        | (WReturn value, ls') => (inr value, ls')
        | (WRaise exc, ls') => (inl exc, ls')
        | (WBreak, ls') => look_namespaces_for pipeline_name ps' ls'
        end in
      if supports_namespaces provider then
        (* if explicit namespaces are provided, ignore the injected context *)
        let ns := match explicit_namespaces with
                  | _ :: _ => explicit_namespaces
                  | [] => ctx_namespaces C
                  end in
        (* always extend with embedded namespaces *)
        search (ns ++ embedded_namespaces)
      else if truthy_str pipeline_name then
        (* provider does not support namespaces and pipeline name is set *)
        look_namespaces_for pipeline_name ps' ls
      else
        (* pass empty namespaces *)
        search []
  end.

(** What the [for] loop does with one provider once [ns] is set. *)
Definition search_provider (pipeline_name : option string)
    (provider : ConfigProvider) (ps : list ConfigProvider) (ns : list string)
    (ls : LState) : Result PyVal * LState :=
  match look_namespaces_while provider pipeline_name (length ns) ns [] ls with
  | (WReturn value, ls') => (inr value, ls')
  | (WRaise exc, ls') => (inl exc, ls')
  | (WBreak, ls') => look_namespaces_for pipeline_name ps ls'
  end.

(** The list [ns] the loop starts from at a provider that supports
    namespaces. *)
Definition initial_ns : list string :=
  match explicit_namespaces with
  | _ :: _ => explicit_namespaces
  | [] => ctx_namespaces C
  end ++ embedded_namespaces.

(** [look_namespaces(pipeline_name)] *)
Definition look_namespaces (pipeline_name : option string) (ls : LState)
    : Result PyVal * LState :=
  look_namespaces_for pipeline_name (providers C) ls.

End LookNamespaces.

(** [_resolve_single_value].  The value and the traces are returned, the
    calls made are added to the log of the state. *)
Definition _resolve_single_value (key : string) (hint inner_hint : Hint)
    (config_namespace : option string)
    (explicit_namespaces embedded_namespaces : list string)
    : M (PyVal * list LookupTrace) :=
  λ st,
  (* we may be resolving context *)
  if is_context_hint inner_hint then
    (* resolve context with context provider and do not look further *)
    let '(value, ns_key) := get_value (context_provider C) key inner_hint [] in
    (Ret (value, []),
     mkState (st_heap st)
       (st_calls st ++ [mkCall (context_provider C) key inner_hint [] value ns_key]))
  else if is_config_hint inner_hint then
    (* cannot resolve configurations directly *)
    (Ret (VNone, []), st)
  else
    (* resolve a field of the config *)
    let '(config_namespace, embedded_namespaces) :=
      _apply_embedded_namespaces_to_config_namespace config_namespace
        embedded_namespaces in
    let look := look_namespaces key hint config_namespace explicit_namespaces
                  embedded_namespaces in
    let ls := mkLState [] (st_calls st) in
    (* first try with pipeline name as namespace, if present *)
    let '(value, ls) :=
      if truthy_str (ctx_pipeline_name C)
      then look (ctx_pipeline_name C) ls else (inr VNone, ls) in
    match value with
    | inl exc => (Raise exc, mkState (st_heap st) (ls_calls ls))
    | inr value =>
        (* then without it *)
        let '(value, ls) :=
          if is_none value then look None ls else (inr value, ls) in
        match value with
        | inl exc => (Raise exc, mkState (st_heap st) (ls_calls ls))
        | inr value =>
            (Ret (value, ls_traces ls), mkState (st_heap st) (ls_calls ls))
        end
    end.

(** ** Configuration instances in the heap *)

Definition blank_obj : ConfigObj := mkObj ∅ None false None.

(** The instance at a location. *)
Definition heap_obj (h : gmap loc ConfigObj) (r : loc) : ConfigObj :=
  default blank_obj (h !! r).

Definition get_obj (r : loc) : M ConfigObj :=
  λ st, (Ret (heap_obj (st_heap st) r), st).

Definition update_obj (r : loc) (f : ConfigObj → ConfigObj) : M unit :=
  λ st, (Ret (), mkState (<[r := f (heap_obj (st_heap st) r)]> (st_heap st))
                   (st_calls st)).

(** [getattr(config, key, None)] *)
Definition getattr (o : ConfigObj) (key : string) : PyVal :=
  default VNone (obj_attrs o !! key).

(** [setattr(config, key, value)] *)
Definition setattr (r : loc) (key : string) (value : PyVal) : M unit :=
  update_obj r (λ o, mkObj (<[key := value]> (obj_attrs o)) (obj_namespace o)
                       (obj_is_resolved o) (obj_exception o)).

(** [config.__exception__ = exc] *)
Definition set_exception (r : loc) (exc : option Exc) : M unit :=
  update_obj r (λ o, mkObj (obj_attrs o) (obj_namespace o) (obj_is_resolved o) exc).

(** [config.__is_resolved__ = True] *)
Definition set_is_resolved (r : loc) : M unit :=
  update_obj r (λ o, mkObj (obj_attrs o) (obj_namespace o) true (obj_exception o)).

(** Modelled from the spec: [config.is_resolved()] reads the [isResolved]
    attribute of the instance. *)
Definition is_resolved (r : loc) : M bool :=
  λ st, (Ret (obj_is_resolved (heap_obj (st_heap st) r)), st).

(** [cls()]: a fresh instance of class [c]. *)
Definition new_instance (c : ClassId) : M loc :=
  λ st, let r := fresh (dom (st_heap st)) in
        (Ret r, mkState (<[r := cls_new (classes c)]> (st_heap st)) (st_calls st)).

(** A method called on the instance at [r]. *)
Definition call_method (f : Method) (r : loc) : M unit :=
  λ st, let '(o, exc) := f (heap_obj (st_heap st) r) in
        let st' := mkState (<[r := o]> (st_heap st)) (st_calls st) in
        match exc with
        | Some e => (Raise e, st')
        | None => (Ret (), st')
        end.

Inductive MethodName := on_resolved | on_partial.

(** [c.__dict__[method_name]], when the class defines the method itself. *)
Definition class_dict (c : ClassId) (method_name : MethodName) : option Method :=
  match method_name with
  | on_resolved => cls_on_resolved (classes c)
  | on_partial => cls_on_partial (classes c)
  end.

(** The loop of [_call_method_in_mro] over the base classes in order of
    derivation. *)
Fixpoint call_method_in (mro : list ClassId) (method_name : MethodName) (r : loc)
    : M unit :=
  match mro with
  | [] => ret ()
  | c :: mro' =>
      match class_dict c method_name with
      | Some f => run call_method f r ;; call_method_in mro' method_name r
      | None => call_method_in mro' method_name r
      end
  end.

(** [_call_method_in_mro] *)
Definition _call_method_in_mro (config : ClassId * loc) (method_name : MethodName)
    : M unit :=
  call_method_in (cls_mro (classes (fst config))) method_name (snd config).

(** ** The orchestrator *)

(** The type of [_resolve_configuration], for the recursive call. *)
Definition Resolve :=
  ClassId * loc → list string → list string → PyVal → bool → M PyVal.

(** [_resolve_config_field].  [rec] is [_resolve_configuration].
    [_log_traces] only writes to the logger and is left out. *)
Definition _resolve_config_field (rec : Resolve) (key : string) (hint : Hint)
    (default_value explicit_value : PyVal) (config : ClassId * loc)
    (config_namespace : option string)
    (explicit_namespaces embedded_namespaces : list string)
    (accept_partial : bool) : M (PyVal * list LookupTrace) :=
  (* extract hint from Optional / Literal / NewType hints *)
  let inner_hint := extract_inner_type hint in
  (* get base configuration from union type *)
  let inner_hint := default inner_hint (get_config_if_union inner_hint) in
  (* extract origin from generic types (ie List[str] -> List) *)
  let inner_hint := default inner_hint (get_origin inner_hint) in
  '(value, traces) <-
    (if truthy classes explicit_value then ret (explicit_value, [])
     else
       (* resolve key value via active providers passing the original hint *)
       _resolve_single_value key hint inner_hint config_namespace
         explicit_namespaces embedded_namespaces) ;;
  (* contexts must be resolved as a whole *)
  if is_context_hint inner_hint then ret (py_or classes value default_value, traces)
  else
    match inner_hint with
    | HType (TClass c) =>
        (* if inner_hint is BaseConfiguration then resolve it recursively *)
        '(embedded_config, value, default_value) <-
          match value, default_value with
          | VConfig c' r', _ =>
              (* resolved value is instance of configuration *)
              ret ((c', r'), VNone, default_value)
          | _, VConfig c' r' =>
              (* default value was instance of configuration, use it *)
              ret ((c', r'), value, VNone)
          | _, _ => r <- new_instance c ;; ret ((c, r), value, default_value)
          end ;;
        resolved <- is_resolved (snd embedded_config) ;;
        '(value, traces) <-
          (if resolved then
             (* injected context will be resolved *)
             ret (VConfig (fst embedded_config) (snd embedded_config), traces)
           else
             embedded <- get_obj (snd embedded_config) ;;
             '(value, traces) <-
               (* only config with namespaces may look for initial values *)
               (if truthy_str (obj_namespace embedded) && is_none value then
                  let '(initial_key, initial_embedded) :=
                    _apply_embedded_namespaces_to_config_namespace
                      (obj_namespace embedded) (embedded_namespaces ++ [key]) in
                  (* it must be a secret value is config is credentials *)
                  let initial_hint :=
                    if cls_is_credentials (classes (fst embedded_config))
                    then HSecret else HAny in
                  '(value, initial_traces) <-
                    _resolve_single_value (default "" initial_key) initial_hint
                      HAny None explicit_namespaces initial_embedded ;;
                  ret (value, traces ++ initial_traces)
                else ret (value, traces)) ;;
             (* accept partial becomes True if type if optional *)
             let is_optional := is_optional_type hint in
             let accept_partial := accept_partial || is_optional in
             value <- rec embedded_config explicit_namespaces
                        (embedded_namespaces ++ [key])
                        (py_or classes value default_value) accept_partial ;;
             ret (value, traces)) ;;
        ret (py_or classes value default_value, traces)
    | _ =>
        (* if value is resolved, then deserialize and coerce it *)
        value <-
          (if negb (is_none value) then
             (* do not deserialize explicit values: [value is explicit_value]
                holds when [value] was bound to [explicit_value] above *)
             if truthy classes explicit_value || py_is value explicit_value
             then ret value
             else lift_result (deserialize_value key value inner_hint)
           else ret value) ;;
        ret (py_or classes value default_value, traces)
    end.

(** [d[key] = value] on a dictionary kept in insertion order. *)
Fixpoint dict_set {A} (key : string) (value : A) (d : list (string * A))
    : list (string * A) :=
  match d with
  | [] => [(key, value)]
  | (k, v) :: d' =>
      if String.eqb k key then (k, value) :: d' else (k, v) :: dict_set key value d'
  end.

(** [d.get(key)] on a dictionary. *)
Fixpoint dict_get (d : list (string * PyVal)) (key : string) : PyVal :=
  match d with
  | [] => VNone
  | (k, v) :: d' => if String.eqb k key then v else dict_get d' key
  end.

(** [explicit_values.get(key)] in the heap [h]; only a mapping has the
    method.  For a configuration instance it is the attribute of the
    instance when [key] is one of its fields, and [None] otherwise. *)
Definition py_get (h : gmap loc ConfigObj) (explicit_values : PyVal)
    (key : string) : Result PyVal :=
  match explicit_values with
  | VDict d => inr (dict_get d key)
  | VConfig c r =>
      inr (if bool_decide (key ∈ (cls_fields (classes c)).*1)
           then getattr (heap_obj h r) key else VNone)
  | _ => inl (OtherError "AttributeError")
  end.

(** The loop [for key, hint in fields.items()] of [_resolve_config_fields],
    returning [unresolved_fields]. *)
Fixpoint resolve_fields_loop (rec : Resolve) (config : ClassId * loc)
    (explicit_values : PyVal) (explicit_namespaces embedded_namespaces : list string)
    (accept_partial : bool) (fields : list (string * Hint))
    (unresolved_fields : list (string * list LookupTrace))
    : M (list (string * list LookupTrace)) :=
  match fields with
  | [] => ret unresolved_fields
  | (key, hint) :: fields' =>
      (* get default and explicit values *)
      explicit_value <-
        (if truthy classes explicit_values
         then λ st, lift_result (py_get (st_heap st) explicit_values key) st
         else ret VNone) ;;
      o <- get_obj (snd config) ;;
      let default_value := getattr o key in
      '(current_value, traces) <-
        _resolve_config_field rec key hint default_value explicit_value config
          (obj_namespace o) explicit_namespaces embedded_namespaces accept_partial ;;
      (* check if hint optional *)
      let is_optional := is_optional_type hint in
      (* collect unresolved fields *)
      let unresolved_fields :=
        if negb is_optional && is_none current_value
        then dict_set key traces unresolved_fields else unresolved_fields in
      (* set resolved value in config *)
      run setattr (snd config) key current_value ;;
      resolve_fields_loop rec config explicit_values explicit_namespaces
        embedded_namespaces accept_partial fields' unresolved_fields
  end.

(** [_resolve_config_fields] *)
Definition _resolve_config_fields (rec : Resolve) (config : ClassId * loc)
    (explicit_values : PyVal) (explicit_namespaces embedded_namespaces : list string)
    (accept_partial : bool) : M unit :=
  let fields := cls_fields (classes (fst config)) in
  unresolved_fields <-
    resolve_fields_loop rec config explicit_values explicit_namespaces
      embedded_namespaces accept_partial fields [] ;;
  match unresolved_fields with
  | _ :: _ =>
      raise (ConfigFieldMissingException (cls_name (classes (fst config)))
               unresolved_fields)
  | [] => ret ()
  end.

(** [isinstance(value, collections.abc.Mapping)]: a dictionary or a
    configuration instance. *)
Definition is_mapping (value : PyVal) : bool :=
  match value with VDict _ | VConfig _ _ => true | _ => false end.

(** The call [config.parse_native_representation(explicit_value)] with its
    two handlers: a [ValueError] becomes [InvalidNativeValue], a
    [NotImplementedError] is passed over. *)
Definition parse_native_representation (config : ClassId * loc)
    (explicit_value : PyVal) (embedded_namespaces : list string) : M unit :=
  try_except
    (call_method (cls_parse_native (classes (fst config)) explicit_value)
       (snd config))
    (λ exc, match exc with
            | ValueError _ =>
                (* provide generic exception *)
                raise (InvalidNativeValue (fst config) (type_of explicit_value)
                         embedded_namespaces exc)
            | NotImplementedError => ret ()
            | _ => raise exc
            end).

(** The body of [_resolve_configuration]; [rec] is the function itself, for
    the embedded configurations. *)
Definition _resolve_configuration_body (rec : Resolve) (config : ClassId * loc)
    (explicit_namespaces embedded_namespaces : list string)
    (explicit_value : PyVal) (accept_partial : bool) : M PyVal :=
  (* do not resolve twice *)
  resolved <- is_resolved (snd config) ;;
  if resolved then ret (VConfig (fst config) (snd config))
  else
    run set_exception (snd config) None ;;
    run try_except
      (try_except
         ((* use initial value to resolve the whole configuration. if explicit
             value is a mapping it will be applied field by field later *)
          explicit_value <-
            (if truthy classes explicit_value && negb (is_mapping explicit_value) then
               run parse_native_representation config explicit_value
                     embedded_namespaces ;;
               (* explicit value was consumed *)
               ret VNone
             else ret explicit_value) ;;
          (* if native representation didn't fully resolve the config, we try
             to resolve field by field *)
          resolved <- is_resolved (snd config) ;;
          run (if negb resolved then
                 _resolve_config_fields rec config explicit_value
                   explicit_namespaces embedded_namespaces accept_partial
               else ret ()) ;;
          run _call_method_in_mro config on_resolved ;;
          (* full configuration was resolved *)
          set_is_resolved (snd config))
         (λ cm_ex,
            match cm_ex with
            | ConfigFieldMissingException _ _ =>
                (* store the exception to have full info on traces of missing
                   fields *)
                run set_exception (snd config) (Some cm_ex) ;;
                run _call_method_in_mro config on_partial ;;
                (* if resolved then do not raise *)
                resolved <- is_resolved (snd config) ;;
                if resolved then _call_method_in_mro config on_resolved
                else if negb accept_partial then raise cm_ex else ret ()
            | _ => raise cm_ex
            end))
      (λ ex,
         (* store the exception that happened in the resolution process *)
         run set_exception (snd config) (Some ex) ;;
         raise ex) ;;
    ret (VConfig (fst config) (snd config)).

(** [_resolve_configuration].  [depth] bounds the nesting of embedded
    configurations the model follows: the call itself needs none, each
    embedded configuration one more. *)
Fixpoint _resolve_configuration (depth : nat) : Resolve :=
  _resolve_configuration_body
    (match depth with
     | O => λ _ _ _ _ _ st, (OutOfFuel, st)
     | S depth' => _resolve_configuration depth'
     end).

(** [resolve_configuration] *)
Definition resolve_configuration (depth : nat) (config : PyVal)
    (namespaces : list string) (explicit_value : PyVal) (accept_partial : bool)
    : M PyVal :=
  match config with
  | VConfig c r =>
      o <- get_obj r ;;
      (* try to get the native representation of the top level configuration
         using the config namespace as a key *)
      explicit_value <-
        (if truthy_str (obj_namespace o) && is_none explicit_value then
           '(explicit_value, _) <-
             _resolve_config_field (_resolve_configuration depth)
               (default "" (obj_namespace o)) HAny VNone explicit_value (c, r)
               None namespaces [] accept_partial ;;
           ret explicit_value
         else ret explicit_value) ;;
      _resolve_configuration depth (c, r) namespaces [] explicit_value
        accept_partial
  | _ => raise (ConfigurationWrongTypeException (type_of config))
  end.

End Resolver.

(** ** The serialization round trip *)

Section RoundTrip.

Context {rt : Runtime} (classes : ClassTable).

(** [deserialize_value(key, serialize_value(v), type(v))] *)
Definition round_trip (key : string) (v : PyVal) : Result PyVal :=
  match serialize_value classes v with
  | inl exc => inl exc
  | inr text => deserialize_value classes key text (HType (type_of v))
  end.

End RoundTrip.

(** ** A reference runtime

    Modelled from the spec: the schema subsystem ([py_type_to_sc_type],
    [coerce_type] and the [str2bool] it calls) is not among the sources, and
    [str], [ast.literal_eval] and [json.loads] belong to the interpreter.  The
    instance follows section 4.3: the classes of the runtime types; the
    scalars in their natural textual form (the decimal numerals with an
    optional minus sign, [True] and [False], the canonical tokens read as a
    boolean); a tuple in its literal form; the other structured values in
    their structured-text form.  The two structured forms are given by a
    printer and by a recursive-descent reader of the same syntax.  Outside
    the model: floating-point numbers, timestamps, the textual form of
    binary data, and escape sequences, so that the texts inside a structured
    value are read back only when they are made of plain characters. *)
Module Ref.

(** *** Characters and texts *)

Definition double_quote : ascii := ascii_of_nat 34.
Definition single_quote : ascii := ascii_of_nat 39.
Definition backslash : ascii := ascii_of_nat 92.

Definition is_digit (a : ascii) : bool :=
  (48 <=? nat_of_ascii a)%nat && (nat_of_ascii a <=? 57)%nat.

(** A character of a number: a digit or the sign. *)
Definition is_numeric (a : ascii) : bool := is_digit a || Ascii.eqb a "-".

(** A printable character that is written as itself between quotes of
    either kind. *)
Definition plain_char (a : ascii) : bool :=
  (32 <=? nat_of_ascii a)%nat && (nat_of_ascii a <=? 126)%nat
  && negb (Ascii.eqb a double_quote) && negb (Ascii.eqb a single_quote)
  && negb (Ascii.eqb a backslash).

Fixpoint plain (s : string) : bool :=
  match s with
  | EmptyString => true
  | String a s' => plain_char a && plain s'
  end.

Definition str_of_int (z : Z) : string :=
  DecimalString.NilZero.string_of_int (Z.to_int z).

Definition int_of_str (s : string) : option Z :=
  Z.of_int <$> DecimalString.NilZero.int_of_string s.

(** *** The two textual forms of a value

    The literal form of Python ([repr]) and the structured-text form
    (JSON) differ in the quotes, in the three constants and in the
    tuples. *)
Inductive Syntax := Literal | Json.

Definition quote (syn : Syntax) : ascii :=
  match syn with Literal => single_quote | Json => double_quote end.
Definition kw_none (syn : Syntax) : string :=
  match syn with Literal => "None" | Json => "null" end.
Definition kw_true (syn : Syntax) : string :=
  match syn with Literal => "True" | Json => "true" end.
Definition kw_false (syn : Syntax) : string :=
  match syn with Literal => "False" | Json => "false" end.
Definition has_tuples (syn : Syntax) : bool :=
  match syn with Literal => true | Json => false end.

Definition quoted (syn : Syntax) (s : string) : string :=
  String (quote syn) (s +:+ String (quote syn) "").

(** The text of a value.  JSON has no tuples: a tuple is written as a
    list. *)
Fixpoint print (syn : Syntax) (v : PyVal) : string :=
  match v with
  | VNone => kw_none syn
  | VBool b => if b then kw_true syn else kw_false syn
  | VInt z => str_of_int z
  | VStr s => quoted syn s
  | VBytes s => "b" +:+ quoted syn s
  | VTuple items =>
      if has_tuples syn then
        match items with
        | [_] => "(" +:+ String.concat ", " (map (print syn) items) +:+ ",)"
        | _ => "(" +:+ String.concat ", " (map (print syn) items) +:+ ")"
        end
      else "[" +:+ String.concat ", " (map (print syn) items) +:+ "]"
  | VList items => "[" +:+ String.concat ", " (map (print syn) items) +:+ "]"
  | VDict items =>
      "{" +:+ String.concat ", "
                (map (λ kv, let '(k, x) := kv in
                            quoted syn k +:+ ": " +:+ print syn x) items)
          +:+ "}"
  | VConfig c _ => "<" +:+ c +:+ ">"
  end.


(** *** Reading a text *)

(** A blank: a space, a tabulation or an end of line. *)
Definition is_blank (a : ascii) : bool :=
  Ascii.eqb a " " || Ascii.eqb a (ascii_of_nat 9)
  || Ascii.eqb a (ascii_of_nat 10) || Ascii.eqb a (ascii_of_nat 13).

Fixpoint skip_ws (s : string) : string :=
  match s with
  | String a s' => if is_blank a then skip_ws s' else s
  | EmptyString => EmptyString
  end.

(** A quote that opens a text: the double quote in both syntaxes, the
    single quote in the literal syntax. *)
Definition opens (syn : Syntax) (a : ascii) : bool :=
  match syn with
  | Literal => Ascii.eqb a single_quote || Ascii.eqb a double_quote
  | Json => Ascii.eqb a double_quote
  end.

(** The text up to the closing quote [q], which is the quote that opened
    it.  Escape sequences are not modelled: a backslash is refused. *)
Fixpoint read_quoted (q : ascii) (s : string) : option (string * string) :=
  match s with
  | EmptyString => None
  | String a s' =>
      if Ascii.eqb a q then Some (EmptyString, s')
      else if Ascii.eqb a backslash then None
      else match read_quoted q s' with
           | Some (body, rest) => Some (String a body, rest)
           | None => None
           end
  end.

(** The longest prefix made of digits and signs. *)
Fixpoint read_number (s : string) : string * string :=
  match s with
  | String a s' =>
      if is_numeric a
      then let '(number, rest) := read_number s' in (String a number, rest)
      else (EmptyString, s)
  | EmptyString => (EmptyString, EmptyString)
  end.

Fixpoint strip_prefix (p s : string) : option string :=
  match p, s with
  | EmptyString, _ => Some s
  | String a p', String b s' =>
      if Ascii.eqb a b then strip_prefix p' s' else None
  | String _ _, EmptyString => None
  end.

(** The items of a bracketed sequence up to the closing bracket, read with
    [item]; the boolean tells whether a comma was seen.  A comma before the
    closing bracket is accepted where [trailing] holds. *)
Fixpoint read_items {A} (item : string → option (A * string)) (close : ascii)
    (trailing : bool) (fuel : nat) (s : string)
    : option (list A * bool * string) :=
  match fuel with
  | O => None
  | S fuel' =>
      match item s with
      | None => None
      | Some (x, rest) =>
          match skip_ws rest with
          | EmptyString => None
          | String a rest' =>
              if Ascii.eqb a close then Some ([x], false, rest')
              else if Ascii.eqb a "," then
                match skip_ws rest' with
                | EmptyString => None
                | String b rest'' =>
                    if trailing && Ascii.eqb b close
                    then Some ([x], true, rest'')
                    else
                      match read_items item close trailing fuel' rest' with
                      | Some (xs, _, rest3) => Some (x :: xs, true, rest3)
                      | None => None
                      end
                end
              else None
          end
      end
  end.

(** A bracketed sequence after its opening bracket. *)
Definition read_sequence {A} (item : string → option (A * string))
    (close : ascii) (trailing : bool) (fuel : nat) (s : string)
    : option (list A * bool * string) :=
  match skip_ws s with
  | EmptyString => None
  | String a rest =>
      if Ascii.eqb a close then Some ([], false, rest)
      else read_items item close trailing fuel s
  end.

(** A key, a colon and a value. *)
Definition read_pair (syn : Syntax) (value : string → option (PyVal * string))
    (s : string) : option ((string * PyVal) * string) :=
  match skip_ws s with
  | EmptyString => None
  | String a rest =>
      if opens syn a then
        match read_quoted a rest with
        | None => None
        | Some (k, rest1) =>
            match skip_ws rest1 with
            | EmptyString => None
            | String b rest2 =>
                if Ascii.eqb b ":" then
                  match value rest2 with
                  | Some (x, rest3) => Some ((k, x), rest3)
                  | None => None
                  end
                else None
            end
        end
      else None
  end.

(** One of the three constants. *)
Definition read_constant (syn : Syntax) (s : string) : option (PyVal * string) :=
  match strip_prefix (kw_none syn) s with
  | Some rest => Some (VNone, rest)
  | None =>
      match strip_prefix (kw_true syn) s with
      | Some rest => Some (VBool true, rest)
      | None =>
          match strip_prefix (kw_false syn) s with
          | Some rest => Some (VBool false, rest)
          | None => None
          end
      end
  end.

(** A value at the beginning of a text, and the rest of the text.  [fuel]
    bounds the nesting and the number of items of a sequence.  In the literal
    syntax a parenthesised value without a comma is the value itself. *)
Fixpoint read_value (syn : Syntax) (fuel : nat) (s : string)
    : option (PyVal * string) :=
  match fuel with
  | O => None
  | S fuel' =>
      match skip_ws s with
      | EmptyString => None
      | String a rest =>
          if opens syn a then
            match read_quoted a rest with
            | Some (body, rest') => Some (VStr body, rest')
            | None => None
            end
          else if Ascii.eqb a "[" then
            match read_sequence (read_value syn fuel') "]" (has_tuples syn)
                    fuel' rest with
            | Some (items, _, rest') => Some (VList items, rest')
            | None => None
            end
          else if Ascii.eqb a "(" && has_tuples syn then
            match read_sequence (read_value syn fuel') ")" true fuel' rest with
            | Some ([x], false, rest') => Some (x, rest')
            | Some (items, _, rest') => Some (VTuple items, rest')
            | None => None
            end
          else if Ascii.eqb a "{" then
            match read_sequence (read_pair syn (read_value syn fuel')) "}"
                    (has_tuples syn) fuel' rest with
            | Some (items, _, rest') => Some (VDict items, rest')
            | None => None
            end
          else if is_numeric a then
            let '(number, rest') := read_number (String a rest) in
            match int_of_str number with
            | Some z => Some (VInt z, rest')
            | None => None
            end
          else read_constant syn (String a rest)
      end
  end.

(** The value a whole text stands for. *)
Definition parse (syn : Syntax) (s : string) : option PyVal :=
  match read_value syn (S (String.length s)) s with
  | Some (v, rest) =>
      match skip_ws rest with
      | EmptyString => Some v
      | String _ _ => None
      end
  | None => None
  end.


(** The values that have a text in a syntax from which they are read
    back: the constants, the integers, the texts of plain characters, and the
    sequences and mappings of such values with plain keys; tuples only in the
    literal syntax. *)
Fixpoint writable (syn : Syntax) (v : PyVal) : bool :=
  match v with
  | VNone | VBool _ | VInt _ => true
  | VStr s => plain s
  | VTuple items => has_tuples syn && forallb (writable syn) items
  | VList items => forallb (writable syn) items
  | VDict items =>
      forallb (λ kv, let '(k, x) := kv in plain k && writable syn x) items
  | VBytes _ | VConfig _ _ => false
  end.

(** A text after which a number ends. *)
Definition delimited (rest : string) : bool :=
  match rest with
  | EmptyString => true
  | String a _ => negb (is_numeric a)
  end.

(** A character with which the text of a value begins. *)
Definition starter (a : ascii) : bool :=
  negb (is_blank a) && negb (Ascii.eqb a ",") && negb (Ascii.eqb a "]")
  && negb (Ascii.eqb a ")") && negb (Ascii.eqb a "}").

Definition starts (s : string) : bool :=
  match s with
  | EmptyString => false
  | String a _ => starter a
  end.

(** A text made of the characters of a number. *)
Fixpoint numeric (s : string) : bool :=
  match s with
  | EmptyString => true
  | String a s' => is_numeric a && numeric s'
  end.

(** The text of a pair of a mapping. *)
Definition print_pair (syn : Syntax) (kv : string * PyVal) : string :=
  let '(k, x) := kv in quoted syn k +:+ ": " +:+ print syn x.

(** An item that the reader [item] reads back from its text [pr x],
    whatever delimited text follows. *)
Definition reads {A} (item : string → option (A * string)) (pr : A → string)
    (x : A) : Prop :=
  starts (pr x) = true
  ∧ ∀ rest, delimited rest = true → item (pr x +:+ rest) = Some (x, rest).

(** *** The schema subsystem and the interpreter *)

Definition type_to_sc_type (h : Hint) : Result TDataType :=
  match h with
  | HType TStr => inr dt_text
  | HType TInt => inr dt_bigint
  | HType TBool => inr dt_bool
  | HType TBytes => inr dt_binary
  | HType TTuple | HType TList | HType TDict => inr dt_complex
  | _ => inl TypeError
  end.

(** [str.lower] on the letters of ASCII. *)
Definition lower_char (a : ascii) : ascii :=
  if (65 <=? nat_of_ascii a)%nat && (nat_of_ascii a <=? 90)%nat
  then ascii_of_nat (nat_of_ascii a + 32) else a.

Fixpoint lower (s : string) : string :=
  match s with
  | EmptyString => EmptyString
  | String a s' => String (lower_char a) (lower s')
  end.

(** [str2bool]: the canonical tokens, in any case. *)
Definition str2bool (s : string) : option bool :=
  if bool_decide (lower s ∈ ["yes"; "true"; "t"; "y"; "1"]) then Some true
  else if bool_decide (lower s ∈ ["no"; "false"; "f"; "n"; "0"]) then Some false
  else None.

(** [coerce_type]: a value of the target class is returned as it is; a
    structured value becomes its structured text, an integer its numeral, a
    boolean [True] or [False]; a text is read as a numeral or as a boolean
    token; an integer is true unless it is zero. *)
Definition coerce (to_type from_type : TDataType) (value : PyVal) : Result PyVal :=
  if bool_decide (to_type = from_type) then inr value
  else
    match to_type, from_type, value with
    | dt_text, dt_complex, (VTuple _ | VList _ | VDict _) =>
        inr (VStr (print Json value))
    | dt_text, dt_bigint, VInt z => inr (VStr (str_of_int z))
    | dt_text, dt_bool, VBool b => inr (VStr (if b then "True" else "False"))
    | dt_bigint, dt_text, VStr s =>
        match int_of_str s with
        | Some z => inr (VInt z)
        | None => inl (ValueError value)
        end
    | dt_bigint, dt_bool, VBool b => inr (VInt (if b then 1 else 0))
    | dt_bool, dt_text, VStr s =>
        match str2bool s with
        | Some b => inr (VBool b)
        | None => inl (ValueError value)
        end
    | dt_bool, dt_bigint, VInt z => inr (VBool (negb (z =? 0)))
    | _, _, _ => inl (ValueError value)
    end.

(** [ast.literal_eval] *)
Definition literal_eval (value : PyVal) : Result PyVal :=
  match value with
  | VStr s =>
      match parse Literal s with
      | Some v => inr v
      | None => inl (ValueError value)
      end
  | _ => inl (ValueError value)
  end.

(** [json.loads] *)
Definition loads (value : PyVal) : Result PyVal :=
  match value with
  | VStr s =>
      match parse Json s with
      | Some v => inr v
      | None => inl (ValueError value)
      end
  | _ => inl TypeError
  end.

(** [str]: a text is itself, any other value is written in its literal
    form. *)
Definition str (value : PyVal) : string :=
  match value with
  | VStr s => s
  | _ => print Literal value
  end.

(** Identity of independently obtained objects: the singletons and the
    small integers the interpreter shares. *)
Definition is_ (a b : PyVal) : bool :=
  match a, b with
  | VNone, VNone => true
  | VBool x, VBool y => bool_decide (x = y)
  | VInt x, VInt y => bool_decide (x = y ∧ -5 ≤ x ≤ 256)
  | _, _ => false
  end.

Definition runtime : Runtime :=
  {| py_type_to_sc_type := type_to_sc_type;
     coerce_type := coerce;
     ast_literal_eval := literal_eval;
     json_loads := loads;
     py_str := str;
     py_is := is_ |}.

End Ref.

(** The representable values: the booleans, the integers and the texts; the
    tuples that have a literal form which is read back; the sequences and
    the mappings that have a structured-text form which is read back.
    [None] has no textual form, and a tuple inside a sequence or a mapping
    comes back as a sequence. *)
Definition representable (v : PyVal) : bool :=
  match v with
  | VBool _ | VInt _ | VStr _ => true
  | VTuple _ => Ref.writable Ref.Literal v
  | VList _ | VDict _ => Ref.writable Ref.Json v
  | VNone | VBytes _ | VConfig _ _ => false
  end.

(** ** Notions for the properties of the lookup engine *)

Section LookupNotions.

Context (classes : ClassTable).
Context (key : string) (hint : Hint) (config_namespace : option string).

(** The call the [while] loop makes when the list [ns] is as given. *)
Definition attempt (provider : ConfigProvider) (pipeline_name : option string)
    (ns : list string) : Call :=
  let full_ns := full_namespaces config_namespace provider pipeline_name ns in
  mkCall provider key hint full_ns
    (get_value provider key hint full_ns).1 (get_value provider key hint full_ns).2.

(** A call that returned a value from a provider that cannot hold it. *)
Definition violation (c : Call) : bool :=
  negb (is_none (call_value c)) && cant_hold_it classes hint (call_provider c).

(** The calls of a run that ends with the exception [raised], if any: none
    of them is a violation, except the last one of a run that raises, which
    is the violation the exception reports. *)
Definition boundary_shape (raised : option Exc) (new : list Call) : Prop :=
  match raised with
  | None => Forall (λ c, violation c = false) new
  | Some exc =>
      ∃ quiet c, new = quiet ++ [c]
        ∧ Forall (λ c, violation c = false) quiet
        ∧ violation c = true
        ∧ exc = ValueNotSecretException (name (call_provider c)) (call_ns_key c)
  end.

(** A trace records a call: same provider, key and value.  The namespaces
    of the trace are those of the call, or what the later [ns.pop()] calls
    left of them. *)
Definition trace_records (t : LookupTrace) (c : Call) : Prop :=
  trace_provider t = name (call_provider c)
  ∧ trace_key t = call_ns_key c
  ∧ trace_value t = call_value c.

(** The calls to providers that can hold the value of the hint. *)
Definition held (calls : list Call) : list Call :=
  filter (λ c, cant_hold_it classes hint (call_provider c) = false) calls.

End LookupNotions.

(** The list [ns] after [i] calls of [ns.pop()]: its last [i] elements are
    removed. *)
Definition pop_n (i : nat) (ns : list string) : list string :=
  take (length ns - i) ns.

(** The trace the loop appends for a call. *)
Definition trace_of_call (c : Call) : LookupTrace :=
  mkLookupTrace (name (call_provider c)) (call_namespaces c) (call_ns_key c)
    (call_value c).

(** The exception of an outcome. *)
Definition raised_of_exit (exit : WhileExit) : option Exc :=
  match exit with WRaise exc => Some exc | _ => None end.

Definition raised_of_result {A} (r : Result A) : option Exc :=
  match r with inl exc => Some exc | inr _ => None end.

Definition raised_of {A} (o : Outcome A) : option Exc :=
  match o with Raise exc => Some exc | _ => None end.

(** The calls a run added to the log. *)
Definition new_calls (before after : list Call) : list Call :=
  drop (length before) after.

(** ** Notions for the properties of the orchestrator *)

(** The inner hint [_resolve_config_field] computes from the hint of a
    field. *)
Definition inner_hint_of (hint : Hint) : Hint :=
  let inner_hint := extract_inner_type hint in
  let inner_hint := default inner_hint (get_config_if_union inner_hint) in
  default inner_hint (get_origin inner_hint).

(** The fields that are resolved recursively: the inner hint is a
    configuration class that is not an injectable context. *)
Definition is_embedded_configuration (classes : ClassTable) (hint : Hint) : bool :=
  is_config_hint (inner_hint_of hint)
  && negb (is_context_hint classes (inner_hint_of hint)).

(** What the loop of [_resolve_config_fields] obtained for a field: key,
    hint, value and traces. *)
Definition FieldOutcome : Type := string * Hint * PyVal * list LookupTrace.

(** The non-optional fields whose value is [None], with their traces. *)
Definition missing_fields (outcomes : list FieldOutcome)
    : list (string * list LookupTrace) :=
  omap (λ o : FieldOutcome,
          let '(key, hint, value, traces) := o in
          if negb (is_optional_type hint) && is_none value
          then Some (key, traces) else None)
       outcomes.

Section FieldsRun.

Context {rt : Runtime} (classes : ClassTable) (C : Container).
Context (rec : Resolve) (config : ClassId * loc) (explicit_values : PyVal).
Context (explicit_namespaces embedded_namespaces : list string).
Context (accept_partial : bool).

(** The explicit value the loop passes for a field in the state [st]. *)
Definition explicit_value_for (st : State) (key : string) : Result PyVal :=
  if truthy classes explicit_values
  then py_get classes (st_heap st) explicit_values key else inr VNone.

(** A run of the loop of [_resolve_config_fields] in which the resolution
    of every field returns: each field is resolved in the state the
    previous ones left, with the current value of the attribute as default,
    and its value is set on the instance. *)
Inductive fields_run
    : list (string * Hint) → State → list FieldOutcome → State → Prop :=
| fields_run_nil st : fields_run [] st [] st
| fields_run_cons key hint fields st explicit_value current_value traces st1
    outcomes st' :
    explicit_value_for st key = inr explicit_value →
    _resolve_config_field classes C rec key hint
      (getattr (heap_obj (st_heap st) config.2) key) explicit_value config
      (obj_namespace (heap_obj (st_heap st) config.2)) explicit_namespaces
      embedded_namespaces accept_partial st
    = (Ret (current_value, traces), st1) →
    fields_run fields (setattr config.2 key current_value st1).2 outcomes st' →
    fields_run ((key, hint) :: fields) st
      ((key, hint, current_value, traces) :: outcomes) st'.

End FieldsRun.

(** Two providers, the ambient namespaces a, b, no pipeline name. *)
Definition two_providers (context P1 P2 : ConfigProvider) : Container :=
  {| providers := [P1; P2];
     context_provider := context;
     ctx_pipeline_name := None;
     ctx_namespaces := ["a"; "b"] |}.

(** ** Example configurations *)
Module Ex.

(** A class that defines neither a native representation nor hooks. *)
Definition plain_class (cls_name : string) (fields : list (string * Hint))
    (namespace : option string) (is_credentials : bool) : ClassDesc :=
  {| cls_name := cls_name;
     cls_is_context := false;
     cls_is_credentials := is_credentials;
     cls_fields := fields;
     cls_new := mkObj ∅ namespace false None;
     cls_parse_native := λ _ o, (o, Some NotImplementedError);
     cls_mro := [cls_name; "BaseConfiguration"];
     cls_on_resolved := None;
     cls_on_partial := None |}.

(** [Server] has two required fields, [Db] has a namespace of its own and
    one optional field, [App] embeds a [Db] under the key [db]. *)
Definition classes : ClassTable :=
  λ c, if String.eqb c "Server"
       then plain_class "Server" [("host", HType TStr); ("port", HType TInt)] None false
       else if String.eqb c "Db"
       then plain_class "Db" [("name", HOptional (HType TStr))] (Some "db") false
       else if String.eqb c "App"
       then plain_class "App" [("db", HType (TClass "Db"))] None false
       else plain_class "BaseConfiguration" [] None false.

(** A provider over a table of values by namespace path and key. *)
Definition table_provider (name : string) (supports_secrets supports_namespaces : bool)
    (table : list (list string * string * PyVal)) : ConfigProvider :=
  {| name := name;
     supports_secrets := supports_secrets;
     supports_namespaces := supports_namespaces;
     get_value := λ key hint ns,
       (default VNone
          (snd <$> head (filter (λ e, e.1 = (ns, key)) table)),
        String.concat "." (ns ++ [key])) |}.

(** The context provider holds nothing. *)
Definition context : ConfigProvider := table_provider "Injectable Context" true false [].

(** [P1] has a value only under the path a, b; [P2] only under the empty
    path; [P0] has none. *)
Definition P1 : ConfigProvider :=
  table_provider "P1" true true [(["a"; "b"], "key", VStr "v1")].
Definition P2 : ConfigProvider :=
  table_provider "P2" true true [([], "key", VStr "v2")].
Definition P0 : ConfigProvider := table_provider "P0" true true [].

(** A provider that cannot hold secrets, with and without a password. *)
Definition config_toml : ConfigProvider :=
  table_provider "Pipeline config.toml" false true [([], "password", VStr "pass")].
Definition empty_config_toml : ConfigProvider :=
  table_provider "Pipeline config.toml" false true [].

Definition container (providers : list ConfigProvider) (namespaces : list string)
    : Container :=
  {| providers := providers;
     context_provider := context;
     ctx_pipeline_name := None;
     ctx_namespaces := namespaces |}.

Definition no_calls (heap : gmap loc ConfigObj) : State := mkState heap [].

(** One provider without any value, no ambient namespace. *)
Definition bare : Container := container [P0] [].

(** Heaps: a fresh [Db] at 1 and a fresh [App] at 2; a fresh [Server] at 1;
    a resolved [Db] at 1. *)
Definition heap_app : gmap loc ConfigObj :=
  {[ 1%positive := cls_new (classes "Db"); 2%positive := cls_new (classes "App") ]}.
Definition heap_server : gmap loc ConfigObj :=
  {[ 1%positive := cls_new (classes "Server") ]}.
Definition heap_resolved_db : gmap loc ConfigObj :=
  {[ 1%positive := mkObj ∅ (Some "db") true None ]}.

(** The attempts of a log: provider name and namespace path. *)
Definition attempts (calls : list Call) : list (string * list string) :=
  (λ c, (name (call_provider c), call_namespaces c)) <$> calls.

End Ex.

(** ** Outcomes of a lookup *)

(** How a run of the lookup ends: with a value, without one, or with an
    exception. *)
Inductive Verdict :=
| Found (value : PyVal)
| Missed
| Failed (exc : Exc).

Definition verdict_of_exit (exit : WhileExit) : Verdict :=
  match exit with
  | WReturn value => Found value
  | WRaise exc => Failed exc
  | WBreak => Missed
  end.

Definition verdict_of_result (r : Result PyVal) : Verdict :=
  match r with
  | inl exc => Failed exc
  | inr value => if is_none value then Missed else Found value
  end.

Definition verdict_of (o : Outcome (PyVal * list LookupTrace)) : Verdict :=
  match o with
  | Ret (value, _) => if is_none value then Missed else Found value
  | Raise exc => Failed exc
  | OutOfFuel => Failed (OtherError "depth")
  end.

Section RunShape.

Context (classes : ClassTable) (hint : Hint).

(** The calls of a run by its verdict: every call but the last returned
    [None]; the last one of a run that finds a value returned it, from a
    provider that can hold it; the last one of a run that fails returned a
    value from a provider that cannot hold it. *)
Definition run_shape (verdict : Verdict) (new : list Call) : Prop :=
  match verdict with
  | Missed => Forall (λ c, is_none (call_value c) = true) new
  | Found value =>
      ∃ quiet c, new = quiet ++ [c]
        ∧ Forall (λ c, is_none (call_value c) = true) quiet
        ∧ call_value c = value
        ∧ is_none value = false
        ∧ cant_hold_it classes hint (call_provider c) = false
  | Failed exc =>
      ∃ quiet c, new = quiet ++ [c]
        ∧ Forall (λ c, is_none (call_value c) = true) quiet
        ∧ is_none (call_value c) = false
        ∧ cant_hold_it classes hint (call_provider c) = true
        ∧ exc = ValueNotSecretException (name (call_provider c)) (call_ns_key c)
  end.

End RunShape.

(** [s] when it is true as a condition, as a list of segments. *)
Definition segment (s : option string) : list string :=
  if truthy_str s then option_list s else [].

(** ** The TOML provider ([providers/toml.py])

    The parsed document [self._toml] is a mapping; reading the file
    ([_read_toml]) is not modelled. *)

(** [d[key]], [None] standing for [KeyError]. *)
Fixpoint dict_lookup (d : list (string * PyVal)) (key : string) : option PyVal :=
  match d with
  | [] => None
  | (k, v) :: d' => if String.eqb k key then Some v else dict_lookup d' key
  end.

(** [TomlProvider.get_key_name] *)
Definition get_key_name (key : string) (namespaces : list string) : string :=
  match namespaces with
  | _ :: _ =>
      String.concat "."
        (filter (λ x, negb (String.eqb x "") = true) namespaces ++ [key])
  | [] => key
  end.

(** The loop of [TomlProvider.get_value] over [full_path]; [KeyError] is
    raised at a key that is missing and at a node that is not a mapping. *)
Fixpoint toml_walk (node : PyVal) (full_path : list string) : Result PyVal :=
  match full_path with
  | [] => inr node
  | k :: rest =>
      match node with
      | VDict items =>
          match dict_lookup items k with
          | Some node' => toml_walk node' rest
          | None => inl (OtherError "KeyError")
          end
      | _ => inl (OtherError "KeyError")
      end
  end.

(** [TomlProvider.get_value] *)
Definition toml_get_value (toml : PyVal) (key : string) (hint : Hint)
    (namespaces : list string) : PyVal * string :=
  let full_path := namespaces ++ [key] in
  let full_key := get_key_name key namespaces in
  match toml_walk toml full_path with
  | inr node => (node, full_key)
  | inl _ => (VNone, full_key)
  end.

(** [ConfigTomlProvider] and [SecretsTomlProvider] over a parsed document. *)
Definition ConfigTomlProvider (toml : PyVal) : ConfigProvider :=
  {| name := "Pipeline config.toml";
     supports_secrets := false;
     supports_namespaces := true;
     get_value := toml_get_value toml |}.

Definition SecretsTomlProvider (toml : PyVal) : ConfigProvider :=
  {| name := "Pipeline secrets.toml";
     supports_secrets := true;
     supports_namespaces := true;
     get_value := toml_get_value toml |}.

(** ** [inject_namespace] *)

(** [ConfigNamespacesContext] *)
Record ConfigNamespacesContext := mkNamespacesContext {
  ns_pipeline_name : option string;
  ns_namespaces : list string;
}.

(** [inject_namespace]: the context the function hands to
    [container.injectable_context], given the context found in the
    container. *)
Definition inject_namespace (existing_context namespace_context : ConfigNamespacesContext)
    (merge_existing : bool) : ConfigNamespacesContext :=
  if merge_existing then
    {| ns_pipeline_name :=
         if truthy_str (ns_pipeline_name namespace_context)
         then ns_pipeline_name namespace_context
         else ns_pipeline_name existing_context;
       ns_namespaces :=
         match ns_namespaces namespace_context with
         | _ :: _ => ns_namespaces namespace_context
         | [] => ns_namespaces existing_context
         end |}
  else namespace_context.

(** ** Runs of the field loop and hooks *)

(** [unresolved_fields] after the loop of [_resolve_config_fields] has
    processed the fields with the given outcomes. *)
Fixpoint collect_unresolved (outcomes : list FieldOutcome)
    (unresolved_fields : list (string * list LookupTrace))
    : list (string * list LookupTrace) :=
  match outcomes with
  | [] => unresolved_fields
  | (key, hint, value, traces) :: outcomes' =>
      collect_unresolved outcomes'
        (if negb (is_optional_type hint) && is_none value
         then dict_set key traces unresolved_fields else unresolved_fields)
  end.

(** The state in which the exception of the instance at [r] is [exc]. *)
Definition with_exception (r : loc) (exc : option Exc) (st : State) : State :=
  mkState
    (<[r := mkObj (obj_attrs (heap_obj (st_heap st) r))
              (obj_namespace (heap_obj (st_heap st) r))
              (obj_is_resolved (heap_obj (st_heap st) r)) exc]> (st_heap st))
    (st_calls st).

(** The state in which the instance at [r] is marked resolved. *)
Definition with_resolved (r : loc) (st : State) : State :=
  mkState
    (<[r := mkObj (obj_attrs (heap_obj (st_heap st) r))
              (obj_namespace (heap_obj (st_heap st) r)) true
              (obj_exception (heap_obj (st_heap st) r))]> (st_heap st))
    (st_calls st).

(** The state in which the instance at [r] is [o]. *)
Definition with_obj (r : loc) (o : ConfigObj) (st : State) : State :=
  mkState (<[r := o]> (st_heap st)) (st_calls st).

(** ** Notions for the queried paths *)

Section QueriedPaths.

Context (C : Container) (explicit_namespaces embedded_namespaces : list string).

(** The list [ns] the loop starts from at a provider. *)
Definition start_ns (provider : ConfigProvider) : list string :=
  if supports_namespaces provider
  then initial_ns C explicit_namespaces embedded_namespaces else [].

(** A path made of the pipeline name of one of the two passes, a prefix of
    the initial list and the config namespace. *)
Definition path_shape (config_namespace : option string) (path : list string)
    : Prop :=
  ∃ pipeline_name k,
    (pipeline_name = ctx_pipeline_name C ∨ pipeline_name = None)
    ∧ path = segment pipeline_name
             ++ take k (initial_ns C explicit_namespaces embedded_namespaces)
             ++ segment config_namespace.

End QueriedPaths.

(** The number of passes of a lookup over the providers. *)
Definition passes (C : Container) : nat :=
  if truthy_str (ctx_pipeline_name C) then 2 else 1.

(** ** Further example configurations *)
Module Demo.

(** A provider without namespace support that holds no value, as the
    environment provider would be declared. *)
Definition flat : ConfigProvider :=
  Ex.table_provider "Environment" true false [].

(** A provider with a value for the key under the path pipe, a. *)
Definition deep : ConfigProvider :=
  Ex.table_provider "Deep" true true [(["pipe"; "a"], "key", VStr "v")].

(** The pipeline name [pipe], the ambient namespaces a, b and the two
    providers. *)
Definition piped : Container :=
  {| providers := [flat; deep];
     context_provider := Ex.context;
     ctx_pipeline_name := Some "pipe";
     ctx_namespaces := ["a"; "b"] |}.

(** The native representation of [Dsn]: a text that starts with postgres
    is stored as [url] and resolves the instance, any other text is not a
    valid value, and a value of another type is not supported. *)
Definition dsn_parse_native (value : PyVal) (o : ConfigObj)
    : ConfigObj * option Exc :=
  match value with
  | VStr s =>
      if String.prefix "postgres" s
      then (mkObj (<["url" := value]> (obj_attrs o)) (obj_namespace o) true
              (obj_exception o), None)
      else (o, Some (ValueError value))
  | _ => (o, Some NotImplementedError)
  end.

(** [Login] has a secret field between two plain ones; [Dsn] has a native
    representation; [Injected] is an injectable context; the other classes
    are those of [Ex]. *)
Definition classes : ClassTable :=
  λ c, if String.eqb c "Injected"
       then {| cls_name := "Injected";
               cls_is_context := true;
               cls_is_credentials := false;
               cls_fields := [("name", HType TStr)];
               cls_new := mkObj ∅ None false None;
               cls_parse_native := λ _ o, (o, Some NotImplementedError);
               cls_mro := ["Injected"; "ContainerInjectableContext";
                           "BaseConfiguration"];
               cls_on_resolved := None;
               cls_on_partial := None |}
       else if String.eqb c "Login"
       then Ex.plain_class "Login"
              [("host", HType TStr); ("password", HSecret); ("port", HType TInt)]
              None false
       else if String.eqb c "Dsn"
       then {| cls_name := "Dsn";
               cls_is_context := false;
               cls_is_credentials := false;
               cls_fields := [("url", HType TStr)];
               cls_new := mkObj ∅ None false None;
               cls_parse_native := dsn_parse_native;
               cls_mro := ["Dsn"; "BaseConfiguration"];
               cls_on_resolved := None;
               cls_on_partial := None |}
       else Ex.classes c.

(** One provider without secret support that holds a password. *)
Definition plain_toml : Container := Ex.container [Ex.config_toml] [].

(** A provider that holds the text 0 for the port. *)
Definition zero_port : ConfigProvider :=
  Ex.table_provider "Zero" true true [([], "port", VStr "0")].

(** A parsed [config.toml] with a table [db] that holds a [name]. *)
Definition document : PyVal :=
  VDict [("db", VDict [("name", VStr "prod")]); ("host", VStr "localhost")].

(** The document as the only provider. *)
Definition toml_only : Container :=
  Ex.container [ConfigTomlProvider document] [].

(** Heaps: a fresh [Login] at 1; a fresh [Dsn] at 1. *)
Definition heap_login : gmap loc ConfigObj :=
  {[ 1%positive := cls_new (classes "Login") ]}.
Definition heap_dsn : gmap loc ConfigObj :=
  {[ 1%positive := cls_new (classes "Dsn") ]}.

End Demo.

(** * Properties *)

(** ** Namespace composition *)

(** C6: for every config namespace and every non-empty chain of embedded
    namespaces, written [outer ++ [innermost]], the composition returns
    [innermost] as config namespace unless it starts with an underscore, in
    which case the config namespace is kept; the chain returned is [outer]
    (the consumed element is dropped) without its elements that start with
    an underscore, so that none of them remains. *)
Theorem apply_embedded_namespaces_nonempty
    (config_namespace : option string) (outer : list string) (innermost : string) :
  _apply_embedded_namespaces_to_config_namespace config_namespace
    (outer ++ [innermost])
  = (if startswith_underscore innermost then config_namespace else Some innermost,
     filter (λ ns, negb (startswith_underscore ns) = true) outer)
  ∧ Forall (λ ns, startswith_underscore ns = false)
      (snd (_apply_embedded_namespaces_to_config_namespace config_namespace
              (outer ++ [innermost]))).
Proof.
  unfold _apply_embedded_namespaces_to_config_namespace.
  rewrite last_snoc, removelast_last. simpl. split.
  - by destruct (startswith_underscore innermost).
  - apply Forall_forall. intros ns Hin.
    apply list_elem_of_filter in Hin as [Hns _].
    by apply negb_true_iff.
Qed.

(** ** Type coercion *)

Section CoercionProperties.

Context {rt : Runtime} (classes : ClassTable).

(** C10: [serialize_value] applied to [None] raises [ValueError(None)] and
    produces no textual form, whatever the runtime; the round trip of [None]
    therefore fails with that error and [None] is not representable. *)
Theorem serialize_value_None_raises (key : string) :
  serialize_value classes VNone = inl (ValueError VNone)
  ∧ round_trip classes key VNone = inl (ValueError VNone)
  ∧ representable VNone = false.
Proof. repeat split. Qed.

End CoercionProperties.

(** ** The textual forms of the reference runtime *)

(** Induction on values, with the items of the sequences and mappings. *)
Lemma PyVal_nested_ind (P : PyVal → Prop) :
  P VNone → (∀ b, P (VBool b)) → (∀ z, P (VInt z)) → (∀ s, P (VStr s)) →
  (∀ s, P (VBytes s)) →
  (∀ items, Forall P items → P (VTuple items)) →
  (∀ items, Forall P items → P (VList items)) →
  (∀ items, Forall (λ kv, P kv.2) items → P (VDict items)) →
  (∀ c r, P (VConfig c r)) →
  ∀ v, P v.
Proof.
  intros HNone HBool HInt HStr HBytes HTuple HList HDict HConfig.
  fix IH 1. intros [ |b|z|s|s|items|items|items|c r].
  - exact HNone.
  - apply HBool.
  - apply HInt.
  - apply HStr.
  - apply HBytes.
  - apply HTuple. induction items as [|x items IHitems]; constructor; [apply IH|exact IHitems].
  - apply HList. induction items as [|x items IHitems]; constructor; [apply IH|exact IHitems].
  - apply HDict. induction items as [|[k x] items IHitems]; constructor; [apply IH|exact IHitems].
  - apply HConfig.
Qed.

Section Texts.

Import Ref.

Lemma string_app_cons (x : ascii) (a b : string) :
  String x a +:+ b = String x (a +:+ b).
Proof. reflexivity. Qed.

Lemma string_app_nil_l (a : string) : "" +:+ a = a.
Proof. reflexivity. Qed.

Lemma string_app_assoc (a b c : string) : (a +:+ b) +:+ c = a +:+ (b +:+ c).
Proof.
  induction a as [|x a IH]; [done|]. rewrite !string_app_cons. by rewrite IH.
Qed.

Lemma string_app_nil_r (a : string) : a +:+ "" = a.
Proof.
  induction a as [|x a IH]; [done|]. rewrite string_app_cons. by rewrite IH.
Qed.

Lemma string_length_app (a b : string) :
  String.length (a +:+ b) = (String.length a + String.length b)%nat.
Proof.
  induction a as [|x a IH]; [done|]. rewrite string_app_cons. simpl.
  by rewrite IH.
Qed.

Lemma skip_ws_starts (s : string) : starts s = true → skip_ws s = s.
Proof.
  destruct s as [|a s]; [done|]. simpl. unfold starter.
  by destruct (is_blank a).
Qed.

Lemma starts_app (s rest : string) : starts s = true → starts (s +:+ rest) = true.
Proof. by destruct s. Qed.

Lemma numeric_starter (a : ascii) : is_numeric a = true → starter a = true.
Proof. destruct a as [[] [] [] [] [] [] [] []]; by vm_compute. Qed.

Lemma plain_char_quoted (syn : Syntax) (a : ascii) :
  plain_char a = true →
  Ascii.eqb a (quote syn) = false ∧ Ascii.eqb a backslash = false.
Proof.
  destruct syn, a as [[] [] [] [] [] [] [] []]; by vm_compute.
Qed.

(** A plain text is read back from between its quotes. *)
Lemma read_quoted_plain (syn : Syntax) (s rest : string) :
  plain s = true →
  read_quoted (quote syn) (s +:+ String (quote syn) rest) = Some (s, rest).
Proof.
  induction s as [|a s IH]; intros Hplain.
  - rewrite string_app_nil_l. simpl. by rewrite Ascii.eqb_refl.
  - simpl in Hplain. apply andb_true_iff in Hplain as [Ha Hs].
    destruct (plain_char_quoted syn a Ha) as [Hq Hb].
    rewrite string_app_cons. simpl. by rewrite Hq, Hb, IH.
Qed.

(** A number is read up to the text that delimits it. *)
Lemma read_number_app (s rest : string) :
  numeric s = true → delimited rest = true →
  read_number (s +:+ rest) = (s, rest).
Proof.
  intros Hs Hrest. induction s as [|a s IH].
  - rewrite string_app_nil_l. destruct rest as [|b rest]; [done|].
    simpl in *. by apply negb_true_iff in Hrest as ->.
  - simpl in Hs. apply andb_true_iff in Hs as [Ha Hs].
    rewrite string_app_cons. simpl. by rewrite Ha, IH.
Qed.

Lemma numeric_uint (d : Decimal.uint) :
  numeric (NilEmpty.string_of_uint d) = true.
Proof. induction d; simpl; by rewrite ?IHd. Qed.

(** The decimal form of an integer: digits after an optional sign. *)
Lemma str_of_int_numeric (z : Z) :
  numeric (str_of_int z) = true ∧ starts (str_of_int z) = true.
Proof.
  assert (Huint : ∀ d, numeric (NilZero.string_of_uint d) = true
                       ∧ starts (NilZero.string_of_uint d) = true).
  { intros d. split.
    - destruct d; try apply numeric_uint. done.
    - by destruct d. }
  unfold str_of_int. destruct (Z.to_int z) as [d|d]; simpl.
  - apply Huint.
  - split; [|done]. apply (Huint d).
Qed.

Lemma int_of_str_of_int (z : Z) : int_of_str (str_of_int z) = Some z.
Proof.
  unfold int_of_str, str_of_int.
  rewrite NilZero.isi.
  - simpl. by rewrite DecimalZ.of_to.
  - destruct z; simpl; try discriminate.
    intros [= H]. by apply (Unsigned.to_uint_nonnil p).
  - destruct z; simpl; try discriminate.
    intros [= H]. by apply (Unsigned.to_uint_nonnil p).
Qed.

Lemma strip_prefix_app (p s : string) : strip_prefix p (p +:+ s) = Some s.
Proof.
  induction p as [|a p IH]; [done|]. rewrite string_app_cons. simpl.
  by rewrite Ascii.eqb_refl.
Qed.

Ltac string_norm :=
  repeat first [ rewrite string_app_assoc | rewrite string_app_cons
               | rewrite string_app_nil_l ].

Lemma concat_cons_cons (sep a b : string) (l : list string) :
  String.concat sep (a :: b :: l) = a +:+ sep +:+ String.concat sep (b :: l).
Proof. reflexivity. Qed.

Lemma starts_concat (sep a : string) (l : list string) :
  starts a = true → starts (String.concat sep (a :: l)) = true.
Proof.
  intros Ha. destruct l as [|b l]; [done|].
  rewrite concat_cons_cons. by apply starts_app.
Qed.

Lemma length_concat_elem {A} (pr : A → string) (sep : string) x (l : list A) :
  x ∈ l →
  (String.length (pr x) ≤ String.length (String.concat sep (map pr l)))%nat.
Proof.
  induction l as [|a l IH]; intros Hin; [by apply elem_of_nil in Hin|].
  destruct l as [|b l].
  - apply list_elem_of_singleton in Hin as ->. done.
  - cbn [map] in *. rewrite concat_cons_cons, !string_length_app.
    apply elem_of_cons in Hin as [->|Hin]; [lia|].
    specialize (IH Hin). lia.
Qed.

Lemma length_concat_count {A} (pr : A → string) (sep : string) (l : list A) :
  Forall (λ x, starts (pr x) = true) l →
  (length l ≤ String.length (String.concat sep (map pr l)))%nat.
Proof.
  induction 1 as [|a l Ha Hl IH]; [done|].
  assert (1 ≤ String.length (pr a))%nat
    by (destruct (pr a); [done|simpl; lia]).
  destruct l as [|b l]; [simpl; lia|].
  cbn [map] in *. rewrite concat_cons_cons, !string_length_app.
  simpl in *. lia.
Qed.

Lemma forallb_Forall {A} (f : A → bool) (l : list A) :
  forallb f l = true → Forall (λ x, f x = true) l.
Proof.
  induction l as [|a l IH]; simpl; [constructor|].
  intros [Ha Hl]%andb_true_iff. constructor; auto.
Qed.

Section Items.

Context {A : Type} (item : string → option (A * string)) (pr : A → string).
Context (close : ascii) (trailing : bool).

(** The closing bracket. *)
Hypothesis close_bracket :
  starter close = false ∧ Ascii.eqb close "," = false
  ∧ is_blank close = false ∧ is_numeric close = false.

(** The reader of an item skips a blank. *)
Hypothesis item_blank : ∀ s, item (String " " s) = item s.

Lemma read_items_blank fuel s :
  read_items item close trailing fuel (String " " s)
  = read_items item close trailing fuel s.
Proof. destruct fuel; [done|]. simpl. by rewrite item_blank. Qed.

Lemma starter_not_close (b : ascii) :
  starter b = true → Ascii.eqb b close = false.
Proof.
  intros Hb. destruct (Ascii.eqb_spec b close) as [->|]; [|done].
  destruct close_bracket. congruence.
Qed.

(** The items of a sequence are read back from their texts separated by
    commas. *)
Lemma read_items_print x xs fuel rest :
  Forall (reads item pr) (x :: xs) → (length xs < fuel)%nat →
  read_items item close trailing fuel
    (String.concat ", " (map pr (x :: xs)) +:+ String close rest)
  = Some (x :: xs, match xs with [] => false | _ :: _ => true end, rest).
Proof.
  destruct close_bracket as (Hstarter & Hcomma & Hblank & Hnumeric).
  revert x fuel. induction xs as [|y xs IH]; intros x fuel Hall Hfuel.
  all: destruct fuel as [|fuel]; [simpl in Hfuel; lia|].
  all: apply Forall_cons in Hall as [[Hstarts Hx] Hall].
  - cbn [map String.concat read_items].
    rewrite Hx by (simpl; by rewrite Hnumeric).
    simpl. by rewrite Hblank, Ascii.eqb_refl.
  - cbn [map]. rewrite concat_cons_cons. string_norm. cbn [read_items].
    rewrite Hx by done.
    change (skip_ws (String "," ?s)) with (String "," s). cbn iota.
    rewrite (Ascii.eqb_sym "," close), Hcomma.
    change (Ascii.eqb "," ",") with true. cbn iota.
    change (skip_ws (String " " ?s)) with (skip_ws s).
    assert (Hnext : starts (String.concat ", " (pr y :: map pr xs)
                            +:+ String close rest) = true).
    { apply starts_app, starts_concat.
      apply Forall_cons in Hall as [[Hy _] _]. exact Hy. }
    rewrite (skip_ws_starts _ Hnext).
    destruct (String.concat ", " (pr y :: map pr xs) +:+ String close rest)
      as [|b text] eqn:Htext; [done|].
    simpl in Hnext. rewrite (starter_not_close b Hnext), andb_false_r.
    rewrite read_items_blank, <- Htext.
    change (pr y :: map pr xs) with (map pr (y :: xs)).
    rewrite IH; [done|done|simpl in Hfuel; lia].
Qed.

(** The one item of a tuple: a comma follows it. *)
Lemma read_items_single x fuel rest :
  reads item pr x → close = ")"%char → trailing = true →
  read_items item close trailing (S fuel) (pr x +:+ ",)" +:+ rest)
  = Some ([x], true, rest).
Proof.
  intros [_ Hx] -> ->. cbn [read_items]. string_norm.
  rewrite Hx by done. reflexivity.
Qed.

(** A sequence is read back after its opening bracket. *)
Lemma read_sequence_print xs fuel rest :
  Forall (reads item pr) xs → (length xs ≤ fuel)%nat →
  read_sequence item close trailing fuel
    (String.concat ", " (map pr xs) +:+ String close rest)
  = Some (xs, match xs with [_] => false | [] => false | _ => true end, rest).
Proof.
  destruct close_bracket as (Hstarter & Hcomma & Hblank & Hnumeric).
  intros Hall Hfuel. unfold read_sequence. destruct xs as [|x xs].
  - simpl. by rewrite Hblank, Ascii.eqb_refl.
  - assert (Hnext : starts (String.concat ", " (map pr (x :: xs))
                            +:+ String close rest) = true).
    { apply starts_app, starts_concat.
      apply Forall_cons in Hall as [[Hx _] _]. exact Hx. }
    rewrite (skip_ws_starts _ Hnext).
    rewrite read_items_print by (done || simpl in Hfuel; lia).
    destruct (String.concat ", " (map pr (x :: xs)) +:+ String close rest)
      as [|b text] eqn:Htext; [done|].
    simpl in Hnext. rewrite (starter_not_close b Hnext).
    by destruct xs.
Qed.

End Items.

(** The one item of a tuple after the opening bracket. *)
Lemma read_sequence_single {A} (item : string → option (A * string))
    (pr : A → string) x fuel rest :
  reads item pr x →
  read_sequence item ")" true (S fuel) (pr x +:+ ",)" +:+ rest)
  = Some ([x], true, rest).
Proof.
  intros Hx. unfold read_sequence.
  assert (Hnext : starts (pr x +:+ ",)" +:+ rest) = true)
    by (apply starts_app, Hx).
  rewrite (skip_ws_starts _ Hnext).
  rewrite (read_items_single item pr ")" true) by done.
  destruct (pr x +:+ ",)" +:+ rest) as [|b text]; [done|].
  simpl in Hnext. destruct (Ascii.eqb_spec b ")") as [->|]; done.
Qed.

Lemma read_value_step syn fuel s :
  read_value syn (S fuel) s
  = match skip_ws s with
    | EmptyString => None
    | String a rest =>
        if opens syn a then
          match read_quoted a rest with
          | Some (body, rest') => Some (VStr body, rest')
          | None => None
          end
        else if Ascii.eqb a "[" then
          match read_sequence (read_value syn fuel) "]" (has_tuples syn)
                  fuel rest with
          | Some (items, _, rest') => Some (VList items, rest')
          | None => None
          end
        else if Ascii.eqb a "(" && has_tuples syn then
          match read_sequence (read_value syn fuel) ")" true fuel rest with
          | Some ([x], false, rest') => Some (x, rest')
          | Some (items, _, rest') => Some (VTuple items, rest')
          | None => None
          end
        else if Ascii.eqb a "{" then
          match read_sequence (read_pair syn (read_value syn fuel)) "}"
                  (has_tuples syn) fuel rest with
          | Some (items, _, rest') => Some (VDict items, rest')
          | None => None
          end
        else if is_numeric a then
          let '(number, rest') := read_number (String a rest) in
          match int_of_str number with
          | Some z => Some (VInt z, rest')
          | None => None
          end
        else read_constant syn (String a rest)
    end.
Proof. reflexivity. Qed.

Lemma read_value_blank syn fuel s :
  read_value syn fuel (String " " s) = read_value syn fuel s.
Proof. by destruct fuel. Qed.

Lemma numeric_dispatch syn (a : ascii) :
  is_numeric a = true →
  opens syn a = false ∧ Ascii.eqb a "[" = false
  ∧ Ascii.eqb a "(" = false ∧ Ascii.eqb a "{" = false.
Proof. destruct syn, a as [[] [] [] [] [] [] [] []]; by vm_compute. Qed.

Lemma print_starts syn v : writable syn v = true → starts (print syn v) = true.
Proof.
  destruct v as [ |b|z|s|s|items|items|items|c r]; intros Hw; try done.
  - by destruct syn.
  - by destruct syn, b.
  - apply str_of_int_numeric.
  - by destruct syn.
  - simpl in Hw. apply andb_true_iff in Hw as [Htuples _].
    simpl. rewrite Htuples. by destruct items as [|? [|]].
Qed.

(** A writable value is read back from its text, whatever follows it. *)
Lemma read_print syn v :
  writable syn v = true →
  ∀ fuel rest,
    (String.length (print syn v) < fuel)%nat → delimited rest = true →
    read_value syn fuel (print syn v +:+ rest) = Some (v, rest).
Proof.
  induction v as [ |b|z|s|s|items IH|items IH|items IH|c r]
    using PyVal_nested_ind; intros Hw fuel rest Hfuel Hrest.
  all: destruct fuel as [|fuel]; [lia|].
  all: try done.
  - destruct syn; reflexivity.
  - destruct syn, b; reflexivity.
  - (* integers *)
    destruct (str_of_int_numeric z) as [Hnum Hstart]. cbn [print].
    rewrite read_value_step, skip_ws_starts by by apply starts_app.
    destruct (str_of_int z) as [|a number] eqn:Hz; [done|].
    rewrite string_app_cons.
    assert (Ha : is_numeric a = true)
      by (simpl in Hnum; by apply andb_true_iff in Hnum as [? _]).
    destruct (numeric_dispatch syn a Ha) as (-> & -> & -> & ->).
    cbn [andb]. rewrite Ha, <- string_app_cons, read_number_app by done.
    by rewrite <- Hz, int_of_str_of_int.
  - (* texts *)
    simpl in Hw. rewrite read_value_step. unfold print, quoted. string_norm.
    rewrite skip_ws_starts by by destruct syn.
    replace (opens syn (quote syn)) with true by by destruct syn.
    by rewrite read_quoted_plain.
  - (* tuples *)
    cbn [writable] in Hw. apply andb_true_iff in Hw as [Htuples Hw].
    cbn [print] in *. rewrite Htuples in *.
    assert (Hitems : Forall (reads (read_value syn fuel) (print syn)) items
                     ∧ (length items ≤ fuel)%nat).
    { assert (Hlen : (String.length (String.concat ", " (map (print syn) items))
                      < fuel)%nat).
      { destruct items as [|? [|]]; rewrite ?string_length_app in Hfuel;
          cbn [String.length] in Hfuel; [simpl in *|..]; lia. }
      apply forallb_Forall in Hw. split.
      - apply Forall_forall. intros x Hx. rewrite Forall_forall in IH, Hw.
        split; [by apply print_starts, Hw|].
        intros rest' Hrest'. apply IH; [done|by apply Hw| |done].
        pose proof (length_concat_elem (print syn) ", " x items Hx). lia.
      - pose proof (length_concat_count (print syn) ", " items) as Hcount.
        etrans; [apply Hcount|lia].
        eapply Forall_impl; [exact Hw|]. intros x. apply print_starts. }
    destruct Hitems as [Hitems Hcount].
    rewrite read_value_step.
    assert (Hsingle : ∀ x, items = [x] →
      read_sequence (read_value syn fuel) ")" true fuel
        (print syn x +:+ ",)" +:+ rest) = Some ([x], true, rest)).
    { intros x ->. destruct fuel as [|fuel']; [simpl in Hcount; lia|].
      apply read_sequence_single. by apply Forall_cons in Hitems as [? _]. }
    assert (Hother :
      read_sequence (read_value syn fuel) ")" true fuel
        (String.concat ", " (map (print syn) items) +:+ String ")" rest)
      = Some (items, match items with [_] => false | [] => false | _ => true end,
              rest)).
    { apply read_sequence_print; [done|apply read_value_blank|done..]. }
    destruct items as [|x [|y items]]; string_norm.
    all: rewrite skip_ws_starts by done; cbv beta iota.
    all: replace (opens syn "(") with false by by destruct syn.
    all: change (Ascii.eqb "(" "[") with false;
         change (Ascii.eqb "(" "(") with true; rewrite Htuples; cbn [andb].
    + revert Hother. cbn [map String.concat]. string_norm. by intros ->.
    + specialize (Hsingle x eq_refl). revert Hsingle. string_norm.
      change (String.concat ", " (map (print syn) [x])) with (print syn x).
      by intros ->.
    + revert Hother. cbn [map]. rewrite !concat_cons_cons. string_norm.
      by intros ->.
  - (* lists *)
    cbn [writable] in Hw. cbn [print] in *.
    assert (Hitems : Forall (reads (read_value syn fuel) (print syn)) items
                     ∧ (length items ≤ fuel)%nat).
    { assert (Hlen : (String.length (String.concat ", " (map (print syn) items))
                      < fuel)%nat).
      { rewrite !string_length_app in Hfuel. cbn [String.length] in Hfuel.
        lia. }
      apply forallb_Forall in Hw. split.
      - apply Forall_forall. intros x Hx. rewrite Forall_forall in IH, Hw.
        split; [by apply print_starts, Hw|].
        intros rest' Hrest'. apply IH; [done|by apply Hw| |done].
        pose proof (length_concat_elem (print syn) ", " x items Hx). lia.
      - pose proof (length_concat_count (print syn) ", " items) as Hcount.
        etrans; [apply Hcount|lia].
        eapply Forall_impl; [exact Hw|]. intros x. apply print_starts. }
    destruct Hitems as [Hitems Hcount].
    rewrite read_value_step. string_norm.
    rewrite skip_ws_starts by done. cbv beta iota.
    replace (opens syn "[") with false by by destruct syn.
    change (Ascii.eqb "[" "[") with true. cbv beta iota.
    rewrite (read_sequence_print (read_value syn fuel) (print syn) "]");
      [done|done|apply read_value_blank|done..].
  - (* mappings *)
    cbn [writable] in Hw. cbn [print] in *.
    change (λ kv : string * PyVal,
              let '(k, x) := kv in quoted syn k +:+ ": " +:+ print syn x)
      with (print_pair syn) in *.
    assert (Hitems : Forall (reads (read_pair syn (read_value syn fuel))
                               (print_pair syn)) items
                     ∧ (length items ≤ fuel)%nat).
    { assert (Hlen : (String.length
                        (String.concat ", " (map (print_pair syn) items))
                      < fuel)%nat).
      { rewrite !string_length_app in Hfuel. cbn [String.length] in Hfuel.
        lia. }
      apply forallb_Forall in Hw.
      assert (Hstarts : Forall (λ kv, starts (print_pair syn kv) = true) items).
      { apply Forall_forall. intros [k x] _. by destruct syn. }
      split.
      - apply Forall_forall. intros [k x] Hx.
        rewrite Forall_forall in IH, Hw, Hstarts.
        split; [by apply Hstarts|].
        specialize (Hw _ Hx). apply andb_true_iff in Hw as [Hk Hwx].
        pose proof (length_concat_elem (print_pair syn) ", " (k, x) items Hx)
          as Hsize.
        unfold print_pair at 1 in Hsize. unfold quoted in Hsize.
        rewrite !string_length_app in Hsize. cbn [String.length] in Hsize.
        intros rest' Hrest'. unfold print_pair, quoted, read_pair.
        string_norm. rewrite skip_ws_starts by by destruct syn.
        replace (opens syn (quote syn)) with true by by destruct syn.
        rewrite read_quoted_plain by done.
        change (skip_ws (String ":" ?t)) with (String ":" t).
        change (Ascii.eqb ":" ":") with true. cbv beta iota.
        rewrite read_value_blank.
        rewrite (IH _ Hx Hwx) by (done || simpl; lia). done.
      - etrans; [by apply (length_concat_count (print_pair syn) ", ")|lia]. }
    destruct Hitems as [Hitems Hcount].
    rewrite read_value_step. string_norm.
    rewrite skip_ws_starts by done. cbv beta iota.
    replace (opens syn "{") with false by by destruct syn.
    change (Ascii.eqb "{" "[") with false.
    change (Ascii.eqb "{" "(") with false.
    change (Ascii.eqb "{" "{") with true. cbv beta iota. cbn [andb].
    rewrite (read_sequence_print (read_pair syn (read_value syn fuel))
               (print_pair syn) "}");
      [done|done|done|done..].
Qed.

(** The text of a writable value stands for the value. *)
Lemma parse_print syn v : writable syn v = true → parse syn (print syn v) = Some v.
Proof.
  intros Hw. unfold parse.
  pose proof (read_print syn v Hw (S (String.length (print syn v))) ""
                ltac:(lia) eq_refl) as Hread.
  rewrite string_app_nil_r in Hread. by rewrite Hread.
Qed.

End Texts.

(** C5: for every representable value [v], that is a boolean, an integer, a
    text, a tuple with a literal form, or a sequence or a mapping with a
    structured-text form, [deserialize_value(key, serialize_value(v),
    type(v))] returns [v] in the reference runtime. *)
Theorem round_trip_representable (classes : ClassTable) (key : string)
    (v : PyVal) :
  representable v = true →
  round_trip (rt := Ref.runtime) classes key v = inr v.
Proof.
  intros Hv. unfold round_trip.
  destruct v as [ |b|z|s|s|items|items|items|c r]; try done.
  - (* booleans: [True] and [False] are tokens of [str2bool] *)
    by destruct b.
  - (* integers: the numeral is read back *)
    simpl. unfold deserialize_value. simpl. unfold Ref.coerce. simpl.
    by rewrite int_of_str_of_int.
  - (* tuples: the literal form, read by [ast.literal_eval] *)
    pose proof (parse_print Ref.Literal _ Hv) as Hparse.
    change (serialize_value classes (VTuple items))
      with (inr (A := Exc) (VStr (Ref.print Ref.Literal (VTuple items)))).
    set (text := Ref.print Ref.Literal (VTuple items)) in *. clearbody text.
    simpl. unfold deserialize_value. simpl. unfold Ref.literal_eval.
    by rewrite Hparse.
  - (* sequences: the structured text, read by [json.loads] *)
    pose proof (parse_print Ref.Json _ Hv) as Hparse.
    change (serialize_value classes (VList items))
      with (inr (A := Exc) (VStr (Ref.print Ref.Json (VList items)))).
    set (text := Ref.print Ref.Json (VList items)) in *. clearbody text.
    simpl. unfold deserialize_value. simpl. unfold Ref.loads.
    by rewrite Hparse.
  - (* mappings *)
    pose proof (parse_print Ref.Json _ Hv) as Hparse.
    change (serialize_value classes (VDict items))
      with (inr (A := Exc) (VStr (Ref.print Ref.Json (VDict items)))).
    set (text := Ref.print Ref.Json (VDict items)) in *. clearbody text.
    simpl. unfold deserialize_value. simpl. unfold Ref.loads.
    by rewrite Hparse.
Qed.

(** A mapping with a nested sequence and a nested mapping, a tuple with a
    nested tuple and a text, a sequence, an integer, a boolean and a text
    are representable and come back from the round trip. *)
Lemma round_trip_representable_witness :
  Forall (λ v, representable v = true
               ∧ round_trip (rt := Ref.runtime) Ex.classes "key" v = inr v)
    [VDict [("hosts", VList [VStr "a.example"; VStr "b.example"]);
            ("port", VInt 5432);
            ("options", VDict [("tls", VBool true); ("ca", VNone)])];
     VTuple [VInt 1; VTuple [VInt (-2)]; VStr "three"; VList []];
     VList [VInt 3; VInt (-4)]; VInt 42; VBool true; VStr "text"].
Proof.
  repeat (constructor;
          [ split;
            [ reflexivity
            | apply (round_trip_representable Ex.classes "key"); reflexivity ]
          |]).
  constructor.
Defined.

(** A tuple inside a sequence is written as a sequence in the structured
    text and comes back as one: such a value is not representable. *)
Lemma tuple_inside_sequence_comes_back_as_sequence :
  representable (VList [VTuple [VInt 1]]) = false
  ∧ round_trip (rt := Ref.runtime) Ex.classes "key" (VList [VTuple [VInt 1]])
    = inr (VList [VList [VInt 1]]).
Proof. split; reflexivity. Qed.

(** ** The lookup engine *)

Section LookupProperties.

Local Open Scope nat_scope.

Context (classes : ClassTable) (C : Container).
Context (key : string) (hint : Hint) (config_namespace : option string).
Context (explicit_namespaces embedded_namespaces : list string).

Abbreviation look_while := (look_namespaces_while classes key hint config_namespace).
Abbreviation look_for :=
  (look_namespaces_for classes C key hint config_namespace explicit_namespaces
     embedded_namespaces).
Abbreviation attempt_at := (attempt key hint config_namespace).
Abbreviation is_violation := (violation classes hint).
Abbreviation search_provider :=
  (search_provider classes C key hint config_namespace explicit_namespaces
     embedded_namespaces).
Abbreviation initial_ns := (initial_ns C explicit_namespaces embedded_namespaces).
Abbreviation shape := (boundary_shape classes hint).

(** One iteration of the [while] loop. *)
Lemma look_while_step provider pipeline_name len_ns ns appended ls :
  let c := attempt_at provider pipeline_name ns in
  let calls := ls_calls ls ++ [c] in
  let appended' :=
    if cant_hold_it classes hint provider then appended
    else appended ++ [trace_of_call c] in
  let leave appended :=
    mkLState
      (ls_traces ls
       ++ seal_traces config_namespace provider pipeline_name ns appended) calls in
  look_while provider pipeline_name len_ns ns appended ls =
    if is_violation c then
      (WRaise (ValueNotSecretException (name provider) (call_ns_key c)),
       leave appended)
    else if is_none (call_value c) then
      match len_ns with
      | O => (WBreak, leave appended')
      | S len_ns' =>
          look_while provider pipeline_name len_ns' (removelast ns) appended'
            (mkLState (ls_traces ls) calls)
      end
    else (WReturn (call_value c), leave appended').
Proof.
  unfold attempt, violation, trace_of_call. simpl.
  destruct len_ns; simpl;
    destruct (get_value provider key hint
                (full_namespaces config_namespace provider pipeline_name ns))
      as [value ns_key]; simpl;
    destruct (is_none value), (cant_hold_it classes hint provider); reflexivity.
Qed.

Lemma shape_quiet_app raised new1 new2 :
  shape None new1 → shape raised new2 → shape raised (new1 ++ new2).
Proof.
  intros Hquiet H2. destruct raised as [exc|]; simpl in *.
  - destruct H2 as (quiet & c & -> & Hq & Hc & ->).
    exists (new1 ++ quiet), c. rewrite app_assoc. split; [done|].
    split; [by apply Forall_app|done].
  - by apply Forall_app.
Qed.

(** A violation among the calls of a run is its last call, and the run
    raises the exception that reports it. *)
Lemma shape_violation raised new l1 c l2 :
  shape raised new → new = l1 ++ c :: l2 → is_violation c = true →
  l2 = [] ∧ raised = Some (ValueNotSecretException (name (call_provider c))
                             (call_ns_key c)).
Proof.
  intros Hshape -> Hc. destruct raised as [exc|]; simpl in Hshape.
  - destruct Hshape as (quiet & c' & Heq & Hq & Hc' & ->).
    destruct l2 as [|c2 l2 _] using rev_ind.
    + apply app_inj_tail in Heq as [-> ->]. done.
    + rewrite app_comm_cons, app_assoc in Heq.
      apply app_inj_tail in Heq as [<- _].
      apply Forall_app in Hq as [_ Hq]. apply Forall_cons in Hq as [Hq _].
      congruence.
  - apply Forall_app in Hshape as [_ Hshape].
    apply Forall_cons in Hshape as [Hshape _]. congruence.
Qed.

(** The calls of the [while] loop. *)
Lemma look_while_shape provider pipeline_name len_ns ns appended ls :
  ∃ new,
    ls_calls (look_while provider pipeline_name len_ns ns appended ls).2
      = ls_calls ls ++ new
    ∧ shape
        (raised_of_exit (look_while provider pipeline_name len_ns ns appended ls).1)
        new.
Proof.
  revert ns appended ls. induction len_ns as [|len_ns IH]; intros ns appended ls.
  all: rewrite look_while_step; cbv zeta.
  all: destruct (is_violation (attempt_at provider pipeline_name ns)) eqn:Hv.
  all: try (eexists [_]; split; [reflexivity|]; simpl;
            exists [], (attempt_at provider pipeline_name ns);
            repeat split; done).
  all: destruct (is_none (call_value (attempt_at provider pipeline_name ns))).
  all: try (eexists [_]; split; [reflexivity|]; simpl;
            by repeat constructor).
  edestruct IH as (new & -> & Hshape). simpl.
  exists (attempt_at provider pipeline_name ns :: new).
  split; [by rewrite <- app_assoc|].
  apply (shape_quiet_app _ [_]); [by repeat constructor|done].
Qed.

(** One iteration of the [for] loop. *)
Lemma look_for_step pipeline_name provider ps ls :
  look_for pipeline_name (provider :: ps) ls =
    if supports_namespaces provider
    then search_provider pipeline_name provider ps initial_ns ls
    else if truthy_str pipeline_name then look_for pipeline_name ps ls
    else search_provider pipeline_name provider ps [] ls.
Proof. reflexivity. Qed.

(** The calls of the [for] loop. *)
Lemma look_for_shape pipeline_name ps ls :
  ∃ new,
    ls_calls (look_for pipeline_name ps ls).2 = ls_calls ls ++ new
    ∧ shape (raised_of_result (look_for pipeline_name ps ls).1) new.
Proof.
  revert ls. induction ps as [|provider ps IH]; intros ls.
  { exists []. simpl. by rewrite app_nil_r. }
  assert (Hsearch : ∀ ns, ∃ new,
    ls_calls (search_provider pipeline_name provider ps ns ls).2
      = ls_calls ls ++ new
    ∧ shape
        (raised_of_result (search_provider pipeline_name provider ps ns ls).1)
        new).
  { intros ns. unfold search_provider.
    destruct (look_while_shape provider pipeline_name (length ns) ns [] ls)
      as (new & Hcalls & Hshape).
    destruct (look_while provider pipeline_name (length ns) ns [] ls)
      as [[value|exc|] ls']; simpl in Hcalls, Hshape; [by exists new ..|].
    destruct (IH ls') as (new' & Hcalls' & Hshape').
    exists (new ++ new'). rewrite Hcalls, <- app_assoc in Hcalls'.
    split; [exact Hcalls'|].
    by apply shape_quiet_app. }
  rewrite look_for_step.
  destruct (supports_namespaces provider); [apply Hsearch|].
  destruct (truthy_str pipeline_name); [apply IH|apply Hsearch].
Qed.

(** *** Traces *)

Lemma seal_traces_records provider pipeline_name ns traces calls :
  Forall2 trace_records traces calls →
  Forall2 trace_records
    (seal_traces config_namespace provider pipeline_name ns traces) calls.
Proof.
  unfold seal_traces. destruct (copies_ns _ _ _); [done|].
  induction 1; simpl; constructor; done.
Qed.

Lemma look_while_traces provider pipeline_name len_ns ns appended ls :
  ∃ new added ns',
    ls_calls (look_while provider pipeline_name len_ns ns appended ls).2
      = ls_calls ls ++ new
    ∧ ls_traces (look_while provider pipeline_name len_ns ns appended ls).2
      = ls_traces ls
        ++ seal_traces config_namespace provider pipeline_name ns'
             (appended ++ added)
    ∧ Forall2 trace_records added (held classes hint new).
Proof.
  revert ns appended ls. induction len_ns as [|len_ns IH]; intros ns appended ls.
  all: rewrite look_while_step; cbv zeta.
  all: set (c := attempt_at provider pipeline_name ns).
  all: assert (Hp : call_provider c = provider) by done.
  all: unfold violation; rewrite Hp.
  all: destruct (cant_hold_it classes hint provider) eqn:Hcant;
    rewrite ?andb_true_r, ?andb_false_r.
  all: destruct (is_none (call_value c)); simpl negb; cbv iota.
  all: try (exists [c], [], ns; unfold held; rewrite filter_cons, Hp, Hcant;
            rewrite decide_False by done; simpl; rewrite app_nil_r;
            repeat split; by constructor).
  all: try (exists [c], [trace_of_call c], ns; unfold held;
            rewrite filter_cons, Hp, Hcant; rewrite decide_True by done; simpl;
            repeat split; by repeat constructor).
  - destruct (IH (removelast ns) appended (mkLState (ls_traces ls) (ls_calls ls ++ [c])))
      as (new & added & ns' & Hcalls & Htraces & Hrec).
    exists (c :: new), added, ns'. simpl in Hcalls, Htraces.
    rewrite <- app_assoc in Hcalls. split; [exact Hcalls|]. split; [exact Htraces|].
    unfold held in *. rewrite filter_cons, Hp, Hcant.
    by rewrite decide_False by done.
  - destruct (IH (removelast ns) (appended ++ [trace_of_call c])
                (mkLState (ls_traces ls) (ls_calls ls ++ [c])))
      as (new & added & ns' & Hcalls & Htraces & Hrec).
    exists (c :: new), (trace_of_call c :: added), ns'. simpl in Hcalls, Htraces.
    rewrite <- app_assoc in Hcalls, Htraces.
    split; [exact Hcalls|]. split; [exact Htraces|].
    unfold held in *. rewrite filter_cons, Hp, Hcant.
    rewrite decide_True by done. by constructor.
Qed.

(** The traces of the [for] loop record the calls made to the providers
    that can hold the value, in order. *)
Lemma look_for_traces pipeline_name ps ls :
  ∃ new added,
    ls_calls (look_for pipeline_name ps ls).2 = ls_calls ls ++ new
    ∧ ls_traces (look_for pipeline_name ps ls).2 = ls_traces ls ++ added
    ∧ Forall2 trace_records added (held classes hint new).
Proof.
  revert ls. induction ps as [|provider ps IH]; intros ls.
  { exists [], []. simpl. rewrite !app_nil_r. repeat split. constructor. }
  assert (Hsearch : ∀ ns, ∃ new added,
    ls_calls (search_provider pipeline_name provider ps ns ls).2
      = ls_calls ls ++ new
    ∧ ls_traces (search_provider pipeline_name provider ps ns ls).2
      = ls_traces ls ++ added
    ∧ Forall2 trace_records added (held classes hint new)).
  { intros ns. unfold search_provider.
    destruct (look_while_traces provider pipeline_name (length ns) ns [] ls)
      as (new & added & ns' & Hcalls & Htraces & Hrec).
    apply (seal_traces_records provider pipeline_name ns') in Hrec.
    simpl in Htraces.
    destruct (look_while provider pipeline_name (length ns) ns [] ls)
      as [[value|exc|] ls']; simpl in Hcalls, Htraces; [by eauto ..|].
    destruct (IH ls') as (new' & added' & Hcalls' & Htraces' & Hrec').
    exists (new ++ new'),
      (seal_traces config_namespace provider pipeline_name ns' added ++ added').
    rewrite Hcalls, <- app_assoc in Hcalls'.
    rewrite Htraces, <- app_assoc in Htraces'.
    split; [exact Hcalls'|]. split; [exact Htraces'|].
    unfold held in *. rewrite filter_app. by apply Forall2_app. }
  rewrite look_for_step.
  destruct (supports_namespaces provider); [apply Hsearch|].
  destruct (truthy_str pipeline_name); [apply IH|apply Hsearch].
Qed.

(** *** The order of the attempts *)

Lemma pop_n_0 ns : pop_n 0 ns = ns.
Proof. unfold pop_n. rewrite Nat.sub_0_r. apply firstn_all. Qed.

Lemma removelast_pop_n i ns : pop_n i (removelast ns) = pop_n (S i) ns.
Proof.
  unfold pop_n. rewrite removelast_firstn_len, length_take, take_take.
  f_equal. lia.
Qed.

Lemma fmap_seq_shift {A} (f : nat → A) n :
  f <$> seq 0 (S n) = f 0 :: ((λ i, f (S i)) <$> seq 0 n).
Proof.
  simpl. f_equal. by rewrite <- fmap_S_seq, <- list_fmap_compose.
Qed.

Lemma new_calls_app before new : new_calls before (before ++ new) = new.
Proof. unfold new_calls. by rewrite drop_app_length. Qed.

(** The loop begins with the attempt on the list it is given. *)
Lemma look_while_first provider pipeline_name len_ns ns appended ls :
  ∃ rest,
    ls_calls (look_while provider pipeline_name len_ns ns appended ls).2
      = ls_calls ls ++ attempt_at provider pipeline_name ns :: rest.
Proof.
  rewrite look_while_step; cbv zeta.
  destruct (is_violation _); [by exists []|].
  destruct (is_none _); [|by exists []].
  destruct len_ns as [|len_ns]; [by exists []|].
  edestruct look_while_shape as (new & -> & _). simpl.
  exists new. by rewrite <- app_assoc.
Qed.

(** As long as the attempts find no value, attempt number [i] is made on
    the list without its last [i] elements. *)
Lemma look_while_pops provider pipeline_name ns appended ls j :
  j ≤ length ns →
  (∀ i, i < j →
     is_none (call_value (attempt_at provider pipeline_name (pop_n i ns))) = true) →
  take (S j)
    (new_calls (ls_calls ls)
       (ls_calls (look_while provider pipeline_name (length ns) ns appended ls).2))
  = (λ i, attempt_at provider pipeline_name (pop_n i ns)) <$> seq 0 (S j).
Proof.
  revert ns appended ls. induction j as [|j IH]; intros ns appended ls Hj Habsent.
  { destruct (look_while_first provider pipeline_name (length ns) ns appended ls)
      as (rest & ->).
    rewrite new_calls_app. simpl. by rewrite pop_n_0. }
  rewrite look_while_step; cbv zeta.
  pose proof (Habsent 0 ltac:(lia)) as H0. rewrite pop_n_0 in H0.
  unfold violation. rewrite H0. cbn [negb andb].
  destruct (length ns) as [|len_ns] eqn:Hlen; [lia|].
  assert (Hlen' : len_ns = length (removelast ns)).
  { rewrite removelast_firstn_len, length_take. lia. }
  set (c := attempt_at provider pipeline_name ns).
  set (appended' := if cant_hold_it classes hint provider then appended
                    else appended ++ [trace_of_call c]).
  set (ls1 := mkLState (ls_traces ls) (ls_calls ls ++ [c])).
  rewrite Hlen'.
  specialize (IH (removelast ns) appended' ls1).
  destruct (look_while_shape provider pipeline_name (length (removelast ns))
              (removelast ns) appended' ls1) as (new & Hcalls & _).
  rewrite Hcalls in IH |- *. unfold ls1 in IH |- *. cbn [ls_calls] in IH |- *.
  rewrite new_calls_app in IH. rewrite <- app_assoc, new_calls_app.
  change ([c] ++ new) with (c :: new). rewrite firstn_cons.
  rewrite IH; [|lia|].
  - rewrite (fmap_seq_shift _ (S j)), pop_n_0. f_equal.
    apply list_fmap_ext. intros _ i _.
    by rewrite removelast_pop_n.
  - intros i Hi. rewrite removelast_pop_n. apply Habsent. lia.
Qed.

(** When no attempt finds a value, the loop ends with [break] after the
    attempt on the empty list. *)
Lemma look_while_break provider pipeline_name ns appended ls :
  (∀ i, i ≤ length ns →
     is_none (call_value (attempt_at provider pipeline_name (pop_n i ns))) = true) →
  (look_while provider pipeline_name (length ns) ns appended ls).1 = WBreak
  ∧ ls_calls (look_while provider pipeline_name (length ns) ns appended ls).2
    = ls_calls ls
      ++ ((λ i, attempt_at provider pipeline_name (pop_n i ns))
            <$> seq 0 (S (length ns))).
Proof.
  remember (length ns) as len_ns eqn:Hlen.
  revert ns appended ls Hlen.
  induction len_ns as [|len_ns IH]; intros ns appended ls Hlen Habsent.
  all: rewrite look_while_step; cbv zeta.
  all: pose proof (Habsent 0 ltac:(lia)) as H0; rewrite pop_n_0 in H0.
  all: unfold violation; rewrite H0; cbn [negb andb].
  { simpl. by rewrite pop_n_0. }
  assert (Hlen' : len_ns = length (removelast ns)).
  { rewrite removelast_firstn_len, length_take. lia. }
  edestruct (IH (removelast ns)) as [Hexit Hcalls]; [exact Hlen'| |].
  { intros i Hi. rewrite removelast_pop_n. apply Habsent. lia. }
  split; [exact Hexit|]. rewrite Hcalls. cbn [ls_calls].
  rewrite <- app_assoc. f_equal.
  rewrite (fmap_seq_shift _ (S len_ns)), pop_n_0.
  apply (f_equal (cons (attempt_at provider pipeline_name ns))).
  apply list_fmap_ext. intros _ i _.
  by rewrite removelast_pop_n.
Qed.

(** C3 (amended): at a provider that supports namespaces, as long as the
    attempts find no value, attempt number [i] is made with the namespace
    list without its last [i] segments: every miss removes the last
    (innermost) segment for the next attempt.  When the attempts down to
    the empty list all miss, the loop goes on with the next provider, having
    made exactly these calls. *)
Theorem namespace_fallback_pops_innermost pipeline_name provider ps ls j :
  supports_namespaces provider = true →
  j ≤ length initial_ns →
  (∀ i, i < j →
     is_none (call_value (attempt_at provider pipeline_name (pop_n i initial_ns)))
     = true) →
  take (S j)
    (new_calls (ls_calls ls)
       (ls_calls (look_for pipeline_name (provider :: ps) ls).2))
  = (λ i, attempt_at provider pipeline_name (pop_n i initial_ns)) <$> seq 0 (S j)
  ∧ (j = length initial_ns →
     is_none (call_value (attempt_at provider pipeline_name [])) = true →
     ∃ ls',
       look_for pipeline_name (provider :: ps) ls = look_for pipeline_name ps ls'
       ∧ ls_calls ls'
         = ls_calls ls
           ++ ((λ i, attempt_at provider pipeline_name (pop_n i initial_ns))
                 <$> seq 0 (S j))).
Proof.
  intros Hns Hj Habsent. rewrite look_for_step, Hns. unfold search_provider.
  pose proof (look_while_pops provider pipeline_name initial_ns [] ls j Hj Habsent)
    as Hpops.
  split.
  - destruct (look_while_shape provider pipeline_name (length initial_ns)
                initial_ns [] ls) as (new & Hcalls & _).
    rewrite Hcalls, new_calls_app in Hpops.
    assert (Hlen : S j ≤ length new).
    { apply (f_equal length) in Hpops.
      rewrite length_take, length_fmap, length_seq in Hpops. lia. }
    destruct (look_while provider pipeline_name (length initial_ns) initial_ns [] ls)
      as [[value|exc|] ls']; cbn [fst snd] in *.
    1,2: by rewrite Hcalls, new_calls_app.
    destruct (look_for_shape pipeline_name ps ls') as (rest & Hrest & _).
    rewrite Hrest, Hcalls, <- app_assoc, new_calls_app.
    by rewrite take_app_le.
  - intros -> Hlast.
    destruct (look_while_break provider pipeline_name initial_ns [] ls)
      as [Hexit Hcalls].
    { intros i Hi. destruct (decide (i = length initial_ns)) as [->|].
      - unfold pop_n. by rewrite Nat.sub_diag.
      - apply Habsent. lia. }
    destruct (look_while provider pipeline_name (length initial_ns) initial_ns [] ls)
      as [exit ls']; cbn [fst snd] in *. subst exit.
    by exists ls'.
Qed.

End LookupProperties.

Section SingleValueProperties.

Context (classes : ClassTable) (C : Container).
Context (key : string) (hint inner_hint : Hint) (config_namespace : option string).
Context (explicit_namespaces embedded_namespaces : list string).

Abbreviation resolve_single :=
  (_resolve_single_value classes C key hint inner_hint config_namespace
     explicit_namespaces embedded_namespaces).

(** The two passes of [_resolve_single_value] over the providers: the
    result, the traces and the log of calls. *)
Lemma resolve_single_value_passes st :
  is_context_hint classes inner_hint = false →
  is_config_hint inner_hint = false →
  let composed :=
    _apply_embedded_namespaces_to_config_namespace config_namespace
      embedded_namespaces in
  let look := look_namespaces classes C key hint composed.1 explicit_namespaces
                composed.2 in
  let first :=
    if truthy_str (ctx_pipeline_name C)
    then look (ctx_pipeline_name C) (mkLState [] (st_calls st))
    else (inr VNone, mkLState [] (st_calls st)) in
  let second :=
    match first.1 with
    | inr VNone => look None first.2
    | _ => first
    end in
  resolve_single st
  = (match second.1 with
     | inl exc => Raise exc
     | inr value => Ret (value, ls_traces second.2)
     end,
     mkState (st_heap st) (ls_calls second.2)).
Proof.
  intros Hctx Hcfg. unfold _resolve_single_value. rewrite Hctx, Hcfg. cbv zeta.
  destruct (_apply_embedded_namespaces_to_config_namespace config_namespace
              embedded_namespaces) as [config_namespace' embedded_namespaces'].
  cbn [fst snd].
  destruct (if truthy_str (ctx_pipeline_name C) then _ else _)
    as [[exc|value] ls1]; cbn [fst snd]; [done|].
  destruct value; cbn [is_none]; try done.
  by destruct (look_namespaces _ _ _ _ _ _ _ None ls1) as [[exc|value] ls2].
Qed.

(** The calls of [_resolve_single_value]: the heap is not touched, the log
    only grows, and no call but the last one of a run that raises is a
    violation of the secret boundary. *)
Lemma resolve_single_value_shape st :
  is_context_hint classes inner_hint = false →
  st_heap (resolve_single st).2 = st_heap st
  ∧ ∃ new, st_calls (resolve_single st).2 = st_calls st ++ new
      ∧ boundary_shape classes hint (raised_of (resolve_single st).1) new.
Proof.
  intros Hctx. destruct (is_config_hint inner_hint) eqn:Hcfg.
  { unfold _resolve_single_value. rewrite Hctx, Hcfg. simpl.
    split; [done|]. exists []. split; [by rewrite app_nil_r|constructor]. }
  rewrite resolve_single_value_passes by done. cbv zeta. cbn [fst snd].
  destruct (_apply_embedded_namespaces_to_config_namespace config_namespace
              embedded_namespaces) as [config_namespace' embedded_namespaces'].
  cbn [fst snd]. split; [done|]. unfold look_namespaces.
  set (ls0 := mkLState [] (st_calls st)).
  assert (Hfirst : ∃ new1,
    ls_calls
      (if truthy_str (ctx_pipeline_name C)
       then look_namespaces_for classes C key hint config_namespace'
              explicit_namespaces embedded_namespaces' (ctx_pipeline_name C)
              (providers C) ls0
       else (inr VNone, ls0)).2 = st_calls st ++ new1
    ∧ boundary_shape classes hint
        (raised_of_result
           (if truthy_str (ctx_pipeline_name C)
            then look_namespaces_for classes C key hint config_namespace'
                   explicit_namespaces embedded_namespaces'
                   (ctx_pipeline_name C) (providers C) ls0
            else (inr VNone, ls0)).1) new1).
  { destruct (truthy_str (ctx_pipeline_name C)).
    - apply look_for_shape.
    - exists []. split; [by rewrite app_nil_r|constructor]. }
  destruct Hfirst as (new1 & Hcalls1 & Hshape1).
  destruct (if truthy_str (ctx_pipeline_name C) then _ else _)
    as [[exc|value] ls1]; cbn [fst snd] in *.
  { by exists new1. }
  assert (Hsecond : ∃ new2,
    ls_calls
      (look_namespaces_for classes C key hint config_namespace'
         explicit_namespaces embedded_namespaces' None (providers C) ls1).2
      = st_calls st ++ new1 ++ new2
    ∧ boundary_shape classes hint
        (raised_of_result
           (look_namespaces_for classes C key hint config_namespace'
              explicit_namespaces embedded_namespaces' None (providers C) ls1).1)
        (new1 ++ new2)).
  { destruct (look_for_shape classes C key hint config_namespace'
                explicit_namespaces embedded_namespaces' None (providers C) ls1)
      as (new2 & Hcalls2 & Hshape2).
    exists new2. rewrite Hcalls1, <- app_assoc in Hcalls2.
    split; [exact Hcalls2|]. by apply shape_quiet_app. }
  destruct value; try by exists new1.
  destruct Hsecond as (new2 & Hcalls2 & Hshape2).
  destruct (look_namespaces_for _ _ _ _ _ _ _ None (providers C) ls1)
    as [[exc|value'] ls2]; cbn [fst snd] in *; by exists (new1 ++ new2).
Qed.

(** The traces returned by [_resolve_single_value]. *)
Lemma resolve_single_value_traces st :
  is_context_hint classes inner_hint = false →
  ∃ new traces,
    st_calls (resolve_single st).2 = st_calls st ++ new
    ∧ Forall2 trace_records traces (held classes hint new)
    ∧ ∀ value traces',
        (resolve_single st).1 = Ret (value, traces') → traces' = traces.
Proof.
  intros Hctx. destruct (is_config_hint inner_hint) eqn:Hcfg.
  { unfold _resolve_single_value. rewrite Hctx, Hcfg. simpl.
    exists [], []. split; [by rewrite app_nil_r|]. split; [constructor|].
    by intros ?? [= _ <-]. }
  rewrite resolve_single_value_passes by done. cbv zeta. cbn [fst snd].
  destruct (_apply_embedded_namespaces_to_config_namespace config_namespace
              embedded_namespaces) as [config_namespace' embedded_namespaces'].
  cbn [fst snd]. unfold look_namespaces.
  set (ls0 := mkLState [] (st_calls st)).
  assert (Hfirst : ∃ new1 traces1,
    ls_calls
      (if truthy_str (ctx_pipeline_name C)
       then look_namespaces_for classes C key hint config_namespace'
              explicit_namespaces embedded_namespaces' (ctx_pipeline_name C)
              (providers C) ls0
       else (inr VNone, ls0)).2 = st_calls st ++ new1
    ∧ ls_traces
      (if truthy_str (ctx_pipeline_name C)
       then look_namespaces_for classes C key hint config_namespace'
              explicit_namespaces embedded_namespaces' (ctx_pipeline_name C)
              (providers C) ls0
       else (inr VNone, ls0)).2 = traces1
    ∧ Forall2 trace_records traces1 (held classes hint new1)).
  { destruct (truthy_str (ctx_pipeline_name C)).
    - destruct (look_for_traces classes C key hint config_namespace'
                  explicit_namespaces embedded_namespaces' (ctx_pipeline_name C)
                  (providers C) ls0) as (new & added & ? & ? & ?).
      by exists new, added.
    - exists [], []. split; [by rewrite app_nil_r|]. split; [done|constructor]. }
  destruct Hfirst as (new1 & traces1 & Hcalls1 & Htraces1 & Hrec1).
  destruct (if truthy_str (ctx_pipeline_name C) then _ else _)
    as [[exc|value] ls1]; cbn [fst snd] in *.
  { exists new1, traces1. by repeat split. }
  assert (Hfound : ∃ new traces,
    ls_calls ls1 = st_calls st ++ new
    ∧ Forall2 trace_records traces (held classes hint new)
    ∧ ∀ (found value : PyVal) (traces' : list LookupTrace),
        Ret (found, ls_traces ls1) = Ret (value, traces') → traces' = traces).
  { exists new1, traces1. repeat split; [done..|]. by intros ??? [= _ <-]. }
  destruct value;
    try (destruct Hfound as (new & traces & ? & ? & Hsame);
         exists new, traces; repeat split; [done..|]; by apply Hsame).
  destruct (look_for_traces classes C key hint config_namespace'
              explicit_namespaces embedded_namespaces' None (providers C) ls1)
    as (new2 & added & Hcalls2 & Htraces2 & Hrec2).
  exists (new1 ++ new2), (traces1 ++ added).
  rewrite Hcalls1, <- app_assoc in Hcalls2. rewrite Htraces1 in Htraces2.
  split; [exact Hcalls2|]. split.
  { unfold held in *. rewrite filter_app. by apply Forall2_app. }
  destruct (look_namespaces_for _ _ _ _ _ _ _ None (providers C) ls1)
    as [[exc|value'] ls2]; cbn [fst snd] in *; [done|].
  intros ?? [= _ <-]. done.
Qed.

(** C8 (amended): the traces returned by a lookup that searches the
    providers, which is every lookup for a field whose type is not an
    injectable context, record, in order, one entry for every call made to a
    provider that can hold the value of the hint: same provider, key and
    value.  The calls made to a provider without secret support for a hint
    that requires secrecy leave no entry.  The lookup for a field of an
    injectable-context type makes one call, to the context provider with the
    empty path, and returns no trace. *)
Theorem lookup_traces_record_held_calls st value traces :
  (resolve_single st).1 = Ret (value, traces) →
  if is_context_hint classes inner_hint
  then traces = []
       ∧ new_calls (st_calls st) (st_calls (resolve_single st).2)
         = [mkCall (context_provider C) key inner_hint []
              (get_value (context_provider C) key inner_hint []).1
              (get_value (context_provider C) key inner_hint []).2]
  else Forall2 trace_records traces
         (held classes hint
            (new_calls (st_calls st) (st_calls (resolve_single st).2))).
Proof.
  destruct (is_context_hint classes inner_hint) eqn:Hctx.
  - unfold _resolve_single_value. rewrite Hctx.
    destruct (get_value (context_provider C) key inner_hint [])
      as [found ns_key].
    cbn [fst snd st_calls]. intros [= _ <-]. by rewrite new_calls_app.
  - intros Hret.
    destruct (resolve_single_value_traces st Hctx)
      as (new & traces0 & Hcalls & Hrec & Hsame).
    rewrite Hcalls, new_calls_app. by rewrite (Hsame _ _ Hret).
Qed.

End SingleValueProperties.

(** C8, counterexample: a secret-typed field is looked up in a provider
    without secret support that holds no value: the provider is queried once
    and the lookup returns no trace at all. *)
Lemma lookup_trace_omits_rejected_provider :
  _resolve_single_value Ex.classes (Ex.container [Ex.empty_config_toml] [])
    "password" HSecret (HType TStr) None [] [] (Ex.no_calls ∅)
  = (Ret (VNone, []),
     mkState ∅ [attempt "password" HSecret None Ex.empty_config_toml None []]).
Proof. reflexivity. Qed.

(** Of the two calls of this lookup only the one to the provider that
    supports secrets is recorded. *)
Lemma lookup_traces_record_held_calls_witness :
  (_resolve_single_value Ex.classes (Ex.container [Ex.empty_config_toml; Ex.P2] [])
     "key" HSecret (HType TStr) None [] [] (Ex.no_calls ∅)).1
  = Ret (VStr "v2", [mkLookupTrace "P2" [] "key" (VStr "v2")])
  ∧ Forall2 trace_records [mkLookupTrace "P2" [] "key" (VStr "v2")]
      (held Ex.classes HSecret
         (new_calls []
            (st_calls
               (_resolve_single_value Ex.classes
                  (Ex.container [Ex.empty_config_toml; Ex.P2] []) "key" HSecret
                  (HType TStr) None [] [] (Ex.no_calls ∅)).2)))
  ∧ Ex.attempts
      (st_calls
         (_resolve_single_value Ex.classes
            (Ex.container [Ex.empty_config_toml; Ex.P2] []) "key" HSecret
            (HType TStr) None [] [] (Ex.no_calls ∅)).2)
    = [("Pipeline config.toml", []); ("P2", [])].
Proof.
  split; [reflexivity|]. split; [|reflexivity].
  apply (lookup_traces_record_held_calls Ex.classes
           (Ex.container [Ex.empty_config_toml; Ex.P2] []) "key" HSecret
           (HType TStr) None [] [] (Ex.no_calls ∅) (VStr "v2"));
    reflexivity.
Defined.

(** C8, the lookup for a field of an injectable-context type: the context
    provider is asked once, which it could hold, and no trace is returned. *)
Lemma context_lookup_leaves_no_trace :
  _resolve_single_value Demo.classes Ex.bare "injected"
    (HType (TClass "Injected")) (HType (TClass "Injected")) None [] []
    (Ex.no_calls ∅)
  = (Ret (VNone, []),
     mkState ∅
       [mkCall Ex.context "injected" (HType (TClass "Injected")) [] VNone
          "injected"])
  ∧ cant_hold_it Demo.classes (HType (TClass "Injected")) Ex.context = false.
Proof. split; reflexivity. Qed.

(** C3, counterexample: with the namespaces a, b and a provider that holds
    no value, the second attempt is made with the list a, the list without
    its last segment, and not with the list b that removing the first
    segment would give. *)
Lemma second_attempt_keeps_outermost :
  Ex.attempts
    (st_calls
       (_resolve_single_value Ex.classes (Ex.container [Ex.P0] ["a"; "b"])
          "key" (HType TStr) (HType TStr) None [] [] (Ex.no_calls ∅)).2)
  = [("P0", ["a"; "b"]); ("P0", ["a"]); ("P0", [])]
  ∧ ["a"] ≠ tail ["a"; "b"].
Proof. split; [reflexivity|discriminate]. Qed.

(** The provider [P0] holds no value: the three attempts are made on the
    lists a, b, then a, then the empty list, and the search goes on with the
    next provider. *)
Lemma namespace_fallback_pops_innermost_witness :
  Ex.attempts
    (take 3
       (new_calls []
          (ls_calls
             (look_namespaces_for Ex.classes
                (Ex.container [Ex.P0; Ex.P2] ["a"; "b"]) "key" (HType TStr)
                None [] [] None [Ex.P0; Ex.P2] (mkLState [] [])).2)))
  = [("P0", ["a"; "b"]); ("P0", ["a"]); ("P0", [])]
  ∧ ∃ ls',
      look_namespaces_for Ex.classes (Ex.container [Ex.P0; Ex.P2] ["a"; "b"])
        "key" (HType TStr) None [] [] None [Ex.P0; Ex.P2] (mkLState [] [])
      = look_namespaces_for Ex.classes (Ex.container [Ex.P0; Ex.P2] ["a"; "b"])
          "key" (HType TStr) None [] [] None [Ex.P2] ls'
      ∧ Ex.attempts (ls_calls ls')
        = [("P0", ["a"; "b"]); ("P0", ["a"]); ("P0", [])].
Proof.
  destruct (namespace_fallback_pops_innermost Ex.classes
              (Ex.container [Ex.P0; Ex.P2] ["a"; "b"]) "key" (HType TStr) None
              [] [] None Ex.P0 [Ex.P2] (mkLState [] []) 2%nat eq_refl
              (le_n 2)) as [Hcalls Hnext].
  { intros [|[|i]] Hi; [reflexivity..|lia]. }
  split; [exact (eq_trans (f_equal Ex.attempts Hcalls) eq_refl)|].
  destruct (Hnext eq_refl eq_refl) as (ls' & Heq & Hls').
  exists ls'. split; [exact Heq|].
  exact (eq_trans (f_equal Ex.attempts Hls') eq_refl).
Defined.

Section FallbackOrder.

Context (classes : ClassTable) (context : ConfigProvider).
Context (P1 P2 : ConfigProvider) (key : string) (hint inner_hint : Hint).

Abbreviation two_providers := (two_providers context P1 P2).
Abbreviation lookup :=
  (_resolve_single_value classes two_providers key hint inner_hint None [] []).
Abbreviation at_ := (attempt key hint None).

Lemma not_secret_no_violation (c : Call) :
  _is_secret_hint classes hint = false → violation classes hint c = false.
Proof.
  intros Hhint. unfold violation, cant_hold_it. rewrite Hhint.
  by rewrite !andb_false_r.
Qed.

(** C2 (amended): with two providers that support namespaces, the ambient
    namespaces a, b, no pipeline name and no config namespace, the lookup of
    a field that is neither secret nor a configuration tries P1 under a, b,
    then a, then the empty path, then P2 under the same three paths, and
    stops at the first value found.  When P1 holds a value under a, b the
    lookup makes this one attempt and returns P1's value.  All six attempts
    are made, in this order, when P1 holds no value and P2 holds one only
    under the empty path, and the lookup returns that value. *)
Theorem fallback_order_stops_at_first_value st :
  supports_namespaces P1 = true →
  supports_namespaces P2 = true →
  is_context_hint classes inner_hint = false →
  is_config_hint inner_hint = false →
  _is_secret_hint classes hint = false →
  (is_none (call_value (at_ P1 None ["a"; "b"])) = false →
   (lookup st).1
   = Ret (call_value (at_ P1 None ["a"; "b"]),
          [trace_of_call (at_ P1 None ["a"; "b"])])
   ∧ st_calls (lookup st).2 = st_calls st ++ [at_ P1 None ["a"; "b"]])
  ∧ (is_none (call_value (at_ P1 None ["a"; "b"])) = true →
     is_none (call_value (at_ P1 None ["a"])) = true →
     is_none (call_value (at_ P1 None [])) = true →
     is_none (call_value (at_ P2 None ["a"; "b"])) = true →
     is_none (call_value (at_ P2 None ["a"])) = true →
     is_none (call_value (at_ P2 None [])) = false →
     (∃ traces, (lookup st).1 = Ret (call_value (at_ P2 None []), traces))
     ∧ st_calls (lookup st).2
       = st_calls st
         ++ [at_ P1 None ["a"; "b"]; at_ P1 None ["a"]; at_ P1 None [];
             at_ P2 None ["a"; "b"]; at_ P2 None ["a"]; at_ P2 None []]).
Proof.
  intros Hns1 Hns2 Hctx Hcfg Hhint.
  rewrite resolve_single_value_passes by done. cbv zeta.
  change (_apply_embedded_namespaces_to_config_namespace None [])
    with (@None string, @nil string).
  cbn [fst snd ctx_pipeline_name two_providers truthy_str].
  unfold look_namespaces. cbn [providers two_providers].
  rewrite look_for_step, Hns1. unfold search_provider.
  change (initial_ns two_providers [] []) with ["a"; "b"].
  change (length ["a"; "b"]) with 2%nat.
  assert (Hcant : ∀ p, cant_hold_it classes hint p = false).
  { intros p. unfold cant_hold_it. by rewrite Hhint, andb_false_r. }
  split.
  - intros Hfound. rewrite look_while_step. cbv zeta.
    rewrite not_secret_no_violation, Hfound, Hcant by done.
    cbn [fst snd ls_calls ls_traces app]. unfold seal_traces, copies_ns.
    rewrite Hns1. cbn [truthy_str orb andb].
    destruct (call_value (at_ P1 None ["a"; "b"])) eqn:Hvalue; try done.
  - intros H1 H2 H3 H4 H5 Hfound.
    do 3 (rewrite look_while_step; cbv zeta;
          rewrite not_secret_no_violation, ?H1, ?H2, ?H3, Hcant by done;
          cbn [removelast]).
    rewrite look_for_step, Hns2. unfold search_provider.
    change (initial_ns two_providers [] []) with ["a"; "b"].
    change (length ["a"; "b"]) with 2%nat.
    do 3 (rewrite look_while_step; cbv zeta;
          rewrite not_secret_no_violation, ?H4, ?H5, ?Hfound, Hcant by done;
          cbn [removelast]).
    cbn [fst snd ls_calls ls_traces]. rewrite <- !app_assoc.
    destruct (call_value (at_ P2 None [])) eqn:Hvalue; try done.
    all: split; [by eexists|done].
Qed.

End FallbackOrder.

(** C2, counterexample: with P1 holding a value under a, b only, P2 under
    the empty path only and the ambient namespaces a, b, the lookup makes one
    attempt, P1 under a, b, and returns P1's value; it does not perform the
    six attempts. *)
Lemma fallback_stops_after_first_attempt :
  Ex.attempts
    (st_calls
       (_resolve_single_value Ex.classes (Ex.container [Ex.P1; Ex.P2] ["a"; "b"])
          "key" (HType TStr) (HType TStr) None [] [] (Ex.no_calls ∅)).2)
  = [("P1", ["a"; "b"])]
  ∧ (_resolve_single_value Ex.classes (Ex.container [Ex.P1; Ex.P2] ["a"; "b"])
       "key" (HType TStr) (HType TStr) None [] [] (Ex.no_calls ∅)).1
    = Ret (VStr "v1", [mkLookupTrace "P1" ["a"; "b"] "a.b.key" (VStr "v1")])
  ∧ [("P1", ["a"; "b"])]
    ≠ [("P1", ["a"; "b"]); ("P1", ["a"]); ("P1", []);
       ("P2", ["a"; "b"]); ("P2", ["a"]); ("P2", [])].
Proof. split; [reflexivity|]. split; [reflexivity|discriminate]. Qed.

(** With [P1] the lookup stops after the first attempt; with [P0], which
    holds no value, in place of [P1] it makes the six attempts in order and
    returns the value of [P2]. *)
Lemma fallback_order_stops_at_first_value_witness :
  ((_resolve_single_value Ex.classes (two_providers Ex.context Ex.P1 Ex.P2)
      "key" (HType TStr) (HType TStr) None [] [] (Ex.no_calls ∅)).1
   = Ret (VStr "v1", [mkLookupTrace "P1" ["a"; "b"] "a.b.key" (VStr "v1")])
   ∧ Ex.attempts
       (st_calls
          (_resolve_single_value Ex.classes (two_providers Ex.context Ex.P1 Ex.P2)
             "key" (HType TStr) (HType TStr) None [] [] (Ex.no_calls ∅)).2)
     = [("P1", ["a"; "b"])])
  ∧ ((∃ traces,
        (_resolve_single_value Ex.classes (two_providers Ex.context Ex.P0 Ex.P2)
           "key" (HType TStr) (HType TStr) None [] [] (Ex.no_calls ∅)).1
        = Ret (VStr "v2", traces))
     ∧ Ex.attempts
         (st_calls
            (_resolve_single_value Ex.classes
               (two_providers Ex.context Ex.P0 Ex.P2)
               "key" (HType TStr) (HType TStr) None [] [] (Ex.no_calls ∅)).2)
       = [("P0", ["a"; "b"]); ("P0", ["a"]); ("P0", []);
          ("P2", ["a"; "b"]); ("P2", ["a"]); ("P2", [])]).
Proof.
  split.
  - destruct (fallback_order_stops_at_first_value Ex.classes Ex.context Ex.P1
                Ex.P2 "key" (HType TStr) (HType TStr) (Ex.no_calls ∅)
                eq_refl eq_refl eq_refl eq_refl eq_refl) as [Hfirst _].
    destruct (Hfirst eq_refl) as [Hret Hcalls].
    split; [exact Hret|exact (eq_trans (f_equal Ex.attempts Hcalls) eq_refl)].
  - destruct (fallback_order_stops_at_first_value Ex.classes Ex.context Ex.P0
                Ex.P2 "key" (HType TStr) (HType TStr) (Ex.no_calls ∅)
                eq_refl eq_refl eq_refl eq_refl eq_refl) as [_ Hall].
    destruct (Hall eq_refl eq_refl eq_refl eq_refl eq_refl eq_refl)
      as [Hret Hcalls].
    split; [exact Hret|exact (eq_trans (f_equal Ex.attempts Hcalls) eq_refl)].
Defined.

(** ** The orchestrator *)

Section OrchestratorProperties.

Context {rt : Runtime} (classes : ClassTable) (C : Container).

Lemma bind_Ret {A B} (m : M A) (k : A → M B) st a st' :
  m st = (Ret a, st') → bind m k st = k a st'.
Proof. unfold bind. by intros ->. Qed.

Lemma truthy_not_none (v : PyVal) : truthy classes v = true → is_none v = false.
Proof. by destruct v. Qed.

Lemma py_or_truthy (a b : PyVal) : truthy classes a = true → py_or classes a b = a.
Proof. unfold py_or. by intros ->. Qed.

(** The explicit value the loop computes for a field. *)
Lemma explicit_value_for_get explicit_values st key explicit_value :
  explicit_value_for classes explicit_values st key = inr explicit_value →
  (if truthy classes explicit_values
   then λ st, lift_result (py_get classes (st_heap st) explicit_values key) st
   else ret VNone) st
  = (Ret explicit_value, st).
Proof.
  unfold explicit_value_for. destruct (truthy classes explicit_values).
  - by intros ->.
  - by intros [= <-].
Qed.

(** C4 (amended): for every field whose type is not an embedded
    configuration and for which the caller supplies an explicit value that is
    true in the sense of Python, the resolution of the field returns the
    explicit value itself with an empty trace and leaves the state as it
    was: no provider is queried, and since this holds for every runtime, no
    coercion is applied.  The loop over the fields then sets the attribute to
    that value and records nothing as unresolved. *)
Theorem explicit_value_is_stored_verbatim (rec : Resolve) (key : string)
    (hint : Hint) (default_value explicit_value : PyVal) (config : ClassId * loc)
    (config_namespace : option string)
    (explicit_namespaces embedded_namespaces : list string)
    (accept_partial : bool) (st : State) :
  truthy classes explicit_value = true →
  is_embedded_configuration classes hint = false →
  _resolve_config_field classes C rec key hint default_value explicit_value
    config config_namespace explicit_namespaces embedded_namespaces
    accept_partial st
  = (Ret (explicit_value, []), st)
  ∧ ∀ explicit_values fields unresolved_fields,
      explicit_value_for classes explicit_values st key = inr explicit_value →
      resolve_fields_loop classes C rec config explicit_values
        explicit_namespaces embedded_namespaces accept_partial
        ((key, hint) :: fields) unresolved_fields st
      = resolve_fields_loop classes C rec config explicit_values
          explicit_namespaces embedded_namespaces accept_partial fields
          unresolved_fields (setattr config.2 key explicit_value st).2.
Proof.
  intros Htruthy Hembedded.
  assert (Hfield : ∀ default_value config_namespace,
    _resolve_config_field classes C rec key hint default_value explicit_value
      config config_namespace explicit_namespaces embedded_namespaces
      accept_partial st
    = (Ret (explicit_value, []), st)).
  { clear default_value config_namespace. intros default_value config_namespace.
    unfold _resolve_config_field. rewrite Htruthy.
    unfold is_embedded_configuration, inner_hint_of in Hembedded.
    cbv zeta in Hembedded. unfold bind, ret. cbn [orb].
    destruct (is_context_hint classes _) eqn:Hctx.
    { by rewrite py_or_truthy. }
    rewrite andb_true_r in Hembedded.
    rewrite (truthy_not_none _ Htruthy). cbn [negb].
    destruct (default _ (get_origin _)) as [|[]| | | |]; try done.
    all: by rewrite py_or_truthy. }
  split; [apply Hfield|].
  intros explicit_values fields unresolved_fields Hexplicit.
  cbn [resolve_fields_loop].
  rewrite (bind_Ret _ _ st explicit_value st)
    by (by apply explicit_value_for_get).
  unfold bind, ret, get_obj. rewrite Hfield.
  by rewrite (truthy_not_none _ Htruthy), andb_false_r.
Qed.

Lemma missing_fields_cons key hint value traces outcomes :
  missing_fields ((key, hint, value, traces) :: outcomes)
  = (if negb (is_optional_type hint) && is_none value then [(key, traces)] else [])
    ++ missing_fields outcomes.
Proof.
  unfold missing_fields. simpl.
  by destruct (negb (is_optional_type hint) && is_none value).
Qed.

Lemma dict_set_fresh {A} (key : string) (value : A) (d : list (string * A)) :
  key ∉ d.*1 → dict_set key value d = d ++ [(key, value)].
Proof.
  induction d as [|[k v] d IH]; intros Hfresh; [done|].
  simpl in *. apply not_elem_of_cons in Hfresh as [Hne Hfresh].
  destruct (String.eqb_spec k key) as [->|_]; [done|].
  by rewrite IH.
Qed.

(** The loop of [_resolve_config_fields] along a run in which every field
    returns: the missing fields are added to [unresolved_fields] in order. *)
Lemma resolve_fields_loop_run (rec : Resolve) (config : ClassId * loc)
    (explicit_values : PyVal) (explicit_namespaces embedded_namespaces : list string)
    (accept_partial : bool) fields st outcomes st' unresolved_fields :
  fields_run classes C rec config explicit_values explicit_namespaces
    embedded_namespaces accept_partial fields st outcomes st' →
  NoDup fields.*1 →
  (∀ key, key ∈ fields.*1 → key ∉ unresolved_fields.*1) →
  resolve_fields_loop classes C rec config explicit_values explicit_namespaces
    embedded_namespaces accept_partial fields unresolved_fields st
  = (Ret (unresolved_fields ++ missing_fields outcomes), st').
Proof.
  intros Hrun. revert unresolved_fields.
  induction Hrun as [st|key hint fields st explicit_value current_value traces
                        st1 outcomes st' Hexplicit Hfield Hrun IH];
    intros unresolved_fields Hnodup Hfresh.
  { simpl. by rewrite app_nil_r. }
  cbn [resolve_fields_loop].
  rewrite (bind_Ret _ _ st explicit_value st)
    by (by apply explicit_value_for_get).
  rewrite (bind_Ret _ _ st (heap_obj (st_heap st) config.2) st) by done.
  rewrite (bind_Ret _ _ _ _ _ Hfield).
  rewrite (bind_Ret _ _ st1 () (setattr config.2 key current_value st1).2) by done.
  simpl in Hnodup. apply NoDup_cons in Hnodup as [Hkey Hnodup].
  assert (Hhere : key ∈ ((key, hint) :: fields).*1) by apply list_elem_of_here.
  assert (Hstep :
    (if negb (is_optional_type hint) && is_none current_value
     then dict_set key traces unresolved_fields else unresolved_fields)
    ++ missing_fields outcomes
    = unresolved_fields
      ++ missing_fields ((key, hint, current_value, traces) :: outcomes)).
  { rewrite missing_fields_cons.
    destruct (negb (is_optional_type hint) && is_none current_value); [|done].
    rewrite dict_set_fresh by by apply Hfresh.
    by rewrite <- app_assoc. }
  rewrite IH; [by rewrite Hstep|done|].
  intros k Hk.
  assert (k ∉ unresolved_fields.*1)
    by (apply Hfresh; by apply list_elem_of_further).
  destruct (negb (is_optional_type hint) && is_none current_value); [|done].
  rewrite dict_set_fresh by by apply Hfresh.
  rewrite fmap_app. simpl.
  intros [Hin|Hin%list_elem_of_singleton]%elem_of_app; [done|by subst].
Qed.

Lemma fields_run_keys (rec : Resolve) (config : ClassId * loc)
    (explicit_values : PyVal) (explicit_namespaces embedded_namespaces : list string)
    (accept_partial : bool) fields st outcomes st' :
  fields_run classes C rec config explicit_values explicit_namespaces
    embedded_namespaces accept_partial fields st outcomes st' →
  (λ o : FieldOutcome, o.1.1.1) <$> outcomes = fields.*1.
Proof. induction 1; simpl; by f_equal. Qed.

(** C7: when the resolution of every declared field returns, the loop
    processes all the declared fields, sets each to its value, and only then
    fails: the non-optional fields whose value is [None] are collected, and
    if there is any, one [ConfigFieldMissingException] is raised that
    carries the name of the class and, for exactly these fields, in order,
    the traces of the field's lookup. *)
Theorem missing_fields_are_collected (rec : Resolve) (config : ClassId * loc)
    (explicit_values : PyVal) (explicit_namespaces embedded_namespaces : list string)
    (accept_partial : bool) (st : State) (outcomes : list FieldOutcome)
    (st' : State) :
  NoDup (cls_fields (classes config.1)).*1 →
  fields_run classes C rec config explicit_values explicit_namespaces
    embedded_namespaces accept_partial (cls_fields (classes config.1)) st
    outcomes st' →
  (λ o : FieldOutcome, o.1.1.1) <$> outcomes = (cls_fields (classes config.1)).*1
  ∧ _resolve_config_fields classes C rec config explicit_values
      explicit_namespaces embedded_namespaces accept_partial st
    = (match missing_fields outcomes with
       | [] => Ret ()
       | _ :: _ =>
           Raise (ConfigFieldMissingException (cls_name (classes config.1))
                    (missing_fields outcomes))
       end, st').
Proof.
  intros Hnodup Hrun. split; [by eapply fields_run_keys|].
  unfold _resolve_config_fields, bind.
  rewrite (resolve_fields_loop_run _ _ _ _ _ _ _ _ _ _ [] Hrun Hnodup).
  - simpl. by destruct (missing_fields outcomes).
  - intros key _. simpl. apply not_elem_of_nil.
Qed.

(** A lookup for a hint that does not require secrecy returns. *)
Lemma resolve_single_value_returns key hint inner_hint config_namespace
    explicit_namespaces embedded_namespaces st :
  _is_secret_hint classes hint = false →
  is_context_hint classes inner_hint = false →
  ∃ value traces,
    (_resolve_single_value classes C key hint inner_hint config_namespace
       explicit_namespaces embedded_namespaces st).1 = Ret (value, traces).
Proof.
  intros Hhint Hctx.
  destruct (resolve_single_value_shape classes C key hint inner_hint
              config_namespace explicit_namespaces embedded_namespaces st Hctx)
    as (_ & new & _ & Hshape).
  destruct (is_config_hint inner_hint) eqn:Hcfg.
  { unfold _resolve_single_value. rewrite Hctx, Hcfg. by eexists _, _. }
  rewrite resolve_single_value_passes in Hshape |- * by done.
  cbv zeta in Hshape |- *. cbn [fst] in Hshape |- *.
  destruct (match _ with inr VNone => _ | _ => _ end).1 as [exc|value];
    [|by eexists _, _].
  destruct Hshape as (quiet & c & _ & _ & Hviolation & _).
  by rewrite not_secret_no_violation in Hviolation.
Qed.

(** The lookup of a whole-object value that [resolve_configuration] makes
    under the namespace of the object as key: it returns, and the state it
    leaves is the one of the lookup. *)
Lemma resolve_initial_value (rec : Resolve) key config namespaces accept_partial st :
  ∃ value traces,
    _resolve_config_field classes C rec key HAny VNone VNone config None
      namespaces [] accept_partial st
    = (Ret (value, traces),
       (_resolve_single_value classes C key HAny HAny None namespaces [] st).2).
Proof.
  unfold _resolve_config_field. cbn [truthy extract_inner_type get_config_if_union
    get_origin default is_context_hint orb].
  destruct (resolve_single_value_returns key HAny HAny None namespaces [] st)
    as (value & traces & Hret); [done..|].
  destruct (_resolve_single_value classes C key HAny HAny None namespaces [] st)
    as [out st1] eqn:Hsingle. cbn [fst snd] in *. subst out.
  rewrite (bind_Ret _ _ _ _ _ Hsingle).
  exists (py_or classes value VNone), traces.
  destruct (negb (is_none value)); [|done].
  by destruct (py_is value VNone).
Qed.

(** [_resolve_configuration] on a resolved instance. *)
Lemma resolve_configuration_resolved depth config explicit_namespaces
    embedded_namespaces explicit_value accept_partial st :
  obj_is_resolved (heap_obj (st_heap st) config.2) = true →
  _resolve_configuration classes C depth config explicit_namespaces
    embedded_namespaces explicit_value accept_partial st
  = (Ret (VConfig config.1 config.2), st).
Proof.
  intros Hresolved.
  destruct depth; cbn [_resolve_configuration];
    unfold _resolve_configuration_body;
    rewrite (bind_Ret _ _ st true st); by rewrite <- ?Hresolved.
Qed.

(** C9 (amended): on an instance that is already resolved,
    [_resolve_configuration] returns the same instance and leaves the state
    as it was: every field, the resolution flag and the stored exception are
    unchanged and no provider is queried.  The entry point
    [resolve_configuration] returns the same instance and leaves the heap,
    hence the instance, unchanged as well; it queries no provider when the
    instance has no namespace or an explicit value is given, and otherwise
    its queries are those of one lookup of a whole-object value under the
    namespace of the instance as key. *)
Theorem resolve_resolved_is_noop (depth : nat) (c : ClassId) (r : loc)
    (namespaces embedded_namespaces : list string) (explicit_value : PyVal)
    (accept_partial : bool) (st : State) :
  obj_is_resolved (heap_obj (st_heap st) r) = true →
  _resolve_configuration classes C depth (c, r) namespaces embedded_namespaces
    explicit_value accept_partial st
  = (Ret (VConfig c r), st)
  ∧ (resolve_configuration classes C depth (VConfig c r) namespaces
       explicit_value accept_partial st).1
    = Ret (VConfig c r)
  ∧ st_heap
      (resolve_configuration classes C depth (VConfig c r) namespaces
         explicit_value accept_partial st).2
    = st_heap st
  ∧ (resolve_configuration classes C depth (VConfig c r) namespaces
       explicit_value accept_partial st).2
    = if truthy_str (obj_namespace (heap_obj (st_heap st) r))
         && is_none explicit_value
      then (_resolve_single_value classes C
              (default "" (obj_namespace (heap_obj (st_heap st) r))) HAny HAny
              None namespaces [] st).2
      else st.
Proof.
  intros Hresolved.
  split. { by apply (resolve_configuration_resolved depth (c, r)). }
  unfold resolve_configuration.
  rewrite (bind_Ret _ _ st (heap_obj (st_heap st) r) st) by done.
  destruct (truthy_str (obj_namespace (heap_obj (st_heap st) r))
            && is_none explicit_value) eqn:Hlook.
  - apply andb_true_iff in Hlook as [_ Hnone].
    destruct explicit_value; try done.
    destruct (resolve_initial_value (_resolve_configuration classes C depth)
                (default "" (obj_namespace (heap_obj (st_heap st) r))) (c, r)
                namespaces accept_partial st) as (value & traces & Hfield).
    destruct (resolve_single_value_shape classes C
                (default "" (obj_namespace (heap_obj (st_heap st) r))) HAny HAny
                None namespaces [] st eq_refl) as (Hheap & _).
    set (st1 := (_resolve_single_value classes C _ HAny HAny None namespaces [] st).2)
      in *.
    rewrite (bind_Ret _ _ st value st1).
    2: { by rewrite (bind_Ret _ _ _ _ _ Hfield). }
    rewrite (resolve_configuration_resolved depth (c, r));
      [done|by rewrite Hheap].
  - rewrite (bind_Ret _ _ st explicit_value st) by done.
    by rewrite (resolve_configuration_resolved depth (c, r)).
Qed.

(** An exception of the lookup is the exception of the field: no value is
    returned for it. *)
Lemma resolve_config_field_raises (rec : Resolve) key hint default_value
    explicit_value config config_namespace explicit_namespaces
    embedded_namespaces accept_partial st exc st' :
  truthy classes explicit_value = false →
  _resolve_single_value classes C key hint (inner_hint_of hint) config_namespace
    explicit_namespaces embedded_namespaces st = (Raise exc, st') →
  _resolve_config_field classes C rec key hint default_value explicit_value
    config config_namespace explicit_namespaces embedded_namespaces
    accept_partial st
  = (Raise exc, st').
Proof.
  intros Hexplicit Hraise. unfold _resolve_config_field. rewrite Hexplicit.
  unfold inner_hint_of in Hraise. cbv zeta in Hraise.
  unfold bind at 1. by rewrite Hraise.
Qed.

(** C1: in every lookup of a field that is not an injectable context, a
    call in which a provider without secret support returns a value for a
    hint that requires secrecy ([TSecretValue] or a credentials class) is the
    last call of the lookup: no later namespace suffix and no later provider
    is tried, and the lookup raises [ValueNotSecretException] with the name
    of that provider and the key it reported.  The resolution of the field
    that makes this lookup raises the same exception: it returns no value
    for the field. *)
Theorem secret_boundary_raises (key : string) (hint inner_hint : Hint)
    (config_namespace : option string)
    (explicit_namespaces embedded_namespaces : list string) (st : State)
    (l1 : list Call) (c : Call) (l2 : list Call) :
  is_context_hint classes inner_hint = false →
  new_calls (st_calls st)
    (st_calls
       (_resolve_single_value classes C key hint inner_hint config_namespace
          explicit_namespaces embedded_namespaces st).2)
  = l1 ++ c :: l2 →
  is_none (call_value c) = false →
  supports_secrets (call_provider c) = false →
  _is_secret_hint classes hint = true →
  l2 = []
  ∧ (_resolve_single_value classes C key hint inner_hint config_namespace
       explicit_namespaces embedded_namespaces st).1
    = Raise (ValueNotSecretException (name (call_provider c)) (call_ns_key c))
  ∧ ∀ (rec : Resolve) default_value explicit_value config accept_partial,
      inner_hint = inner_hint_of hint →
      truthy classes explicit_value = false →
      (_resolve_config_field classes C rec key hint default_value
         explicit_value config config_namespace explicit_namespaces
         embedded_namespaces accept_partial st).1
      = Raise (ValueNotSecretException (name (call_provider c)) (call_ns_key c)).
Proof.
  intros Hctx Hnew Hvalue Hsecrets Hhint.
  destruct (resolve_single_value_shape classes C key hint inner_hint
              config_namespace explicit_namespaces embedded_namespaces st Hctx)
    as (_ & new & Hcalls & Hshape).
  rewrite Hcalls, new_calls_app in Hnew.
  destruct (shape_violation classes hint _ new l1 c l2 Hshape Hnew)
    as [-> Hraised].
  { unfold violation, cant_hold_it. by rewrite Hvalue, Hsecrets, Hhint. }
  split; [done|].
  destruct (_resolve_single_value classes C key hint inner_hint config_namespace
              explicit_namespaces embedded_namespaces st)
    as [[ |exc| ] st1] eqn:Hlookup; simplify_eq/=.
  split; [done|].
  intros rec default_value explicit_value config accept_partial -> Hexplicit.
  by rewrite (resolve_config_field_raises _ _ _ _ _ _ _ _ _ _ _ _ _
                Hexplicit Hlookup).
Qed.

End OrchestratorProperties.

(** The secret boundary at work: the provider that cannot hold secrets has
    no value under the path a, has the password under the empty path, and the
    lookup raises there without consulting the second provider. *)
Lemma secret_boundary_raises_witness :
  Ex.attempts
    (st_calls
       (_resolve_single_value Ex.classes
          (Ex.container [Ex.config_toml; Ex.P2] ["a"]) "password" HSecret
          (HType TStr) None [] [] (Ex.no_calls ∅)).2)
  = [("Pipeline config.toml", ["a"]); ("Pipeline config.toml", [])]
  ∧ (_resolve_single_value Ex.classes
       (Ex.container [Ex.config_toml; Ex.P2] ["a"]) "password" HSecret
       (HType TStr) None [] [] (Ex.no_calls ∅)).1
    = Raise (ValueNotSecretException "Pipeline config.toml" "password")
  ∧ (_resolve_config_field (rt := Ref.runtime) Ex.classes
       (Ex.container [Ex.config_toml; Ex.P2] ["a"])
       (_resolve_configuration (rt := Ref.runtime) Ex.classes
          (Ex.container [Ex.config_toml; Ex.P2] ["a"]) 0)
       "password" HSecret VNone VNone ("Server", 1%positive) None [] [] false
       (Ex.no_calls ∅)).1
    = Raise (ValueNotSecretException "Pipeline config.toml" "password").
Proof.
  split; [reflexivity|].
  destruct (secret_boundary_raises (rt := Ref.runtime) Ex.classes
              (Ex.container [Ex.config_toml; Ex.P2] ["a"]) "password" HSecret
              (HType TStr) None [] [] (Ex.no_calls ∅)
              [attempt "password" HSecret None Ex.config_toml None ["a"]]
              (attempt "password" HSecret None Ex.config_toml None []) []
              eq_refl eq_refl eq_refl eq_refl eq_refl)
    as (_ & Hlookup & Hfield).
  split; [exact Hlookup|].
  exact (Hfield _ VNone VNone ("Server", 1%positive) false eq_refl eq_refl).
Defined.

(** C4, counterexample: the field [db] of [App] is an embedded [Db]
    configuration and the caller supplies an instance of [Db] as explicit
    value: the resolution of the field queries the provider for a
    whole-object value under the key [db], then for the field [name] of the
    instance, and returns a trace that is not empty. *)
Lemma explicit_configuration_queries_providers :
  truthy Ex.classes (VConfig "Db" 1%positive) = true
  ∧ (_resolve_config_field (rt := Ref.runtime) Ex.classes Ex.bare
       (_resolve_configuration (rt := Ref.runtime) Ex.classes Ex.bare 0)
       "db" (HType (TClass "Db")) VNone (VConfig "Db" 1%positive)
       ("App", 2%positive) None [] [] false (Ex.no_calls Ex.heap_app)).1
    = Ret (VConfig "Db" 1%positive, [mkLookupTrace "P0" [] "db" VNone])
  ∧ Ex.attempts
      (st_calls
         (_resolve_config_field (rt := Ref.runtime) Ex.classes Ex.bare
            (_resolve_configuration (rt := Ref.runtime) Ex.classes Ex.bare 0)
            "db" (HType (TClass "Db")) VNone (VConfig "Db" 1%positive)
            ("App", 2%positive) None [] [] false (Ex.no_calls Ex.heap_app)).2)
    = [("P0", []); ("P0", ["db"])].
Proof. split; [reflexivity|]. split; vm_compute; reflexivity. Qed.

(** An explicit port for the integer field [port] of [Server]: the value is
    returned as it is, with no trace, and the state is unchanged. *)
Lemma explicit_value_is_stored_verbatim_witness :
  _resolve_config_field (rt := Ref.runtime) Ex.classes Ex.bare
    (_resolve_configuration (rt := Ref.runtime) Ex.classes Ex.bare 0)
    "port" (HType TInt) (VInt 5) (VInt 8080) ("Server", 1%positive) None [] []
    false (Ex.no_calls Ex.heap_server)
  = (Ret (VInt 8080, []), Ex.no_calls Ex.heap_server).
Proof.
  exact (proj1 (explicit_value_is_stored_verbatim (rt := Ref.runtime) Ex.classes
                  Ex.bare
                  (_resolve_configuration (rt := Ref.runtime) Ex.classes Ex.bare 0)
                  "port" (HType TInt) (VInt 5) (VInt 8080) ("Server", 1%positive)
                  None [] [] false (Ex.no_calls Ex.heap_server) eq_refl eq_refl)).
Defined.

(** The two required fields of [Server] are not found: both are looked up
    and set, and one exception lists the two with their traces. *)
Lemma missing_fields_are_collected_witness :
  (_resolve_config_fields (rt := Ref.runtime) Ex.classes Ex.bare
     (_resolve_configuration (rt := Ref.runtime) Ex.classes Ex.bare 0)
     ("Server", 1%positive) VNone [] [] false (Ex.no_calls Ex.heap_server)).1
  = Raise (ConfigFieldMissingException "Server"
             [("host", [mkLookupTrace "P0" [] "host" VNone]);
              ("port", [mkLookupTrace "P0" [] "port" VNone])]).
Proof.
  pose proof (missing_fields_are_collected (rt := Ref.runtime) Ex.classes Ex.bare
                (_resolve_configuration (rt := Ref.runtime) Ex.classes Ex.bare 0)
                ("Server", 1%positive) VNone [] [] false
                (Ex.no_calls Ex.heap_server)) as Hcollected.
  edestruct Hcollected as [_ Hraise].
  - change (NoDup ["host"; "port"]).
    apply NoDup_cons. split; [|apply NoDup_singleton].
    intros Hin%list_elem_of_singleton. discriminate.
  - eapply fields_run_cons; [reflexivity|reflexivity|].
    eapply fields_run_cons; [reflexivity|reflexivity|].
    apply fields_run_nil.
  - exact (eq_trans (f_equal fst Hraise) eq_refl).
Defined.

(** C9, counterexample: a resolved instance with the namespace [db] is
    resolved again through [resolve_configuration] with no explicit value:
    the same instance is returned and the heap is unchanged, but the
    provider has been queried for the key [db]. *)
Lemma resolve_again_queries_providers :
  (resolve_configuration (rt := Ref.runtime) Ex.classes Ex.bare 0
     (VConfig "Db" 1%positive) [] VNone false (Ex.no_calls Ex.heap_resolved_db)).1
  = Ret (VConfig "Db" 1%positive)
  ∧ st_heap
      (resolve_configuration (rt := Ref.runtime) Ex.classes Ex.bare 0
         (VConfig "Db" 1%positive) [] VNone false (Ex.no_calls Ex.heap_resolved_db)).2
    = Ex.heap_resolved_db
  ∧ Ex.attempts
      (st_calls
         (resolve_configuration (rt := Ref.runtime) Ex.classes Ex.bare 0
            (VConfig "Db" 1%positive) [] VNone false (Ex.no_calls Ex.heap_resolved_db)).2)
    = [("P0", [])].
Proof. repeat split; vm_compute; reflexivity. Qed.

(** A resolved instance with the namespace [db]: [_resolve_configuration]
    leaves the state as it is, and [resolve_configuration] returns the
    instance and leaves the heap as it is. *)
Lemma resolve_resolved_is_noop_witness :
  _resolve_configuration (rt := Ref.runtime) Ex.classes Ex.bare 0
    ("Db", 1%positive) [] [] VNone false (Ex.no_calls Ex.heap_resolved_db)
  = (Ret (VConfig "Db" 1%positive), Ex.no_calls Ex.heap_resolved_db)
  ∧ (resolve_configuration (rt := Ref.runtime) Ex.classes Ex.bare 0
       (VConfig "Db" 1%positive) [] VNone false (Ex.no_calls Ex.heap_resolved_db)).1
    = Ret (VConfig "Db" 1%positive)
  ∧ st_heap
      (resolve_configuration (rt := Ref.runtime) Ex.classes Ex.bare 0
         (VConfig "Db" 1%positive) [] VNone false (Ex.no_calls Ex.heap_resolved_db)).2
    = Ex.heap_resolved_db.
Proof.
  destruct (resolve_resolved_is_noop (rt := Ref.runtime) Ex.classes Ex.bare 0
              "Db" 1%positive [] [] VNone false
              (Ex.no_calls Ex.heap_resolved_db) eq_refl)
    as (Hinner & Hret & Hheap & _).
  split; [exact Hinner|]. split; [exact Hret|exact Hheap].
Defined.

(** ** Further behaviour of the code on the examples *)

(** An explicit value that is false in the sense of Python is treated as
    not supplied ([if explicit_value:]): with the explicit port 0 the provider
    is queried and the default 5 is returned. *)
Lemma explicit_zero_is_looked_up :
  _resolve_config_field (rt := Ref.runtime) Ex.classes Ex.bare
    (_resolve_configuration (rt := Ref.runtime) Ex.classes Ex.bare 0)
    "port" (HType TInt) (VInt 5) (VInt 0) ("Server", 1%positive) None [] []
    false (Ex.no_calls Ex.heap_server)
  = (Ret (VInt 5, [mkLookupTrace "P0" [] "port" VNone]),
     mkState Ex.heap_server
       [attempt "port" (HType TInt) None Ex.P0 None []]).
Proof. reflexivity. Qed.

(** Where the namespace path is passed undecorated, the traces of one
    provider hold the list [ns] itself: after the three attempts at [P0]
    under a, b, then a, then the empty path, its three traces all show the
    empty path. *)
Lemma traces_share_the_namespace_list :
  (_resolve_single_value Ex.classes (Ex.container [Ex.P0] ["a"; "b"])
     "key" (HType TStr) (HType TStr) None [] [] (Ex.no_calls ∅)).1
  = Ret (VNone,
         [mkLookupTrace "P0" [] "a.b.key" VNone;
          mkLookupTrace "P0" [] "a.key" VNone;
          mkLookupTrace "P0" [] "key" VNone]).
Proof. reflexivity. Qed.

(** * Further properties of the lookup engine *)

Section LookupRuns.

Local Open Scope nat_scope.

Context (classes : ClassTable) (C : Container).
Context (key : string) (hint : Hint) (config_namespace : option string).
Context (explicit_namespaces embedded_namespaces : list string).

Abbreviation look_while := (look_namespaces_while classes key hint config_namespace).
Abbreviation look_for :=
  (look_namespaces_for classes C key hint config_namespace explicit_namespaces
     embedded_namespaces).
Abbreviation attempt_at := (attempt key hint config_namespace).
Abbreviation search_provider :=
  (search_provider classes C key hint config_namespace explicit_namespaces
     embedded_namespaces).
Abbreviation initial_ns := (initial_ns C explicit_namespaces embedded_namespaces).
Abbreviation shape := (run_shape classes hint).
Abbreviation start_ns := (start_ns C explicit_namespaces embedded_namespaces).

Lemma run_shape_missed_app verdict new1 new2 :
  shape Missed new1 → shape verdict new2 → shape verdict (new1 ++ new2).
Proof.
  intros Hmissed H2. destruct verdict as [value| |exc]; simpl in *.
  - destruct H2 as (quiet & c & -> & Hq & Hrest).
    exists (new1 ++ quiet), c. rewrite app_assoc. split; [done|].
    split; [by apply Forall_app|done].
  - by apply Forall_app.
  - destruct H2 as (quiet & c & -> & Hq & Hrest).
    exists (new1 ++ quiet), c. rewrite app_assoc. split; [done|].
    split; [by apply Forall_app|done].
Qed.

(** The calls of the [while] loop by the way it ends. *)
Lemma look_while_run_shape provider pipeline_name len_ns ns appended ls :
  ∃ new,
    ls_calls (look_while provider pipeline_name len_ns ns appended ls).2
      = ls_calls ls ++ new
    ∧ shape
        (verdict_of_exit
           (look_while provider pipeline_name len_ns ns appended ls).1) new.
Proof.
  revert ns appended ls. induction len_ns as [|len_ns IH]; intros ns appended ls.
  all: rewrite look_while_step; cbv zeta.
  all: set (c := attempt_at provider pipeline_name ns).
  all: assert (Hp : call_provider c = provider) by done.
  all: unfold violation; rewrite Hp.
  all: destruct (is_none (call_value c)) eqn:Hnone; cbn [negb andb].
  all: try destruct (cant_hold_it classes hint provider) eqn:Hcant.
  all: try (exists [c]; split; [reflexivity|]; simpl;
            first [ by repeat constructor
                  | exists [], c; rewrite Hp; by repeat split ]).
  all: edestruct IH as (new & Hcalls & Hshape);
    exists (c :: new); rewrite Hcalls; cbn [ls_calls];
    (split; [by rewrite <- app_assoc|]);
    apply (run_shape_missed_app _ [c]); [by repeat constructor|exact Hshape].
Qed.

(** The calls of the [for] loop by its result. *)
Lemma look_for_run_shape pipeline_name ps ls :
  ∃ new,
    ls_calls (look_for pipeline_name ps ls).2 = ls_calls ls ++ new
    ∧ shape (verdict_of_result (look_for pipeline_name ps ls).1) new.
Proof.
  revert ls. induction ps as [|provider ps IH]; intros ls.
  { exists []. simpl. rewrite app_nil_r. by split. }
  assert (Hsearch : ∀ ns, ∃ new,
    ls_calls (search_provider pipeline_name provider ps ns ls).2
      = ls_calls ls ++ new
    ∧ shape
        (verdict_of_result (search_provider pipeline_name provider ps ns ls).1)
        new).
  { intros ns. unfold search_provider.
    destruct (look_while_run_shape provider pipeline_name (length ns) ns [] ls)
      as (new & Hcalls & Hshape).
    destruct (look_while provider pipeline_name (length ns) ns [] ls)
      as [[value|exc|] ls']; cbn [fst snd verdict_of_exit] in Hcalls, Hshape.
    - exists new. split; [done|]. cbn [fst verdict_of_result].
      destruct Hshape as (quiet & c & ? & ? & ? & Hnone & ?).
      rewrite Hnone. by exists quiet, c.
    - by exists new.
    - destruct (IH ls') as (new' & Hcalls' & Hshape').
      exists (new ++ new'). rewrite Hcalls, <- app_assoc in Hcalls'.
      split; [exact Hcalls'|]. by apply run_shape_missed_app. }
  rewrite look_for_step.
  destruct (supports_namespaces provider); [apply Hsearch|].
  destruct (truthy_str pipeline_name); [apply IH|apply Hsearch].
Qed.

(** The paths the [while] loop queries, and how many. *)
Lemma look_while_paths provider pipeline_name len_ns ns appended ls :
  ∃ new,
    ls_calls (look_while provider pipeline_name len_ns ns appended ls).2
      = ls_calls ls ++ new
    ∧ Forall (λ c, ∃ k, c = attempt_at provider pipeline_name (take k ns)) new
    ∧ length new ≤ S len_ns.
Proof.
  revert ns appended ls. induction len_ns as [|len_ns IH]; intros ns appended ls.
  all: rewrite look_while_step; cbv zeta.
  all: set (c := attempt_at provider pipeline_name ns).
  all: assert (Hc : ∃ k, c = attempt_at provider pipeline_name (take k ns))
    by (exists (length ns); by rewrite firstn_all).
  all: destruct (violation classes hint c);
    [exists [c]; split; [done|]; split; [by repeat constructor|simpl; lia]|].
  all: destruct (is_none (call_value c));
    [|exists [c]; split; [done|]; split; [by repeat constructor|simpl; lia]].
  { exists [c]. split; [done|]. split; [by repeat constructor|simpl; lia]. }
  edestruct IH as (new & Hcalls & Hpaths & Hlen).
  exists (c :: new). rewrite Hcalls. cbn [ls_calls].
  split; [by rewrite <- app_assoc|]. split; [|simpl; lia].
  constructor; [done|].
  eapply Forall_impl; [exact Hpaths|]. intros c' [k ->].
  exists (k `min` (length ns - 1)).
  by rewrite removelast_firstn_len, take_take, Nat.sub_1_r.
Qed.

(** The paths the [for] loop queries, and how many. *)
Lemma look_for_paths pipeline_name ps ls :
  ∃ new,
    ls_calls (look_for pipeline_name ps ls).2 = ls_calls ls ++ new
    ∧ Forall (λ c, ∃ provider k,
                provider ∈ ps
                ∧ c = attempt_at provider pipeline_name (take k (start_ns provider))
                ∧ (supports_namespaces provider = false
                   → truthy_str pipeline_name = false)) new
    ∧ length new ≤ length ps * S (length initial_ns).
Proof.
  revert ls. induction ps as [|provider ps IH]; intros ls.
  { exists []. simpl. rewrite app_nil_r. repeat split; [constructor|lia]. }
  assert (Hweaken : ∀ new,
    Forall (λ c, ∃ provider0 k,
              provider0 ∈ ps
              ∧ c = attempt_at provider0 pipeline_name (take k (start_ns provider0))
              ∧ (supports_namespaces provider0 = false
                 → truthy_str pipeline_name = false)) new →
    Forall (λ c, ∃ provider0 k,
              provider0 ∈ provider :: ps
              ∧ c = attempt_at provider0 pipeline_name (take k (start_ns provider0))
              ∧ (supports_namespaces provider0 = false
                 → truthy_str pipeline_name = false)) new).
  { intros new Hnew. eapply Forall_impl; [exact Hnew|].
    intros c (p0 & k & Hin & Hc & Hpn).
    exists p0, k. split; [by apply list_elem_of_further|done]. }
  assert (Hsearch : ∀ ns,
    ns = start_ns provider →
    (supports_namespaces provider = false → truthy_str pipeline_name = false) →
    ∃ new,
      ls_calls (search_provider pipeline_name provider ps ns ls).2
        = ls_calls ls ++ new
      ∧ Forall (λ c, ∃ provider0 k,
                  provider0 ∈ provider :: ps
                  ∧ c = attempt_at provider0 pipeline_name
                          (take k (start_ns provider0))
                  ∧ (supports_namespaces provider0 = false
                     → truthy_str pipeline_name = false)) new
      ∧ length new ≤ S (length ns) + length ps * S (length initial_ns)).
  { intros ns Hns Hpn. unfold search_provider.
    destruct (look_while_paths provider pipeline_name (length ns) ns [] ls)
      as (new & Hcalls & Hpaths & Hlen).
    assert (Hhere : Forall (λ c, ∃ provider0 k,
                  provider0 ∈ provider :: ps
                  ∧ c = attempt_at provider0 pipeline_name
                          (take k (start_ns provider0))
                  ∧ (supports_namespaces provider0 = false
                     → truthy_str pipeline_name = false)) new).
    { eapply Forall_impl; [exact Hpaths|]. intros c [k ->].
      exists provider, k. rewrite <- Hns.
      split; [apply list_elem_of_here|done]. }
    destruct (look_while provider pipeline_name (length ns) ns [] ls)
      as [[value|exc|] ls']; cbn [fst snd] in Hcalls |- *.
    1,2: exists new; split; [done|]; split; [done|lia].
    destruct (IH ls') as (new' & Hcalls' & Hpaths' & Hlen').
    exists (new ++ new'). rewrite Hcalls, <- app_assoc in Hcalls'.
    split; [exact Hcalls'|]. split.
    - apply Forall_app. split; [done|by apply Hweaken].
    - rewrite length_app. lia. }
  rewrite look_for_step. unfold start_ns in Hsearch.
  destruct (supports_namespaces provider) eqn:Hns.
  - destruct (Hsearch initial_ns) as (new & ? & ? & ?); [done..|].
    exists new. repeat split; [done..|]. simpl. lia.
  - destruct (truthy_str pipeline_name) eqn:Hpn.
    + destruct (IH ls) as (new & ? & ? & ?).
      exists new. split; [done|]. split; [by apply Hweaken|]. simpl. lia.
    + destruct (Hsearch []) as (new & ? & ? & Hlen); [done..|].
      exists new. repeat split; [done..|]. simpl in *. lia.
Qed.

(** The attempt that finds the first value ends the [while] loop. *)
Lemma look_while_found provider pipeline_name ns appended ls j :
  j ≤ length ns →
  (∀ i, i < j →
     is_none (call_value (attempt_at provider pipeline_name (pop_n i ns))) = true) →
  is_none (call_value (attempt_at provider pipeline_name (pop_n j ns))) = false →
  cant_hold_it classes hint provider = false →
  (look_while provider pipeline_name (length ns) ns appended ls).1
  = WReturn (call_value (attempt_at provider pipeline_name (pop_n j ns)))
  ∧ ls_calls (look_while provider pipeline_name (length ns) ns appended ls).2
    = ls_calls ls
      ++ ((λ i, attempt_at provider pipeline_name (pop_n i ns)) <$> seq 0 (S j)).
Proof.
  intros Hj Habsent Hfound Hcant.
  revert ns appended ls Hj Habsent Hfound.
  induction j as [|j IH]; intros ns appended ls Hj Habsent Hfound.
  all: rewrite look_while_step; cbv zeta.
  all: unfold violation; cbn [call_provider attempt]; rewrite Hcant, andb_false_r.
  { rewrite pop_n_0 in Hfound. rewrite Hfound. simpl. by rewrite pop_n_0. }
  pose proof (Habsent 0 ltac:(lia)) as H0. rewrite pop_n_0 in H0. rewrite H0.
  destruct (length ns) as [|len_ns] eqn:Hlen; [lia|].
  assert (Hlen' : len_ns = length (removelast ns)).
  { rewrite removelast_firstn_len, length_take. lia. }
  rewrite Hlen'.
  edestruct (IH (removelast ns)) as [Hexit Hcalls].
  - lia.
  - intros i Hi. rewrite removelast_pop_n. apply Habsent. lia.
  - by rewrite removelast_pop_n.
  - rewrite Hexit, Hcalls. rewrite removelast_pop_n. split; [done|].
    cbn [ls_calls]. rewrite <- app_assoc. f_equal.
    rewrite (fmap_seq_shift _ (S j)), pop_n_0.
    apply (f_equal (cons (attempt_at provider pipeline_name ns))).
    apply list_fmap_ext. intros _ i _. by rewrite removelast_pop_n.
Qed.

End LookupRuns.

(** ** The calls of a lookup *)

Lemma verdict_of_outcome (r : Result PyVal) (traces : list LookupTrace) :
  verdict_of (match r with
              | inl exc => Raise exc
              | inr value => Ret (value, traces)
              end)
  = verdict_of_result r.
Proof. by destruct r. Qed.

(** What the composition leaves of the embedded namespaces. *)
Lemma composed_namespaces config_namespace embedded_namespaces :
  let composed :=
    _apply_embedded_namespaces_to_config_namespace config_namespace
      embedded_namespaces in
  Forall (λ s, startswith_underscore s = false) composed.2
  ∧ (length composed.2 ≤ length embedded_namespaces)%nat
  ∧ (composed.1 = config_namespace
     ∨ ∃ s, composed.1 = Some s ∧ startswith_underscore s = false).
Proof.
  unfold _apply_embedded_namespaces_to_config_namespace.
  assert (Hfilter : ∀ l : list string,
    Forall (λ s, startswith_underscore s = false)
      (filter (λ ns, negb (startswith_underscore ns) = true) l)).
  { intros l. apply Forall_forall. intros s [Hs _]%list_elem_of_filter.
    by apply negb_true_iff. }
  destruct (last embedded_namespaces) as [innermost|] eqn:Hlast; cbn [fst snd].
  - split; [apply Hfilter|]. split.
    + etrans; [apply length_filter|].
      rewrite removelast_firstn_len, length_take. lia.
    + destruct (startswith_underscore innermost) eqn:Hu; [by left|].
      right. by exists innermost.
  - split; [apply Hfilter|]. split; [apply length_filter|by left].
Qed.

Section SingleValueRuns.

Local Open Scope nat_scope.

Context (classes : ClassTable) (C : Container).
Context (key : string) (hint inner_hint : Hint) (config_namespace : option string).
Context (explicit_namespaces embedded_namespaces : list string).

Abbreviation single :=
  (_resolve_single_value classes C key hint inner_hint config_namespace
     explicit_namespaces embedded_namespaces).
Abbreviation composed :=
  (_apply_embedded_namespaces_to_config_namespace config_namespace
     embedded_namespaces).

(** A lookup for an injectable context makes one call, to the context
    provider, and returns what the call returned. *)
Lemma resolve_single_value_context st :
  is_context_hint classes inner_hint = true →
  single st
  = (Ret ((get_value (context_provider C) key inner_hint []).1, []),
     mkState (st_heap st)
       (st_calls st
        ++ [mkCall (context_provider C) key inner_hint []
              (get_value (context_provider C) key inner_hint []).1
              (get_value (context_provider C) key inner_hint []).2])).
Proof.
  intros Hctx. unfold _resolve_single_value. rewrite Hctx.
  by destruct (get_value (context_provider C) key inner_hint []).
Qed.

(** The calls of a lookup by the way it ends. *)
Lemma resolve_single_value_run st :
  is_context_hint classes inner_hint = false →
  ∃ new,
    st_calls (single st).2 = st_calls st ++ new
    ∧ run_shape classes hint (verdict_of (single st).1) new.
Proof.
  intros Hctx. destruct (is_config_hint inner_hint) eqn:Hcfg.
  { unfold _resolve_single_value. rewrite Hctx, Hcfg. simpl.
    exists []. split; [by rewrite app_nil_r|constructor]. }
  rewrite resolve_single_value_passes by done. cbv zeta. cbn [fst snd].
  rewrite verdict_of_outcome.
  destruct composed as [config_namespace' embedded_namespaces'].
  cbn [fst snd]. unfold look_namespaces.
  set (ls0 := mkLState [] (st_calls st)).
  set (look := look_namespaces_for classes C key hint config_namespace'
                 explicit_namespaces embedded_namespaces').
  assert (Hfirst : ∃ new1,
    ls_calls
      (if truthy_str (ctx_pipeline_name C)
       then look (ctx_pipeline_name C) (providers C) ls0
       else (inr VNone, ls0)).2 = st_calls st ++ new1
    ∧ run_shape classes hint
        (verdict_of_result
           (if truthy_str (ctx_pipeline_name C)
            then look (ctx_pipeline_name C) (providers C) ls0
            else (inr VNone, ls0)).1) new1).
  { destruct (truthy_str (ctx_pipeline_name C)).
    - apply look_for_run_shape.
    - exists []. split; [by rewrite app_nil_r|constructor]. }
  destruct Hfirst as (new1 & Hcalls1 & Hshape1).
  destruct (if truthy_str (ctx_pipeline_name C) then _ else _)
    as [[exc|value] ls1]; cbn [fst snd] in *.
  { by exists new1. }
  destruct value; try by exists new1.
  destruct (look_for_run_shape classes C key hint config_namespace'
              explicit_namespaces embedded_namespaces' None (providers C) ls1)
    as (new2 & Hcalls2 & Hshape2).
  exists (new1 ++ new2). rewrite Hcalls1, <- app_assoc in Hcalls2.
  split; [exact Hcalls2|]. by apply run_shape_missed_app.
Qed.

(** The paths of the calls of a lookup, and how many calls it makes. *)
Lemma resolve_single_value_paths st :
  is_context_hint classes inner_hint = false →
  ∃ new,
    st_calls (single st).2 = st_calls st ++ new
    ∧ Forall (λ c, ∃ provider pipeline_name k,
                provider ∈ providers C
                ∧ (pipeline_name = ctx_pipeline_name C ∨ pipeline_name = None)
                ∧ c = attempt key hint composed.1 provider pipeline_name
                        (take k (start_ns C explicit_namespaces composed.2
                                   provider))
                ∧ (supports_namespaces provider = false
                   → truthy_str pipeline_name = false)) new
    ∧ length new
      ≤ passes C
        * (length (providers C)
           * S (length (initial_ns C explicit_namespaces composed.2))).
Proof.
  intros Hctx. destruct (is_config_hint inner_hint) eqn:Hcfg.
  { unfold _resolve_single_value. rewrite Hctx, Hcfg. simpl.
    exists []. split; [by rewrite app_nil_r|]. split; [constructor|simpl; lia]. }
  rewrite resolve_single_value_passes by done. cbv zeta. cbn [fst snd].
  destruct composed as [config_namespace' embedded_namespaces'].
  cbn [fst snd]. unfold look_namespaces, passes.
  set (ls0 := mkLState [] (st_calls st)).
  set (look := look_namespaces_for classes C key hint config_namespace'
                 explicit_namespaces embedded_namespaces').
  set (bound := length (providers C)
                * S (length (initial_ns C explicit_namespaces
                               embedded_namespaces'))).
  set (query := λ c : Call, ∃ provider pipeline_name k,
         provider ∈ providers C
         ∧ (pipeline_name = ctx_pipeline_name C ∨ pipeline_name = None)
         ∧ c = attempt key hint config_namespace' provider pipeline_name
                 (take k (start_ns C explicit_namespaces embedded_namespaces'
                            provider))
         ∧ (supports_namespaces provider = false
            → truthy_str pipeline_name = false)).
  assert (Hpass : ∀ pipeline_name ls,
    pipeline_name = ctx_pipeline_name C ∨ pipeline_name = None →
    ∃ new,
      ls_calls (look pipeline_name (providers C) ls).2 = ls_calls ls ++ new
      ∧ Forall query new ∧ length new ≤ bound).
  { intros pipeline_name ls Hpn.
    destruct (look_for_paths classes C key hint config_namespace'
                explicit_namespaces embedded_namespaces' pipeline_name
                (providers C) ls) as (new & Hcalls & Hpaths & Hlen).
    exists new. split; [done|]. split; [|done].
    eapply Forall_impl; [exact Hpaths|].
    intros c (provider & k & Hin & Hc & Hskip). by exists provider, pipeline_name, k. }
  destruct (truthy_str (ctx_pipeline_name C)) eqn:Hpipeline.
  - destruct (Hpass (ctx_pipeline_name C) ls0) as (new1 & Hcalls1 & Hq1 & Hlen1);
      [by left|].
    destruct (look (ctx_pipeline_name C) (providers C) ls0)
      as [[exc|value] ls1]; cbn [fst snd] in *.
    { exists new1. split; [done|]. split; [done|lia]. }
    destruct value; try (exists new1; split; [done|]; split; [done|lia]).
    destruct (Hpass None ls1) as (new2 & Hcalls2 & Hq2 & Hlen2); [by right|].
    exists (new1 ++ new2). rewrite Hcalls1, <- app_assoc in Hcalls2.
    split; [exact Hcalls2|]. split; [by apply Forall_app|].
    rewrite length_app. lia.
  - cbn [fst snd].
    destruct (Hpass None ls0) as (new2 & Hcalls2 & Hq2 & Hlen2); [by right|].
    exists new2. split; [exact Hcalls2|]. split; [done|lia].
Qed.

(** X1: A lookup that returns a value has, as its last call, the call that
    returned this value, made to a provider that can hold it: one that
    supports secrets, unless the hint requires no secrecy.  Every call
    before it returned [None]. *)
Theorem lookup_value_comes_from_last_call st value traces :
  is_context_hint classes inner_hint = false →
  (single st).1 = Ret (value, traces) →
  is_none value = false →
  ∃ quiet c,
    new_calls (st_calls st) (st_calls (single st).2) = quiet ++ [c]
    ∧ Forall (λ c, is_none (call_value c) = true) quiet
    ∧ call_value c = value
    ∧ (supports_secrets (call_provider c) = true
       ∨ _is_secret_hint classes hint = false).
Proof.
  intros Hctx Hret Hvalue.
  destruct (resolve_single_value_run st Hctx) as (new & Hcalls & Hshape).
  rewrite Hcalls, new_calls_app. rewrite Hret in Hshape.
  cbn [verdict_of] in Hshape. rewrite Hvalue in Hshape.
  destruct Hshape as (quiet & c & -> & Hquiet & Hc & _ & Hcant).
  exists quiet, c. repeat split; [done..|].
  unfold cant_hold_it in Hcant. apply andb_false_iff in Hcant as [Hs|Hh].
  - left. by apply negb_false_iff.
  - by right.
Qed.

(** X2: A lookup returns [None] exactly when every call it made returned
    [None]: it then neither raises nor returns a value. *)
Theorem lookup_misses_iff_all_calls_miss st :
  is_context_hint classes inner_hint = false →
  (∃ traces, (single st).1 = Ret (VNone, traces))
  ↔ Forall (λ c, is_none (call_value c) = true)
      (new_calls (st_calls st) (st_calls (single st).2)).
Proof.
  intros Hctx.
  destruct (resolve_single_value_run st Hctx) as (new & Hcalls & Hshape).
  rewrite Hcalls, new_calls_app.
  assert (Hlast : ∀ quiet c,
    new = quiet ++ [c] → is_none (call_value c) = false →
    ¬ Forall (λ c, is_none (call_value c) = true) new).
  { intros quiet c -> Hc [_ Hall]%Forall_app.
    apply Forall_cons in Hall as [Hall _]. congruence. }
  split.
  - intros [traces Hret]. by rewrite Hret in Hshape.
  - intros Hall.
    destruct (single st).1 as [[value traces]|exc|]; cbn [verdict_of] in Hshape.
    + destruct (is_none value) eqn:Hvalue.
      * destruct value; try done. by exists traces.
      * destruct Hshape as (quiet & c & Hnew & _ & Hc & _).
        destruct (Hlast quiet c Hnew); [congruence|done].
    + destruct Hshape as (quiet & c & Hnew & _ & Hc & _).
      by destruct (Hlast quiet c Hnew).
    + destruct Hshape as (quiet & c & Hnew & _ & Hc & _).
      by destruct (Hlast quiet c Hnew).
Qed.

(** X3: The only exception a lookup raises is [ValueNotSecretException], and
    it raises it only when the hint requires secrecy and its last call
    returned a value from a provider without secret support: the exception
    names this provider and the key it reported. *)
Theorem lookup_raises_only_not_secret st exc :
  (single st).1 = Raise exc →
  _is_secret_hint classes hint = true
  ∧ ∃ quiet c,
      new_calls (st_calls st) (st_calls (single st).2) = quiet ++ [c]
      ∧ is_none (call_value c) = false
      ∧ supports_secrets (call_provider c) = false
      ∧ exc = ValueNotSecretException (name (call_provider c)) (call_ns_key c).
Proof.
  intros Hraise. destruct (is_context_hint classes inner_hint) eqn:Hctx.
  { by rewrite resolve_single_value_context in Hraise. }
  destruct (resolve_single_value_run st Hctx) as (new & Hcalls & Hshape).
  rewrite Hcalls, new_calls_app. rewrite Hraise in Hshape.
  destruct Hshape as (quiet & c & -> & _ & Hc & Hcant & ->).
  unfold cant_hold_it in Hcant. apply andb_true_iff in Hcant as [Hs Hh].
  split; [done|]. exists quiet, c. repeat split; [done|].
  by apply negb_true_iff.
Qed.

(** X4: A provider that does not support namespaces is never given a
    namespace path: every call of a lookup to such a provider passes the
    key alone. *)
Theorem providers_without_namespaces_get_no_path st :
  Forall (λ c, supports_namespaces (call_provider c) = true
               ∨ call_namespaces c = [])
    (new_calls (st_calls st) (st_calls (single st).2)).
Proof.
  destruct (is_context_hint classes inner_hint) eqn:Hctx.
  { rewrite resolve_single_value_context by done. cbn [snd st_calls].
    rewrite new_calls_app. constructor; [by right|constructor]. }
  destruct (resolve_single_value_paths st Hctx) as (new & Hcalls & Hpaths & _).
  rewrite Hcalls, new_calls_app.
  eapply Forall_impl; [exact Hpaths|].
  intros c (provider & pipeline_name & k & _ & _ & -> & _).
  cbn [attempt call_provider call_namespaces].
  destruct (supports_namespaces provider) eqn:Hns; [by left|right].
  unfold full_namespaces, copies_ns, start_ns. rewrite Hns, andb_false_r.
  by rewrite take_nil.
Qed.

(** X5: Every call of a lookup asks one of the providers of the container
    for the key and the hint of the lookup.  The path given to a provider
    that supports namespaces is the pipeline name, if the pass has one,
    then a prefix of the initial namespace list, then the config namespace,
    if there is one: the pipeline name is always outermost and the config
    namespace always innermost and present. *)
Theorem queried_paths_are_prefixes st :
  is_context_hint classes inner_hint = false →
  Forall (λ c, call_key c = key ∧ call_hint c = hint
               ∧ call_provider c ∈ providers C
               ∧ (supports_namespaces (call_provider c) = false
                  ∨ path_shape C explicit_namespaces composed.2 composed.1
                      (call_namespaces c)))
    (new_calls (st_calls st) (st_calls (single st).2)).
Proof.
  intros Hctx.
  destruct (resolve_single_value_paths st Hctx) as (new & Hcalls & Hpaths & _).
  rewrite Hcalls, new_calls_app.
  eapply Forall_impl; [exact Hpaths|].
  intros c (provider & pipeline_name & k & Hin & Hpn & -> & _).
  cbn [attempt call_provider call_namespaces call_key call_hint].
  repeat split; [done|].
  destruct (supports_namespaces provider) eqn:Hns; [right|by left].
  exists pipeline_name, k. split; [done|].
  unfold full_namespaces, copies_ns, start_ns, segment. rewrite Hns, andb_true_r.
  destruct (truthy_str pipeline_name), (truthy_str composed.1); simpl;
    by rewrite ?app_nil_r.
Qed.

(** X6: No embedded namespace that starts with an underscore reaches a
    provider: a segment of a queried path that starts with an underscore
    is the pipeline name, one of the explicit or ambient namespaces, or the
    namespace of the configuration itself. *)
Theorem underscore_embedded_namespaces_are_skipped st :
  Forall (λ c, Forall (λ s, startswith_underscore s = false
                            ∨ s ∈ option_list (ctx_pipeline_name C)
                                  ++ explicit_namespaces ++ ctx_namespaces C
                                  ++ option_list config_namespace)
                 (call_namespaces c))
    (new_calls (st_calls st) (st_calls (single st).2)).
Proof.
  destruct (is_context_hint classes inner_hint) eqn:Hctx.
  { rewrite resolve_single_value_context by done. cbn [snd st_calls].
    rewrite new_calls_app. repeat constructor. }
  destruct (resolve_single_value_paths st Hctx) as (new & Hcalls & Hpaths & _).
  rewrite Hcalls, new_calls_app.
  destruct (composed_namespaces config_namespace embedded_namespaces)
    as (Hemb & _ & Hcn).
  cbv zeta in Hemb, Hcn.
  destruct composed as [config_namespace' embedded_namespaces'].
  cbn [fst snd] in *.
  eapply Forall_impl; [exact Hpaths|].
  intros c (provider & pipeline_name & k & _ & Hpn & -> & _).
  cbn [attempt call_namespaces].
  assert (Hns : Forall (λ s, startswith_underscore s = false
                            ∨ s ∈ option_list (ctx_pipeline_name C)
                                  ++ explicit_namespaces ++ ctx_namespaces C
                                  ++ option_list config_namespace)
                  (take k (start_ns C explicit_namespaces embedded_namespaces'
                             provider))).
  { apply Forall_take. unfold start_ns, initial_ns.
    destruct (supports_namespaces provider); [|constructor].
    apply Forall_app. split.
    - apply Forall_forall. intros s Hs. right. apply elem_of_app. right.
      destruct explicit_namespaces as [|e es].
      + rewrite app_nil_l. apply elem_of_app. by left.
      + apply elem_of_app. by left.
    - eapply Forall_impl; [exact Hemb|]. intros s Hs. by left. }
  unfold full_namespaces. destruct (copies_ns _ _ _); [|done].
  apply Forall_app. split; [|apply Forall_app; split; [done|]].
  - destruct (truthy_str pipeline_name); [|constructor].
    destruct Hpn as [->| ->]; [|constructor].
    apply Forall_forall. intros s Hs. right. apply elem_of_app. by left.
  - destruct (truthy_str config_namespace'); [|constructor].
    destruct Hcn as [->|(s & -> & Hs)].
    + apply Forall_forall. intros s Hs. right.
      do 3 (apply elem_of_app; right). exact Hs.
    + constructor; [by left|constructor].
Qed.

(** X7: A lookup makes at most one call for every provider and every prefix
    of the namespace list in each of its passes: twice the number of
    providers times one more than the number of namespaces when the
    container has a pipeline name, half of that otherwise. *)
Theorem lookup_queries_are_bounded st :
  is_context_hint classes inner_hint = false →
  length (new_calls (st_calls st) (st_calls (single st).2))
  ≤ passes C
    * (length (providers C)
       * S (length (match explicit_namespaces with
                    | _ :: _ => explicit_namespaces
                    | [] => ctx_namespaces C
                    end)
            + length embedded_namespaces)).
Proof.
  intros Hctx.
  destruct (resolve_single_value_paths st Hctx) as (new & Hcalls & _ & Hlen).
  rewrite Hcalls, new_calls_app.
  destruct (composed_namespaces config_namespace embedded_namespaces)
    as (_ & Hemb & _).
  cbv zeta in Hemb. etrans; [exact Hlen|].
  unfold initial_ns. rewrite length_app.
  apply Nat.mul_le_mono_l, Nat.mul_le_mono_l. lia.
Qed.

End SingleValueRuns.

(** The value comes from the fourth call: [P0] holds nothing under a and
    under the empty path, [P2] nothing under a. *)
Lemma lookup_value_comes_from_last_call_witness :
  ∃ quiet c,
    new_calls (st_calls (Ex.no_calls ∅))
      (st_calls
         (_resolve_single_value Ex.classes (Ex.container [Ex.P0; Ex.P2] ["a"])
            "key" (HType TStr) (HType TStr) None [] [] (Ex.no_calls ∅)).2)
    = quiet ++ [c]
    ∧ Forall (λ c, is_none (call_value c) = true) quiet
    ∧ call_value c = VStr "v2"
    ∧ (supports_secrets (call_provider c) = true
       ∨ _is_secret_hint Ex.classes (HType TStr) = false).
Proof.
  eapply (lookup_value_comes_from_last_call Ex.classes
            (Ex.container [Ex.P0; Ex.P2] ["a"]) "key" (HType TStr) (HType TStr)
            None [] [] (Ex.no_calls ∅) (VStr "v2"));
    reflexivity.
Defined.

(** [P0] holds no host: the lookup returns [None]. *)
Lemma lookup_misses_iff_all_calls_miss_witness :
  (∃ traces,
     (_resolve_single_value Ex.classes Ex.bare "host" (HType TStr) (HType TStr)
        None [] [] (Ex.no_calls ∅)).1 = Ret (VNone, traces))
  ↔ Forall (λ c, is_none (call_value c) = true)
      (new_calls (st_calls (Ex.no_calls ∅))
         (st_calls
            (_resolve_single_value Ex.classes Ex.bare "host" (HType TStr)
               (HType TStr) None [] [] (Ex.no_calls ∅)).2)).
Proof.
  apply (lookup_misses_iff_all_calls_miss Ex.classes Ex.bare "host" (HType TStr)
           (HType TStr) None [] [] (Ex.no_calls ∅)).
  reflexivity.
Defined.

(** The password found in the provider without secret support. *)
Lemma lookup_raises_only_not_secret_witness :
  _is_secret_hint Ex.classes HSecret = true
  ∧ ∃ quiet c,
      new_calls (st_calls (Ex.no_calls ∅))
        (st_calls
           (_resolve_single_value Ex.classes
              (Ex.container [Ex.config_toml; Ex.P2] ["a"]) "password" HSecret
              (HType TStr) None [] [] (Ex.no_calls ∅)).2)
      = quiet ++ [c]
      ∧ is_none (call_value c) = false
      ∧ supports_secrets (call_provider c) = false
      ∧ ValueNotSecretException "Pipeline config.toml" "password"
        = ValueNotSecretException (name (call_provider c)) (call_ns_key c).
Proof.
  apply (lookup_raises_only_not_secret Ex.classes
           (Ex.container [Ex.config_toml; Ex.P2] ["a"]) "password" HSecret
           (HType TStr) None [] [] (Ex.no_calls ∅)
           (ValueNotSecretException "Pipeline config.toml" "password")).
  reflexivity.
Defined.

(** With the pipeline name pipe and the ambient namespaces a, b. *)
Lemma queried_paths_are_prefixes_witness :
  Forall (λ c, call_key c = "key" ∧ call_hint c = HType TStr
               ∧ call_provider c ∈ providers Demo.piped
               ∧ (supports_namespaces (call_provider c) = false
                  ∨ path_shape Demo.piped []
                      (_apply_embedded_namespaces_to_config_namespace None
                         ["db"]).2
                      (_apply_embedded_namespaces_to_config_namespace None
                         ["db"]).1
                      (call_namespaces c)))
    (new_calls (st_calls (Ex.no_calls ∅))
       (st_calls
          (_resolve_single_value Ex.classes Demo.piped "key" (HType TStr)
             (HType TStr) None [] ["db"] (Ex.no_calls ∅)).2)).
Proof.
  apply (queried_paths_are_prefixes Ex.classes Demo.piped "key" (HType TStr)
           (HType TStr) None [] ["db"] (Ex.no_calls ∅)).
  reflexivity.
Defined.

(** Two passes over two providers with two ambient namespaces and one
    embedded namespace: at most sixteen calls. *)
Lemma lookup_queries_are_bounded_witness :
  (length
     (new_calls (st_calls (Ex.no_calls ∅))
        (st_calls
           (_resolve_single_value Ex.classes Demo.piped "key" (HType TStr)
              (HType TStr) None [] ["db"] (Ex.no_calls ∅)).2))
   ≤ passes Demo.piped
     * (length (providers Demo.piped)
        * S (length (ctx_namespaces Demo.piped) + length ["db"])))%nat.
Proof.
  apply (lookup_queries_are_bounded Ex.classes Demo.piped "key" (HType TStr)
           (HType TStr) None [] ["db"] (Ex.no_calls ∅)).
  reflexivity.
Defined.

(** ** Explicit namespaces and the order of the paths *)

(** With explicit namespaces the [for] loop does not read the namespaces
    of the context. *)
Lemma look_for_explicit classes ps0 cp pn0 ambient ambient' key hint
    config_namespace e es embedded_namespaces pipeline_name ps ls :
  look_namespaces_for classes (mkContainer ps0 cp pn0 ambient) key hint
    config_namespace (e :: es) embedded_namespaces pipeline_name ps ls
  = look_namespaces_for classes (mkContainer ps0 cp pn0 ambient') key hint
      config_namespace (e :: es) embedded_namespaces pipeline_name ps ls.
Proof.
  revert ls. induction ps as [|provider ps IH]; intros ls; [done|].
  rewrite !look_for_step. unfold search_provider, initial_ns.
  destruct (supports_namespaces provider).
  - destruct (look_namespaces_while _ _ _ _ _ _ _ _ _ _) as [[value|exc|] ls'];
      [done|done|apply IH].
  - destruct (truthy_str pipeline_name); [apply IH|].
    destruct (look_namespaces_while _ _ _ _ _ _ _ _ _ _) as [[value|exc|] ls'];
      [done|done|apply IH].
Qed.

(** X8: Explicit namespaces replace the namespaces of the context entirely:
    when the caller passes at least one namespace, the lookup (its result,
    its traces and the calls it makes) is the same whatever the ambient
    namespaces of the container are. *)
Theorem explicit_namespaces_replace_ambient classes ps cp pn ambient ambient'
    key hint inner_hint config_namespace e es embedded_namespaces st :
  _resolve_single_value classes (mkContainer ps cp pn ambient) key hint
    inner_hint config_namespace (e :: es) embedded_namespaces st
  = _resolve_single_value classes (mkContainer ps cp pn ambient') key hint
      inner_hint config_namespace (e :: es) embedded_namespaces st.
Proof.
  unfold _resolve_single_value. cbn [context_provider ctx_pipeline_name].
  destruct (is_context_hint classes inner_hint); [done|].
  destruct (is_config_hint inner_hint); [done|].
  destruct (_apply_embedded_namespaces_to_config_namespace config_namespace
              embedded_namespaces) as [config_namespace' embedded_namespaces'].
  unfold look_namespaces. cbn [providers].
  assert (Hlook : ∀ pipeline_name ls,
    look_namespaces_for classes (mkContainer ps cp pn ambient) key hint
      config_namespace' (e :: es) embedded_namespaces' pipeline_name ps ls
    = look_namespaces_for classes (mkContainer ps cp pn ambient') key hint
        config_namespace' (e :: es) embedded_namespaces' pipeline_name ps ls)
    by (intros; apply look_for_explicit).
  by rewrite !Hlook.
Qed.

(** X9: At a provider that supports namespaces and can hold the value, the
    most specific path that holds a value wins: when the attempts with
    fewer than [j] segments removed find nothing and the attempt with [j]
    segments removed finds a value, the lookup returns this value after
    exactly these [j + 1] calls; no shorter path and no later provider is
    consulted. *)
Theorem most_specific_path_wins classes C key hint config_namespace
    explicit_namespaces embedded_namespaces pipeline_name provider ps ls (j : nat) :
  supports_namespaces provider = true →
  cant_hold_it classes hint provider = false →
  (j ≤ length (initial_ns C explicit_namespaces embedded_namespaces))%nat →
  (∀ i, (i < j)%nat →
     is_none (call_value
                (attempt key hint config_namespace provider pipeline_name
                   (pop_n i (initial_ns C explicit_namespaces
                               embedded_namespaces)))) = true) →
  is_none (call_value
             (attempt key hint config_namespace provider pipeline_name
                (pop_n j (initial_ns C explicit_namespaces
                            embedded_namespaces)))) = false →
  (look_namespaces_for classes C key hint config_namespace explicit_namespaces
     embedded_namespaces pipeline_name (provider :: ps) ls).1
  = inr (call_value
           (attempt key hint config_namespace provider pipeline_name
              (pop_n j (initial_ns C explicit_namespaces embedded_namespaces))))
  ∧ ls_calls
      (look_namespaces_for classes C key hint config_namespace
         explicit_namespaces embedded_namespaces pipeline_name (provider :: ps)
         ls).2
    = ls_calls ls
      ++ ((λ i, attempt key hint config_namespace provider pipeline_name
                  (pop_n i (initial_ns C explicit_namespaces
                              embedded_namespaces)))
            <$> seq 0 (S j)).
Proof.
  intros Hns Hcant Hj Habsent Hfound.
  rewrite look_for_step, Hns. unfold search_provider.
  destruct (look_while_found classes key hint config_namespace provider
              pipeline_name
              (initial_ns C explicit_namespaces embedded_namespaces) [] ls j
              Hj Habsent Hfound Hcant) as [Hexit Hcalls].
  destruct (look_namespaces_while _ _ _ _ _ _ _ _ _ _) as [exit ls'].
  cbn [fst snd] in *. by subst exit.
Qed.

(** [P2] holds the key under the empty path only: with the ambient
    namespaces a, b it is found at the third attempt, and [P0] is not
    asked. *)
Lemma most_specific_path_wins_witness :
  (look_namespaces_for Ex.classes (Ex.container [Ex.P2; Ex.P0] ["a"; "b"]) "key"
     (HType TStr) None [] [] None [Ex.P2; Ex.P0] (mkLState [] [])).1
  = inr (VStr "v2")
  ∧ Ex.attempts
      (ls_calls
         (look_namespaces_for Ex.classes (Ex.container [Ex.P2; Ex.P0] ["a"; "b"])
            "key" (HType TStr) None [] [] None [Ex.P2; Ex.P0] (mkLState [] [])).2)
    = [("P2", ["a"; "b"]); ("P2", ["a"]); ("P2", [])].
Proof.
  destruct (most_specific_path_wins Ex.classes
              (Ex.container [Ex.P2; Ex.P0] ["a"; "b"]) "key" (HType TStr) None
              [] [] None Ex.P2 [Ex.P0] (mkLState [] []) 2)
    as [Hvalue Hcalls].
  - reflexivity.
  - reflexivity.
  - simpl. lia.
  - intros [|[|i]] Hi; [reflexivity|reflexivity|lia].
  - reflexivity.
  - split; [exact Hvalue|exact (eq_trans (f_equal Ex.attempts Hcalls) eq_refl)].
Defined.

(** ** Further properties of the coercion *)

Section CoercionRuns.

Context {rt : Runtime} (classes : ClassTable).

(** X10: Whatever goes wrong in [deserialize_value] (a type the schema
    subsystem does not know, a text that does not parse, a parsed value of
    another type than the hint, a failed coercion), the exception that leaves
    the function is a [ConfigValueCannotBeCoercedException]. *)
Theorem deserialize_value_raises_coercion_error key value hint exc :
  deserialize_value classes key value hint = inl exc →
  ∃ key' value' hint',
    exc = ConfigValueCannotBeCoercedException key' value' hint'.
Proof.
  assert (Hhandler : ∀ v e, ∃ key' value' hint',
    coercion_handler key v hint e
    = ConfigValueCannotBeCoercedException key' value' hint').
  { intros v []; simpl; eauto. }
  unfold deserialize_value. intros Hraise.
  repeat case_match; simplify_eq; apply Hhandler.
Qed.

(** X11: A value whose schema type is the one of the hint is returned as it
    is: nothing is parsed, coerced or checked, whatever the two types are. *)
Theorem deserialize_value_same_type_is_identity key value hint dt :
  py_type_to_sc_type hint = inr dt →
  py_type_to_sc_type (HType (type_of value)) = inr dt →
  deserialize_value classes key value hint = inr value.
Proof.
  intros Hhint Hvalue. unfold deserialize_value.
  destruct (hint_is_any hint); [done|]. rewrite Hhint, Hvalue.
  destruct (bool_decide (dt = dt_text) && bool_decide (dt = dt_complex)) eqn:Hboth.
  { apply andb_true_iff in Hboth as [Htext%bool_decide_eq_true
                                       Hcomplex%bool_decide_eq_true].
    congruence. }
  by rewrite bool_decide_eq_false_2 by (intros Hne; by apply Hne).
Qed.

(** X12: A text given for a hint of a complex type is parsed, as a literal
    for [tuple] and as JSON otherwise, and the function returns only what
    the parser produced and only when it is an instance of the hint. *)
Theorem deserialize_value_parses_to_hint_type key value hint parsed :
  hint_is_any hint = false →
  py_type_to_sc_type hint = inr dt_complex →
  py_type_to_sc_type (HType (type_of value)) = inr dt_text →
  deserialize_value classes key value hint = inr parsed →
  (if hint_is_tuple hint then ast_literal_eval value else json_loads value)
  = inr parsed
  ∧ isinstance classes parsed hint = inr true.
Proof.
  intros Hany Hhint Hvalue. unfold deserialize_value.
  rewrite Hany, Hhint, Hvalue. cbn [bool_decide decide_rel andb].
  rewrite !bool_decide_eq_true_2 by done. cbn [andb].
  destruct (if hint_is_tuple hint then _ else _) as [exc|parsed']; [done|].
  destruct (isinstance classes parsed' hint) as [exc|[]] eqn:Hinst; try done.
  by intros [= ->].
Qed.

End CoercionRuns.

(** The text abc does not coerce to an integer. *)
Lemma deserialize_value_raises_coercion_error_witness :
  ∃ key' value' hint',
    ConfigValueCannotBeCoercedException "port" (VStr "abc") (HType TInt)
    = ConfigValueCannotBeCoercedException key' value' hint'.
Proof.
  apply (deserialize_value_raises_coercion_error (rt := Ref.runtime) Ex.classes
           "port" (VStr "abc") (HType TInt)).
  reflexivity.
Defined.

(** An integer for an integer field. *)
Lemma deserialize_value_same_type_is_identity_witness :
  deserialize_value (rt := Ref.runtime) Ex.classes "port" (VInt 8080) (HType TInt)
  = inr (VInt 8080).
Proof.
  apply (deserialize_value_same_type_is_identity (rt := Ref.runtime) Ex.classes
           "port" (VInt 8080) (HType TInt) dt_bigint);
    reflexivity.
Defined.

(** The text of a list for a list field. *)
Lemma deserialize_value_parses_to_hint_type_witness :
  json_loads (Runtime := Ref.runtime) (VStr "[1, 2]")
  = inr (VList [VInt 1; VInt 2])
  ∧ isinstance Ex.classes (VList [VInt 1; VInt 2]) (HType TList) = inr true.
Proof.
  apply (deserialize_value_parses_to_hint_type (rt := Ref.runtime) Ex.classes
           "xs" (VStr "[1, 2]") (HType TList) (VList [VInt 1; VInt 2]));
    reflexivity.
Defined.

(** ** Further properties of the resolution of a field *)

Lemma py_or_cases classes (a b : PyVal) :
  truthy classes (py_or classes a b) = true ∨ py_or classes a b = b.
Proof. unfold py_or. destruct (truthy classes a) eqn:Ha; [by left|by right]. Qed.

(** What a lookup does besides returning: it leaves the heap as it is,
    and the only exception it raises is [ValueNotSecretException]. *)
Lemma resolve_single_value_effect classes C key hint inner_hint config_namespace
    explicit_namespaces embedded_namespaces st :
  let out := _resolve_single_value classes C key hint inner_hint
               config_namespace explicit_namespaces embedded_namespaces st in
  st_heap out.2 = st_heap st
  ∧ out.1 ≠ OutOfFuel
  ∧ ∀ exc, out.1 = Raise exc →
      ∃ provider_name key', exc = ValueNotSecretException provider_name key'.
Proof.
  cbv zeta. destruct (is_context_hint classes inner_hint) eqn:Hctx.
  { by rewrite resolve_single_value_context. }
  destruct (resolve_single_value_shape classes C key hint inner_hint
              config_namespace explicit_namespaces embedded_namespaces st Hctx)
    as [Hheap _].
  destruct (resolve_single_value_run classes C key hint inner_hint
              config_namespace explicit_namespaces embedded_namespaces st Hctx)
    as (new & _ & Hshape).
  split; [done|].
  destruct (_resolve_single_value _ _ _ _ _ _ _ _ _).1 as [[value traces]|exc|].
  - split; [done|]. by intros exc.
  - split; [done|]. intros exc' [= <-].
    destruct Hshape as (quiet & c & _ & _ & _ & _ & ->). by eexists _, _.
  - by destruct Hshape as (quiet & c & _ & _ & _ & _ & ?).
Qed.

Section FieldRuns.

Context {rt : Runtime} (classes : ClassTable) (C : Container).

(** Case analysis on the outcome of a conditional computation. *)
Ltac destruct_run cond st pat :=
  match goal with
  | |- context [(if cond then ?a else ?b) st] =>
      destruct ((if cond then a else b) st) as pat
  end.

(** The resolution of a field that is not an embedded configuration. *)
Lemma resolve_plain_field (rec : Resolve) key hint default_value explicit_value
    config config_namespace explicit_namespaces embedded_namespaces
    accept_partial st :
  is_embedded_configuration classes hint = false →
  _resolve_config_field classes C rec key hint default_value explicit_value
    config config_namespace explicit_namespaces embedded_namespaces
    accept_partial st
  = ('(value, traces) <-
       (if truthy classes explicit_value then ret (explicit_value, [])
        else _resolve_single_value classes C key hint (inner_hint_of hint)
               config_namespace explicit_namespaces embedded_namespaces) ;;
     if is_context_hint classes (inner_hint_of hint)
     then ret (py_or classes value default_value, traces)
     else
       value <-
         (if negb (is_none value) then
            if truthy classes explicit_value || py_is value explicit_value
            then ret value
            else lift_result
                   (deserialize_value classes key value (inner_hint_of hint))
          else ret value) ;;
       ret (py_or classes value default_value, traces)) st.
Proof.
  intros Hemb. unfold _resolve_config_field, is_embedded_configuration in *.
  unfold inner_hint_of in *. cbv zeta in *.
  set (inner_hint := default _ (get_origin _)) in *.
  unfold bind.
  destruct_run (truthy classes explicit_value) st
    ipattern:([[[value traces]|exc|] st1]); [|done..].
  destruct (is_context_hint classes inner_hint); [done|].
  rewrite andb_true_r in Hemb.
  by destruct inner_hint as [|[]| | | |].
Qed.

(** X13: The value of a field that is not an embedded configuration is never
    a false value other than the default: a value found by the lookup that
    is, after coercion, false in the sense of Python (zero, the empty text,
    [False], an empty list) is replaced by the default value of the field
    ([value or default_value]). *)
Theorem field_value_is_true_or_default (rec : Resolve) key hint default_value
    explicit_value config config_namespace explicit_namespaces
    embedded_namespaces accept_partial st value traces st' :
  is_embedded_configuration classes hint = false →
  _resolve_config_field classes C rec key hint default_value explicit_value
    config config_namespace explicit_namespaces embedded_namespaces
    accept_partial st
  = (Ret (value, traces), st') →
  truthy classes value = true ∨ value = default_value.
Proof.
  intros Hemb. rewrite resolve_plain_field by done. unfold bind.
  destruct_run (truthy classes explicit_value) st
    ipattern:([[[found traces0]|exc|] st1]); [|done..].
  destruct (is_context_hint classes (inner_hint_of hint)).
  { intros [= <- _ _]. apply py_or_cases. }
  destruct_run (negb (is_none found)) st1
    ipattern:([[coerced|exc|] st2]); [|done..].
  intros [= <- _ _]. apply py_or_cases.
Qed.

(** X14: The resolution of a field that is not an embedded configuration
    does not depend on [_resolve_configuration], which it never calls; it
    leaves every configuration instance as it is; and the only exceptions
    it raises are [ValueNotSecretException], from the lookup, and
    [ConfigValueCannotBeCoercedException], from the coercion. *)
Theorem plain_field_leaves_instances_alone (rec rec' : Resolve) key hint
    default_value explicit_value config config_namespace explicit_namespaces
    embedded_namespaces accept_partial st :
  is_embedded_configuration classes hint = false →
  _resolve_config_field classes C rec key hint default_value explicit_value
    config config_namespace explicit_namespaces embedded_namespaces
    accept_partial st
  = _resolve_config_field classes C rec' key hint default_value explicit_value
      config config_namespace explicit_namespaces embedded_namespaces
      accept_partial st
  ∧ st_heap
      (_resolve_config_field classes C rec key hint default_value
         explicit_value config config_namespace explicit_namespaces
         embedded_namespaces accept_partial st).2
    = st_heap st
  ∧ ∀ exc,
      (_resolve_config_field classes C rec key hint default_value
         explicit_value config config_namespace explicit_namespaces
         embedded_namespaces accept_partial st).1
      = Raise exc →
      (∃ provider_name key', exc = ValueNotSecretException provider_name key')
      ∨ (∃ key' value' hint',
           exc = ConfigValueCannotBeCoercedException key' value' hint').
Proof.
  intros Hemb. rewrite !resolve_plain_field by done. split; [done|].
  unfold bind.
  assert (Hlookup : ∀ out : Outcome (PyVal * list LookupTrace) * State,
    out = (if truthy classes explicit_value then ret (explicit_value, [])
           else _resolve_single_value classes C key hint (inner_hint_of hint)
                  config_namespace explicit_namespaces embedded_namespaces) st →
    st_heap out.2 = st_heap st
    ∧ out.1 ≠ OutOfFuel
    ∧ ∀ exc, out.1 = Raise exc →
        ∃ provider_name key', exc = ValueNotSecretException provider_name key').
  { intros out ->. destruct (truthy classes explicit_value); [done|].
    apply resolve_single_value_effect. }
  specialize (Hlookup _ eq_refl).
  destruct_run (truthy classes explicit_value) st
    ipattern:([[[found traces0]|exc|] st1]); cbn [fst snd] in Hlookup.
  2: { destruct Hlookup as (Hheap & _ & Hexc). split; [done|].
       intros exc' [= <-]. left. by apply Hexc. }
  2: { by destruct Hlookup as (_ & ? & _). }
  destruct Hlookup as (Hheap & _ & _).
  destruct (is_context_hint classes (inner_hint_of hint)); [done|].
  destruct (negb (is_none found)); [|done].
  destruct (truthy classes explicit_value || py_is found explicit_value); [done|].
  destruct (deserialize_value classes key found (inner_hint_of hint))
    as [exc|coerced] eqn:Hcoerce; [|done].
  split; [done|]. intros exc' [= <-]. right.
  unfold deserialize_value in Hcoerce.
  assert (Hhandler : ∀ v e, ∃ key' value' hint',
    coercion_handler key v (inner_hint_of hint) e
    = ConfigValueCannotBeCoercedException key' value' hint').
  { intros v []; simpl; eauto. }
  repeat case_match; simplify_eq; apply Hhandler.
Qed.

(** X15: A configuration instance that is already resolved and is given for
    an embedded configuration is taken as it is, without any provider query
    or resolution and with the state unchanged, whatever its class: as
    explicit value when it is true as a condition, that is when its class
    declares at least one field, and as default value when there is no
    explicit value.  It is then the value of the field when its class
    declares at least one field; the field of a default instance whose
    class declares none gets [None] ([value or default_value]). *)
Theorem resolved_instance_is_adopted (rec : Resolve) key hint default_value
    explicit_value config config_namespace explicit_namespaces
    embedded_namespaces accept_partial st (c' : ClassId) (r' : loc) :
  is_embedded_configuration classes hint = true →
  obj_is_resolved (heap_obj (st_heap st) r') = true →
  (explicit_value = VConfig c' r' ∧ truthy classes explicit_value = true)
  ∨ (truthy classes explicit_value = false ∧ default_value = VConfig c' r') →
  _resolve_config_field classes C rec key hint default_value explicit_value
    config config_namespace explicit_namespaces embedded_namespaces
    accept_partial st
  = (Ret (py_or classes (VConfig c' r') VNone, []), st).
Proof.
  intros Hemb Hresolved Hgiven.
  unfold _resolve_config_field, is_embedded_configuration in *.
  unfold inner_hint_of in *. cbv zeta in *.
  set (inner_hint := default _ (get_origin _)) in *.
  apply andb_true_iff in Hemb as [Hcfg Hctx%negb_true_iff].
  destruct inner_hint as [|[| | | | | | | |c]| | | |] eqn:Hinner; try done.
  destruct Hgiven as [[-> Htruthy]|[Hexplicit ->]].
  - rewrite Htruthy. unfold bind, ret, is_resolved. rewrite Hctx.
    cbn [fst snd]. rewrite Hresolved. unfold py_or. by rewrite Htruthy.
  - rewrite Hexplicit. unfold bind at 1.
    unfold _resolve_single_value at 1. rewrite Hctx.
    cbn [is_config_hint is_class_hint]. rewrite ?Hctx.
    unfold bind, ret, is_resolved. cbn [snd fst].
    by rewrite Hresolved.
Qed.

End FieldRuns.

(** The provider holds the text 0 for the integer field [port], which
    has no default: the text is coerced to the integer zero, and the field
    gets [None]. *)
Lemma field_value_is_true_or_default_witness :
  (_resolve_config_field (rt := Ref.runtime) Ex.classes
     (Ex.container [Demo.zero_port] [])
     (_resolve_configuration (rt := Ref.runtime) Ex.classes
        (Ex.container [Demo.zero_port] []) 0)
     "port" (HType TInt) VNone VNone ("Server", 1%positive) None [] [] false
     (Ex.no_calls Ex.heap_server)).1
  = Ret (VNone, [mkLookupTrace "Zero" [] "port" (VStr "0")])
  ∧ (truthy Ex.classes VNone = true ∨ VNone = VNone).
Proof.
  split; [reflexivity|].
  eapply (field_value_is_true_or_default (rt := Ref.runtime) Ex.classes
            (Ex.container [Demo.zero_port] [])
            (_resolve_configuration (rt := Ref.runtime) Ex.classes
               (Ex.container [Demo.zero_port] []) 0)
            "port" (HType TInt) VNone VNone ("Server", 1%positive) None [] []
            false (Ex.no_calls Ex.heap_server));
    reflexivity.
Defined.

(** The field [port] of [Server], resolved with two different bounds on
    the nesting. *)
Lemma plain_field_leaves_instances_alone_witness :
  _resolve_config_field (rt := Ref.runtime) Ex.classes Ex.bare
    (_resolve_configuration (rt := Ref.runtime) Ex.classes Ex.bare 0)
    "port" (HType TInt) VNone VNone ("Server", 1%positive) None [] [] false
    (Ex.no_calls Ex.heap_server)
  = _resolve_config_field (rt := Ref.runtime) Ex.classes Ex.bare
      (_resolve_configuration (rt := Ref.runtime) Ex.classes Ex.bare 1)
      "port" (HType TInt) VNone VNone ("Server", 1%positive) None [] [] false
      (Ex.no_calls Ex.heap_server)
  ∧ st_heap
      (_resolve_config_field (rt := Ref.runtime) Ex.classes Ex.bare
         (_resolve_configuration (rt := Ref.runtime) Ex.classes Ex.bare 0)
         "port" (HType TInt) VNone VNone ("Server", 1%positive) None [] [] false
         (Ex.no_calls Ex.heap_server)).2
    = st_heap (Ex.no_calls Ex.heap_server)
  ∧ ∀ exc,
      (_resolve_config_field (rt := Ref.runtime) Ex.classes Ex.bare
         (_resolve_configuration (rt := Ref.runtime) Ex.classes Ex.bare 0)
         "port" (HType TInt) VNone VNone ("Server", 1%positive) None [] [] false
         (Ex.no_calls Ex.heap_server)).1
      = Raise exc →
      (∃ provider_name key', exc = ValueNotSecretException provider_name key')
      ∨ (∃ key' value' hint',
           exc = ConfigValueCannotBeCoercedException key' value' hint').
Proof.
  apply (plain_field_leaves_instances_alone (rt := Ref.runtime) Ex.classes
           Ex.bare).
  reflexivity.
Defined.

(** A resolved [Db] given as explicit value for the field [db] of [App]. *)
Lemma resolved_instance_is_adopted_witness :
  _resolve_config_field (rt := Ref.runtime) Ex.classes Ex.bare
    (_resolve_configuration (rt := Ref.runtime) Ex.classes Ex.bare 0)
    "db" (HType (TClass "Db")) VNone (VConfig "Db" 1%positive)
    ("App", 2%positive) None [] [] false (Ex.no_calls Ex.heap_resolved_db)
  = (Ret (VConfig "Db" 1%positive, []), Ex.no_calls Ex.heap_resolved_db).
Proof.
  apply (resolved_instance_is_adopted (rt := Ref.runtime) Ex.classes Ex.bare
           (_resolve_configuration (rt := Ref.runtime) Ex.classes Ex.bare 0)
           "db" (HType (TClass "Db")) VNone (VConfig "Db" 1%positive)
           ("App", 2%positive) None [] [] false
           (Ex.no_calls Ex.heap_resolved_db) "Db" 1%positive).
  - reflexivity.
  - reflexivity.
  - left. split; reflexivity.
Defined.

(** ** Further properties of the loop over the fields *)

Section LoopRuns.

Context {rt : Runtime} (classes : ClassTable) (C : Container).
Context (rec : Resolve) (config : ClassId * loc) (explicit_values : PyVal).
Context (explicit_namespaces embedded_namespaces : list string).
Context (accept_partial : bool).

Abbreviation loop :=
  (resolve_fields_loop classes C rec config explicit_values explicit_namespaces
     embedded_namespaces accept_partial).
Abbreviation run_of :=
  (fields_run classes C rec config explicit_values explicit_namespaces
     embedded_namespaces accept_partial).

(** The loop after the fields of a run. *)
Lemma resolve_fields_loop_app fields rest st outcomes st1 unresolved_fields :
  run_of fields st outcomes st1 →
  loop (fields ++ rest) unresolved_fields st
  = loop rest (collect_unresolved outcomes unresolved_fields) st1.
Proof.
  intros Hrun. revert unresolved_fields.
  induction Hrun as [st|key hint fields st explicit_value current_value traces
                        st1 outcomes st' Hexplicit Hfield Hrun IH];
    intros unresolved_fields; [done|].
  rewrite <- app_comm_cons. cbn [resolve_fields_loop].
  rewrite (bind_Ret _ _ st explicit_value st)
    by (by apply explicit_value_for_get).
  rewrite (bind_Ret _ _ st (heap_obj (st_heap st) config.2) st) by done.
  rewrite (bind_Ret _ _ _ _ _ Hfield).
  rewrite (bind_Ret _ _ st1 () (setattr config.2 key current_value st1).2) by done.
  by rewrite IH.
Qed.

(** X16: An exception raised by the resolution of a field ends the loop at
    once: the fields declared after it are not resolved, the exception
    leaves [_resolve_config_fields] as it is, and the fields found missing
    before it are not reported. *)
Theorem field_loop_stops_at_first_exception fields outcomes key hint rest
    explicit_value exc st st1 st2 :
  cls_fields (classes config.1) = fields ++ (key, hint) :: rest →
  run_of fields st outcomes st1 →
  explicit_value_for classes explicit_values st1 key = inr explicit_value →
  _resolve_config_field classes C rec key hint
    (getattr (heap_obj (st_heap st1) config.2) key) explicit_value config
    (obj_namespace (heap_obj (st_heap st1) config.2)) explicit_namespaces
    embedded_namespaces accept_partial st1
  = (Raise exc, st2) →
  _resolve_config_fields classes C rec config explicit_values
    explicit_namespaces embedded_namespaces accept_partial st
  = (Raise exc, st2).
Proof.
  intros Hfields Hrun Hexplicit Hfield.
  unfold _resolve_config_fields. rewrite Hfields. unfold bind at 1.
  rewrite (resolve_fields_loop_app _ _ _ _ _ _ Hrun).
  cbn [resolve_fields_loop].
  rewrite (bind_Ret _ _ st1 explicit_value st1)
    by (by apply explicit_value_for_get).
  rewrite (bind_Ret _ _ st1 (heap_obj (st_heap st1) config.2) st1) by done.
  unfold bind at 1. by rewrite Hfield.
Qed.

End LoopRuns.

(** The host of [Login] is not found, then the password is found in the
    provider without secret support: the exception of the password leaves
    the loop, the port is not looked up and the missing host is not
    reported. *)
Lemma field_loop_stops_at_first_exception_witness :
  (_resolve_config_fields (rt := Ref.runtime) Demo.classes Demo.plain_toml
     (_resolve_configuration (rt := Ref.runtime) Demo.classes Demo.plain_toml 0)
     ("Login", 1%positive) VNone [] [] false (Ex.no_calls Demo.heap_login)).1
  = Raise (ValueNotSecretException "Pipeline config.toml" "password").
Proof.
  erewrite (field_loop_stops_at_first_exception (rt := Ref.runtime) Demo.classes
              Demo.plain_toml
              (_resolve_configuration (rt := Ref.runtime) Demo.classes
                 Demo.plain_toml 0)
              ("Login", 1%positive) VNone [] [] false
              [("host", HType TStr)] _ "password" HSecret
              [("port", HType TInt)] VNone).
  - reflexivity.
  - reflexivity.
  - eapply fields_run_cons; [reflexivity|reflexivity|apply fields_run_nil].
  - reflexivity.
  - reflexivity.
Defined.

(** ** Further properties of [_resolve_configuration] *)

Lemma bind_inv {A B} (m : M A) (k : A → M B) st b st' :
  bind m k st = (Ret b, st') →
  ∃ a st1, m st = (Ret a, st1) ∧ k a st1 = (Ret b, st').
Proof.
  unfold bind. destruct (m st) as [[a|e|] st1]; [|done..].
  intros Hk. by exists a, st1.
Qed.

Lemma bind_Raise {A B} (m : M A) (k : A → M B) st e st' :
  m st = (Raise e, st') → bind m k st = (Raise e, st').
Proof. unfold bind. by intros ->. Qed.

Lemma heap_obj_insert (h : gmap loc ConfigObj) (r : loc) (o : ConfigObj) :
  heap_obj (<[r := o]> h) r = o.
Proof. unfold heap_obj. by rewrite lookup_insert_eq. Qed.

(** Where no class of the list defines the hook, nothing is called. *)
Lemma call_method_in_no_hooks classes mro method_name r st :
  (∀ c, c ∈ mro → class_dict classes c method_name = None) →
  call_method_in classes mro method_name r st = (Ret (), st).
Proof.
  induction mro as [|c mro IH]; intros Hnone; [done|].
  cbn [call_method_in]. rewrite (Hnone c) by apply list_elem_of_here.
  apply IH. intros c' Hin. apply Hnone. by apply list_elem_of_further.
Qed.

Section ConfigurationRuns.

Context {rt : Runtime} (classes : ClassTable) (C : Container).
Context (rec : Resolve) (config : ClassId * loc).
Context (explicit_namespaces embedded_namespaces : list string).

Abbreviation body :=
  (_resolve_configuration_body classes C rec config explicit_namespaces
     embedded_namespaces).

(** The steps of the body before the two [try] blocks. *)
Ltac enter_body st Hresolved :=
  unfold _resolve_configuration_body;
  rewrite (bind_Ret (is_resolved config.2) _ st
             (obj_is_resolved (heap_obj (st_heap st) config.2)) st eq_refl);
  rewrite Hresolved;
  rewrite (bind_Ret (set_exception config.2 None) _ st ()
             (with_exception config.2 None st) eq_refl);
  cbn [negb].

(** An exception that leaves the body has been stored in the instance. *)
Lemma resolve_configuration_body_stores explicit_value accept_partial st exc st' :
  body explicit_value accept_partial st = (Raise exc, st') →
  obj_exception (heap_obj (st_heap st') config.2) = Some exc.
Proof.
  destruct (obj_is_resolved (heap_obj (st_heap st) config.2)) eqn:Hresolved.
  { unfold _resolve_configuration_body.
    rewrite (bind_Ret (is_resolved config.2) _ st
               (obj_is_resolved (heap_obj (st_heap st) config.2)) st eq_refl).
    by rewrite Hresolved. }
  enter_body st Hresolved. unfold bind at 1. unfold try_except at 1.
  destruct (try_except _ _ _) as [[[]|e|] st1]; [done| |done].
  cbn [bind set_exception update_obj raise fst snd st_heap].
  intros [= -> <-]. cbn [st_heap]. by rewrite heap_obj_insert.
Qed.


(** The call of [parse_native_representation] with its handlers. *)
Lemma parse_native_representation_run explicit_value st :
  parse_native_representation classes config explicit_value embedded_namespaces st
  = let '(parsed, exc) :=
      cls_parse_native (classes config.1) explicit_value
        (heap_obj (st_heap st) config.2) in
    (match exc with
     | Some (ValueError v) =>
         Raise (InvalidNativeValue config.1 (type_of explicit_value)
                  embedded_namespaces (ValueError v))
     | Some NotImplementedError | None => Ret ()
     | Some exc => Raise exc
     end,
     with_obj config.2 parsed st).
Proof.
  unfold parse_native_representation, try_except, call_method.
  destruct (cls_parse_native _ _ _) as [parsed [[]|]]; reflexivity.
Qed.

(** X17: For an explicit value that is true and is not a mapping, that is
    neither a dictionary nor a configuration instance, a [ValueError] of
    [parse_native_representation] is reported as [InvalidNativeValue], which
    names the class of the configuration, the type of the explicit value and
    the embedded namespaces; the exception is stored in the instance and no
    field is resolved. *)
Theorem invalid_native_value_is_reported explicit_value accept_partial st
    (parsed : ConfigObj) (v : PyVal) :
  obj_is_resolved (heap_obj (st_heap st) config.2) = false →
  truthy classes explicit_value = true →
  is_mapping explicit_value = false →
  cls_parse_native (classes config.1) explicit_value
    (heap_obj (st_heap (with_exception config.2 None st)) config.2)
  = (parsed, Some (ValueError v)) →
  body explicit_value accept_partial st
  = (Raise (InvalidNativeValue config.1 (type_of explicit_value)
              embedded_namespaces (ValueError v)),
     with_exception config.2
       (Some (InvalidNativeValue config.1 (type_of explicit_value)
                embedded_namespaces (ValueError v)))
       (with_obj config.2 parsed (with_exception config.2 None st))).
Proof.
  intros Hresolved Htruthy Hmapping Hparse.
  enter_body st Hresolved. set (st0 := with_exception config.2 None st) in *.
  rewrite Htruthy, Hmapping. cbn [negb andb].
  unfold bind at 1. unfold try_except at 1 2.
  rewrite (bind_Raise _ _ st0
             (InvalidNativeValue config.1 (type_of explicit_value)
                embedded_namespaces (ValueError v))
             (with_obj config.2 parsed st0)).
  2: { apply bind_Raise. rewrite parse_native_representation_run.
       by rewrite Hparse. }
  reflexivity.
Qed.

(** The body depends on the explicit value through the step that
    consumes it. *)
Lemma resolve_configuration_body_ext explicit_value explicit_value'
    accept_partial st :
  (if truthy classes explicit_value && negb (is_mapping explicit_value)
   then run parse_native_representation classes config explicit_value
              embedded_namespaces ;; ret VNone
   else ret explicit_value) (with_exception config.2 None st)
  = (if truthy classes explicit_value' && negb (is_mapping explicit_value')
     then run parse_native_representation classes config explicit_value'
                embedded_namespaces ;; ret VNone
     else ret explicit_value') (with_exception config.2 None st) →
  body explicit_value accept_partial st = body explicit_value' accept_partial st.
Proof.
  intros Hsame.
  destruct (obj_is_resolved (heap_obj (st_heap st) config.2)) eqn:Hresolved.
  { unfold _resolve_configuration_body.
    rewrite !(bind_Ret (is_resolved config.2) _ st
                (obj_is_resolved (heap_obj (st_heap st) config.2)) st eq_refl).
    by rewrite Hresolved. }
  unfold _resolve_configuration_body.
  rewrite !(bind_Ret (is_resolved config.2) _ st
              (obj_is_resolved (heap_obj (st_heap st) config.2)) st eq_refl).
  rewrite Hresolved.
  rewrite !(bind_Ret (set_exception config.2 None) _ st ()
              (with_exception config.2 None st) eq_refl).
  unfold bind at 1. unfold try_except at 1 2. unfold bind at 1.
  rewrite Hsame. reflexivity.
Qed.

(** X18: An explicit value that is true and is not a mapping (neither a
    dictionary nor a configuration instance) and that
    [parse_native_representation] does not support ([NotImplementedError])
    is dropped: when the call leaves the instance as it was, the resolution
    goes on as if no explicit value had been given. *)
Theorem unsupported_native_value_is_ignored explicit_value accept_partial st :
  truthy classes explicit_value = true →
  is_mapping explicit_value = false →
  cls_parse_native (classes config.1) explicit_value
    (heap_obj (st_heap (with_exception config.2 None st)) config.2)
  = (heap_obj (st_heap (with_exception config.2 None st)) config.2,
     Some NotImplementedError) →
  body explicit_value accept_partial st = body VNone accept_partial st.
Proof.
  intros Htruthy Hmapping Hparse. apply resolve_configuration_body_ext.
  rewrite Htruthy, Hmapping. cbn [negb andb truthy].
  unfold bind at 1. rewrite parse_native_representation_run, Hparse.
  unfold with_obj, with_exception, ret. cbn [st_heap st_calls].
  by rewrite heap_obj_insert, insert_insert_eq.
Qed.

(** X19: A native representation that resolves the instance is all that is
    used: for an explicit value that is true and is not a mapping (neither
    a dictionary nor a configuration instance), when
    [parse_native_representation] returns and leaves the instance resolved,
    no field is resolved and no provider is queried; the instance is marked
    resolved and returned. *)
Theorem native_value_resolves_without_lookup explicit_value accept_partial st
    (parsed : ConfigObj) :
  obj_is_resolved (heap_obj (st_heap st) config.2) = false →
  truthy classes explicit_value = true →
  is_mapping explicit_value = false →
  cls_parse_native (classes config.1) explicit_value
    (heap_obj (st_heap (with_exception config.2 None st)) config.2)
  = (parsed, None) →
  obj_is_resolved parsed = true →
  (∀ c, c ∈ cls_mro (classes config.1) → cls_on_resolved (classes c) = None) →
  body explicit_value accept_partial st
  = (Ret (VConfig config.1 config.2),
     with_resolved config.2
       (with_obj config.2 parsed (with_exception config.2 None st))).
Proof.
  intros Hresolved Htruthy Hmapping Hparse Hparsed Hhooks.
  enter_body st Hresolved. set (st0 := with_exception config.2 None st) in *.
  rewrite Htruthy, Hmapping. cbn [negb andb].
  unfold bind at 1. unfold try_except at 1 2.
  rewrite (bind_Ret _ _ st0 VNone (with_obj config.2 parsed st0)).
  2: { unfold bind. rewrite parse_native_representation_run. by rewrite Hparse. }
  rewrite (bind_Ret (is_resolved config.2) _ (with_obj config.2 parsed st0) true
             (with_obj config.2 parsed st0)).
  2: { unfold is_resolved, with_obj. cbn [st_heap].
       by rewrite heap_obj_insert, Hparsed. }
  cbn [negb].
  rewrite (bind_Ret (ret ()) _ (with_obj config.2 parsed st0) ()
             (with_obj config.2 parsed st0) eq_refl).
  rewrite (bind_Ret _ _ (with_obj config.2 parsed st0) ()
             (with_obj config.2 parsed st0)).
  2: { apply call_method_in_no_hooks. exact Hhooks. }
  reflexivity.
Qed.

(** X20: What [accept_partial] does.  When [_resolve_config_fields] raises
    [ConfigFieldMissingException] and the classes of the instance define no
    hooks, the exception is stored in the instance; with [accept_partial]
    the instance is then returned as it is, not marked resolved, and without
    [accept_partial] the exception is raised. *)
Theorem missing_fields_are_accepted_partially explicit_value accept_partial st
    (spec_name : string) (missing : list (string * list LookupTrace)) st1 :
  obj_is_resolved (heap_obj (st_heap st) config.2) = false →
  truthy classes explicit_value && negb (is_mapping explicit_value) = false →
  (∀ c, c ∈ cls_mro (classes config.1) →
     cls_on_partial (classes c) = None ∧ cls_on_resolved (classes c) = None) →
  _resolve_config_fields classes C rec config explicit_value explicit_namespaces
    embedded_namespaces accept_partial (with_exception config.2 None st)
  = (Raise (ConfigFieldMissingException spec_name missing), st1) →
  body explicit_value accept_partial st
  = let cm_ex := ConfigFieldMissingException spec_name missing in
    let st2 := with_exception config.2 (Some cm_ex) st1 in
    if obj_is_resolved (heap_obj (st_heap st1) config.2) || accept_partial
    then (Ret (VConfig config.1 config.2), st2)
    else (Raise cm_ex, with_exception config.2 (Some cm_ex) st2).
Proof.
  intros Hresolved Hconsumed Hhooks Hfields.
  enter_body st Hresolved. set (st0 := with_exception config.2 None st) in *.
  rewrite Hconsumed. cbn [andb].
  unfold bind at 1. unfold try_except at 1 2.
  rewrite (bind_Ret (ret explicit_value) _ st0 explicit_value st0 eq_refl).
  rewrite (bind_Ret (is_resolved config.2) _ st0 false st0).
  2: { unfold is_resolved, st0, with_exception. cbn [st_heap].
       rewrite heap_obj_insert. cbn [obj_is_resolved]. by rewrite Hresolved. }
  cbn [negb]. rewrite (bind_Raise _ _ st0 _ st1 Hfields).
  cbv zeta.
  set (cm_ex := ConfigFieldMissingException spec_name missing).
  set (st2 := with_exception config.2 (Some cm_ex) st1).
  rewrite (bind_Ret (set_exception config.2 (Some cm_ex)) _ st1 () st2 eq_refl).
  rewrite (bind_Ret (_call_method_in_mro classes config on_partial) _ st2 () st2).
  2: { apply call_method_in_no_hooks. intros c Hc. by apply Hhooks. }
  rewrite (bind_Ret (is_resolved config.2) _ st2
             (obj_is_resolved (heap_obj (st_heap st1) config.2)) st2).
  2: { unfold is_resolved, st2, with_exception. cbn [st_heap].
       by rewrite heap_obj_insert. }
  destruct (obj_is_resolved (heap_obj (st_heap st1) config.2)); cbn [orb].
  { unfold _call_method_in_mro.
    rewrite call_method_in_no_hooks; [done|].
    intros c Hc. by apply Hhooks. }
  by destruct accept_partial.
Qed.

(** X21: Without [accept_partial], a configuration that
    [_resolve_configuration] returns is the instance it was given, and it
    is resolved, provided no class of the instance defines an
    [on_resolved] hook that could undo it. *)
Theorem returned_configuration_is_resolved explicit_value st value st' :
  (∀ c, c ∈ cls_mro (classes config.1) → cls_on_resolved (classes c) = None) →
  body explicit_value false st = (Ret value, st') →
  value = VConfig config.1 config.2
  ∧ obj_is_resolved (heap_obj (st_heap st') config.2) = true.
Proof.
  intros Hhooks.
  destruct (obj_is_resolved (heap_obj (st_heap st) config.2)) eqn:Hresolved.
  { unfold _resolve_configuration_body.
    rewrite (bind_Ret (is_resolved config.2) _ st
               (obj_is_resolved (heap_obj (st_heap st) config.2)) st eq_refl).
    rewrite Hresolved. by intros [= <- <-]. }
  enter_body st Hresolved. set (st0 := with_exception config.2 None st) in *.
  intros (u & st1 & Htry & Hret)%bind_inv.
  injection Hret as <- Hst. subst st1. split; [done|].
  unfold try_except at 1 in Htry.
  destruct (try_except _ _ st0) as [[[]|e|] st2] eqn:Hinner.
  3: done.
  2: { by cbn [bind set_exception update_obj raise] in Htry. }
  assert (st2 = st') as -> by congruence. clear Htry.
  unfold try_except in Hinner.
  match type of Hinner with
  | context [bind ?m ?k st0] => destruct (bind m k st0) as [[[]|e|] st3] eqn:Hblock
  end.
  - assert (st3 = st') as -> by congruence. clear Hinner.
    apply bind_inv in Hblock as (explicit_value' & s1 & _ & Hblock).
    apply bind_inv in Hblock as (resolved & s2 & _ & Hblock).
    apply bind_inv in Hblock as (u1 & s3 & _ & Hblock).
    apply bind_inv in Hblock as (u2 & s4 & _ & Hblock).
    injection Hblock as <-. cbn [st_heap]. by rewrite heap_obj_insert.
  - destruct e; try done.
    apply bind_inv in Hinner as (u1 & s1 & _ & Hinner).
    apply bind_inv in Hinner as (u2 & s2 & _ & Hinner).
    apply bind_inv in Hinner as (resolved & s3 & Hflag & Hinner).
    injection Hflag as <- <-.
    destruct (obj_is_resolved (heap_obj (st_heap s2) config.2)) eqn:Hflag;
      [|done].
    unfold _call_method_in_mro in Hinner.
    rewrite call_method_in_no_hooks in Hinner by (intros c Hc; by apply Hhooks).
    by injection Hinner as <-.
  - done.
Qed.

End ConfigurationRuns.

(** X22: Whenever [_resolve_configuration] raises, the exception it raises
    has been stored in the [__exception__] attribute of the instance. *)
Theorem raised_exception_is_stored {rt : Runtime} classes C depth config
    explicit_namespaces embedded_namespaces explicit_value accept_partial st exc :
  (_resolve_configuration classes C depth config explicit_namespaces
     embedded_namespaces explicit_value accept_partial st).1
  = Raise exc →
  obj_exception
    (heap_obj
       (st_heap
          (_resolve_configuration classes C depth config explicit_namespaces
             embedded_namespaces explicit_value accept_partial st).2)
       config.2)
  = Some exc.
Proof.
  destruct (_resolve_configuration classes C depth config explicit_namespaces
              embedded_namespaces explicit_value accept_partial st)
    as [out st'] eqn:Hrun.
  cbn [fst snd]. intros ->.
  destruct depth; cbn [_resolve_configuration] in Hrun;
    by eapply resolve_configuration_body_stores.
Qed.

(** The classes of the examples define no hooks. *)
Lemma ex_classes_no_hooks c :
  cls_on_partial (Ex.classes c) = None ∧ cls_on_resolved (Ex.classes c) = None.
Proof. unfold Ex.classes. by repeat case_match. Qed.

Lemma demo_classes_no_hooks c :
  cls_on_partial (Demo.classes c) = None
  ∧ cls_on_resolved (Demo.classes c) = None.
Proof.
  unfold Demo.classes. repeat case_match; try done. apply ex_classes_no_hooks.
Qed.

(** The two required fields of [Server] are missing: the exception that
    is raised is found in the instance. *)
Lemma raised_exception_is_stored_witness :
  obj_exception
    (heap_obj
       (st_heap
          (_resolve_configuration (rt := Ref.runtime) Ex.classes Ex.bare 0
             ("Server", 1%positive) [] [] VNone false
             (Ex.no_calls Ex.heap_server)).2)
       1%positive)
  = Some (ConfigFieldMissingException "Server"
            [("host", [mkLookupTrace "P0" [] "host" VNone]);
             ("port", [mkLookupTrace "P0" [] "port" VNone])]).
Proof.
  apply (raised_exception_is_stored (rt := Ref.runtime) Ex.classes Ex.bare 0
           ("Server", 1%positive) [] [] VNone false (Ex.no_calls Ex.heap_server)).
  reflexivity.
Defined.

(** A text that is not a connection string for [Dsn]. *)
Lemma invalid_native_value_is_reported_witness :
  (_resolve_configuration (rt := Ref.runtime) Demo.classes Ex.bare 0
     ("Dsn", 1%positive) [] [] (VStr "mysql://db") false
     (Ex.no_calls Demo.heap_dsn)).1
  = Raise (InvalidNativeValue "Dsn" TStr [] (ValueError (VStr "mysql://db"))).
Proof.
  exact (f_equal fst
           (invalid_native_value_is_reported (rt := Ref.runtime) Demo.classes
              Ex.bare (λ _ _ _ _ _ st, (OutOfFuel, st)) ("Dsn", 1%positive) [] []
              (VStr "mysql://db") false (Ex.no_calls Demo.heap_dsn)
              (heap_obj
                 (st_heap (with_exception 1%positive None
                             (Ex.no_calls Demo.heap_dsn))) 1%positive)
              (VStr "mysql://db") eq_refl eq_refl eq_refl eq_refl)).
Defined.

(** An integer is not a representation [Dsn] supports: the resolution is
    the one without explicit value. *)
Lemma unsupported_native_value_is_ignored_witness :
  _resolve_configuration (rt := Ref.runtime) Demo.classes Ex.bare 0
    ("Dsn", 1%positive) [] [] (VInt 5) false (Ex.no_calls Demo.heap_dsn)
  = _resolve_configuration (rt := Ref.runtime) Demo.classes Ex.bare 0
      ("Dsn", 1%positive) [] [] VNone false (Ex.no_calls Demo.heap_dsn).
Proof.
  exact (unsupported_native_value_is_ignored (rt := Ref.runtime) Demo.classes
           Ex.bare (λ _ _ _ _ _ st, (OutOfFuel, st)) ("Dsn", 1%positive) [] []
           (VInt 5) false (Ex.no_calls Demo.heap_dsn) eq_refl eq_refl eq_refl).
Defined.

(** A connection string resolves [Dsn]: the instance is returned and no
    provider has been queried. *)
Lemma native_value_resolves_without_lookup_witness :
  (_resolve_configuration (rt := Ref.runtime) Demo.classes Ex.bare 0
     ("Dsn", 1%positive) [] [] (VStr "postgres://db") false
     (Ex.no_calls Demo.heap_dsn)).1
  = Ret (VConfig "Dsn" 1%positive)
  ∧ st_calls
      (_resolve_configuration (rt := Ref.runtime) Demo.classes Ex.bare 0
         ("Dsn", 1%positive) [] [] (VStr "postgres://db") false
         (Ex.no_calls Demo.heap_dsn)).2
    = [].
Proof.
  pose proof (native_value_resolves_without_lookup (rt := Ref.runtime)
                Demo.classes Ex.bare (λ _ _ _ _ _ st, (OutOfFuel, st))
                ("Dsn", 1%positive) [] [] (VStr "postgres://db") false
                (Ex.no_calls Demo.heap_dsn)
                (mkObj {[ "url" := VStr "postgres://db" ]} None true None)
                eq_refl eq_refl eq_refl eq_refl eq_refl
                (λ c _, proj2 (demo_classes_no_hooks c))) as Hrun.
  split.
  - exact (f_equal fst Hrun).
  - exact (f_equal (λ out, st_calls out.2) Hrun).
Defined.

(** The two required fields of [Server] are missing and partial
    configurations are accepted: the instance is returned, not resolved. *)
Lemma missing_fields_are_accepted_partially_witness :
  (_resolve_configuration (rt := Ref.runtime) Ex.classes Ex.bare 0
     ("Server", 1%positive) [] [] VNone true (Ex.no_calls Ex.heap_server)).1
  = Ret (VConfig "Server" 1%positive)
  ∧ obj_is_resolved
      (heap_obj
         (st_heap
            (_resolve_configuration (rt := Ref.runtime) Ex.classes Ex.bare 0
               ("Server", 1%positive) [] [] VNone true
               (Ex.no_calls Ex.heap_server)).2)
         1%positive)
    = false.
Proof.
  pose proof (missing_fields_are_accepted_partially (rt := Ref.runtime)
                Ex.classes Ex.bare (λ _ _ _ _ _ st, (OutOfFuel, st))
                ("Server", 1%positive) [] [] VNone true
                (Ex.no_calls Ex.heap_server) "Server"
                [("host", [mkLookupTrace "P0" [] "host" VNone]);
                 ("port", [mkLookupTrace "P0" [] "port" VNone])]
                (_resolve_config_fields (rt := Ref.runtime) Ex.classes Ex.bare
                   (λ _ _ _ _ _ st, (OutOfFuel, st)) ("Server", 1%positive)
                   VNone [] [] true
                   (with_exception 1%positive None
                      (Ex.no_calls Ex.heap_server))).2
                eq_refl eq_refl (λ c _, ex_classes_no_hooks c) eq_refl) as Hrun.
  split.
  - exact (f_equal fst Hrun).
  - exact (f_equal (λ out, obj_is_resolved (heap_obj (st_heap out.2) 1%positive))
             Hrun).
Defined.

(** [Db] has one optional field: it resolves, and the instance returned
    is resolved. *)
Lemma returned_configuration_is_resolved_witness :
  VConfig "Db" 1%positive = VConfig "Db" 1%positive
  ∧ obj_is_resolved
      (heap_obj
         (st_heap
            (_resolve_configuration (rt := Ref.runtime) Ex.classes Ex.bare 0
               ("Db", 1%positive) [] [] VNone false (Ex.no_calls Ex.heap_app)).2)
         1%positive)
    = true.
Proof.
  apply (returned_configuration_is_resolved (rt := Ref.runtime) Ex.classes
           Ex.bare (λ _ _ _ _ _ st, (OutOfFuel, st)) ("Db", 1%positive) [] []
           VNone (Ex.no_calls Ex.heap_app)).
  - intros c _. apply ex_classes_no_hooks.
  - reflexivity.
Defined.

(** ** Secrets and the providers *)

(** X23: In a container none of whose providers supports secrets, the lookup
    for a hint that requires secrecy never returns a value: it returns
    [None] or raises. *)
Theorem secrets_need_a_secret_provider classes C key hint inner_hint
    config_namespace explicit_namespaces embedded_namespaces st value traces :
  is_context_hint classes inner_hint = false →
  _is_secret_hint classes hint = true →
  Forall (λ provider, supports_secrets provider = false) (providers C) →
  (_resolve_single_value classes C key hint inner_hint config_namespace
     explicit_namespaces embedded_namespaces st).1
  = Ret (value, traces) →
  value = VNone.
Proof.
  intros Hctx Hhint Hproviders Hret.
  destruct (resolve_single_value_run classes C key hint inner_hint
              config_namespace explicit_namespaces embedded_namespaces st Hctx)
    as (new & Hcalls & Hshape).
  destruct (resolve_single_value_paths classes C key hint inner_hint
              config_namespace explicit_namespaces embedded_namespaces st Hctx)
    as (new' & Hcalls' & Hpaths & _).
  rewrite Hcalls in Hcalls'. apply app_inv_head in Hcalls' as <-.
  rewrite Hret in Hshape. cbn [verdict_of] in Hshape.
  destruct (is_none value) eqn:Hvalue; [by destruct value|].
  destruct Hshape as (quiet & c & -> & _ & _ & _ & Hcant).
  apply Forall_app in Hpaths as [_ Hc]. apply Forall_cons in Hc as [Hc _].
  destruct Hc as (provider & pipeline_name & k & Hin & _ & -> & _).
  cbn [attempt call_provider] in Hcant.
  rewrite Forall_forall in Hproviders.
  unfold cant_hold_it in Hcant. by rewrite (Hproviders _ Hin), Hhint in Hcant.
Qed.

(** [config.toml] has no password: the lookup of the secret returns
    [None]. *)
Lemma secrets_need_a_secret_provider_witness :
  (_resolve_single_value Ex.classes Demo.toml_only "password" HSecret
     (HType TStr) None [] [] (Ex.no_calls ∅)).1
  = Ret (VNone, [])
  ∧ VNone = VNone.
Proof.
  split; [reflexivity|].
  eapply (secrets_need_a_secret_provider Ex.classes Demo.toml_only "password"
            HSecret (HType TStr) None [] [] (Ex.no_calls ∅) VNone).
  - reflexivity.
  - reflexivity.
  - repeat constructor.
  - reflexivity.
Defined.

(** ** The TOML provider *)

Lemma toml_walk_app node path1 path2 :
  toml_walk node (path1 ++ path2)
  = match toml_walk node path1 with
    | inr sub => toml_walk sub path2
    | inl exc => inl exc
    end.
Proof.
  revert node. induction path1 as [|k path1 IH]; intros node; [done|].
  cbn [app toml_walk]. destruct node; try done.
  by destruct (dict_lookup _ k).
Qed.

(** X24: [get_value] descends one table for every namespace: the value under
    the namespaces [ns1 ++ ns2] is the value under [ns2] in the table found
    under [ns1], and it is [None] when there is no such table, because a
    key is missing or because a value that is not a table is in the way. *)
Theorem toml_get_value_descends toml key hint ns1 ns2 :
  (toml_get_value toml key hint (ns1 ++ ns2)).1
  = match toml_walk toml ns1 with
    | inr sub => (toml_get_value sub key hint ns2).1
    | inl _ => VNone
    end.
Proof.
  unfold toml_get_value. cbv zeta.
  rewrite <- app_assoc, toml_walk_app.
  destruct (toml_walk toml ns1) as [exc|sub]; [done|].
  by destruct (toml_walk sub (ns2 ++ [key])).
Qed.

(** ** Injected namespaces *)

(** X25: Namespace contexts that are injected one inside the other merge
    associatively: injecting [b] and then, inside it, [c] installs the
    context that injecting [c] merged with [b] would install. *)
Theorem inject_namespace_nests (a b c : ConfigNamespacesContext) :
  inject_namespace (inject_namespace a b true) c true
  = inject_namespace a (inject_namespace b c true) true.
Proof.
  unfold inject_namespace. cbn [ns_pipeline_name ns_namespaces]. f_equal.
  - destruct (truthy_str (ns_pipeline_name c)) eqn:Hc; [by rewrite Hc|done].
  - by destruct (ns_namespaces c).
Qed.
